(** * Validation engine (server/validation_engine.py)

    A shallow embedding of the push-validation core of the Tracker server:
    the assignment matcher [find_module_in_projects], the store update
    [update_module_status], the delay estimator [calculate_predictive_delay],
    the orchestrator [validate_github_push] and the ingestion endpoint
    [github_webhook], together with the properties the specification states
    about them.

    MongoDB documents are modelled by records whose fields are optional
    (a key may be absent), Python exceptions by an explicit result type, and
    the database, the clock and the Socket.IO channel by a [World] that is
    threaded through every operation. *)

From Stdlib Require Import ZArith String Ascii List Lia DecimalString.
From Stdlib Require QArith.
From stdpp Require Import base decidable option list gmap strings.

Local Open Scope string_scope.
Local Open Scope nat_scope.
Local Open Scope list_scope.
Local Open Scope stdpp_scope.

(** ** Python values used by the engine *)

(** The exceptions the engine can meet.  [StoreError] stands for the
    [pymongo.errors] family; the others are the Python built-ins. *)
Inductive Exc :=
| StoreError
| AttributeError
| TypeError
| ValueError
| KeyError
| IndexError.

Inductive Result (A : Type) :=
| Ok (a : A)
| Raise (e : Exc).
Arguments Ok {A} a.
Arguments Raise {A} e.

#[global] Instance Exc_eq_dec : EqDecision Exc.
Proof. solve_decision. Defined.

(** [str.lower()], on the ASCII letters (GitHub repository names are ASCII). *)
Definition lower_ascii (c : ascii) : ascii :=
  let n := nat_of_ascii c in
  if (65 <=? n)%nat && (n <=? 90)%nat then ascii_of_nat (n + 32) else c.

Fixpoint lower (s : string) : string :=
  match s with
  | EmptyString => EmptyString
  | String c rest => String (lower_ascii c) (lower rest)
  end.

(** Truthiness of a string and of an optional string ([None] is falsy). *)
Definition str_truthy (s : string) : bool :=
  match s with EmptyString => false | String _ _ => true end.

Definition opt_str_truthy (o : option string) : bool :=
  match o with None => false | Some s => str_truthy s end.

(** Truthiness of a dict: it has at least one key. *)
Definition dict_truthy {V} (d : gmap string V) : bool :=
  match map_to_list d with [] => false | _ :: _ => true end.

(** [f"{n}"] for an integer. *)
Definition str_int (n : Z) : string := NilZero.string_of_int (Z.to_int n).

(** Identifiers are BSON ObjectIds or, in legacy data, plain strings.
    [str_id] is Python's [str] on the value of an optional id field. *)
Inductive IdVal :=
| ObjectId (hex : string)
| IdText (s : string).

#[global] Instance IdVal_eq_dec : EqDecision IdVal.
Proof. solve_decision. Defined.

Definition str_id (v : option IdVal) : string :=
  match v with
  | None => "None"
  | Some (ObjectId h) => h
  | Some (IdText s) => s
  end.

(** *** Dates

    A [datetime] is its wall-clock reading in microseconds since the epoch,
    with the UTC offset (in microseconds) when it is timezone-aware.  The
    driver returns naive datetimes, and so does [datetime.utcnow()]. *)
Record datetime := { wall : Z; utcoffset : option Z }.

Definition naive (t : Z) : datetime := {| wall := t; utcoffset := None |}.

Definition day_us : Z := 86400000000.

(** [a - b] on datetimes, a [timedelta] in microseconds: naive and aware
    values do not mix. *)
Definition dt_sub (a b : datetime) : Result Z :=
  match utcoffset a, utcoffset b with
  | None, None => Ok (wall a - wall b)%Z
  | Some oa, Some ob => Ok ((wall a - oa) - (wall b - ob))%Z
  | _, _ => Raise TypeError
  end.

(** [timedelta.days]: the timedelta is normalised with a non-negative
    remainder, so this is the floor of the quotient. *)
Definition days (delta : Z) : Z := (delta / day_us)%Z.

(** A date field of a stored document: a BSON date (read back as a naive
    datetime) or, in data written by other clients, a string or a null. *)
Inductive DateField :=
| DDate (t : Z)
| DText (s : string)
| DNull.

#[global] Instance DateField_eq_dec : EqDecision DateField.
Proof. solve_decision. Defined.

Definition date_truthy (o : option DateField) : bool :=
  match o with
  | None => false
  | Some (DDate _) => true
  | Some (DText s) => str_truthy s
  | Some DNull => false
  end.

(** A BSON date keeps milliseconds only. *)
Definition bson_date (t : Z) : Z := (1000 * (t / 1000))%Z.

(** ** Data model *)

(** A module (assignment) embedded in a project.  Every key may be absent;
    a date key may also hold a null. *)
Record ModuleDoc := {
  module_oid : option IdVal;                      (* _id *)
  module_id : option string;                      (* id *)
  title : option string;
  description : option string;
  assignedToUserId : option IdVal;
  status : option string;
  validationRule : option (gmap string string);
  dueDate : option DateField;
  createdAt : option DateField;
  completedAt : option DateField
}.

#[global] Instance ModuleDoc_eq_dec : EqDecision ModuleDoc.
Proof. solve_decision. Defined.

(** An element of a [modules] array: a subdocument or BSON null. *)
Abbreviation Slot := (option ModuleDoc) (only parsing).

(** The [modules] field of a project: absent, an array, or an embedded
    document keyed by positions (what a positional [$set] creates in a
    project that had no array). *)
Inductive ModulesField :=
| MAbsent
| MArray (ms : list Slot)
| MDoc (d : gmap nat ModuleDoc).

#[global] Instance ModulesField_eq_dec : EqDecision ModulesField.
Proof. solve_decision. Defined.

Record Project := {
  project_oid : IdVal;                            (* _id *)
  project_name : option string;                   (* name *)
  teamId : option IdVal;
  modules : ModulesField
}.

#[global] Instance Project_eq_dec : EqDecision Project.
Proof. solve_decision. Defined.

Record User := {
  user_oid : IdVal;                               (* _id *)
  githubUsername : option string;
  name : option string;
  username : option string;
  role : option string
}.

(** The fields the engine reads from the body of a push event. *)
Record Payload := {
  pusher_name : option string;                    (* pusher.name *)
  repository_name : option string;                (* repository.name *)
  ref : option string;
  commits : nat                                   (* len(commits) *)
}.

(** The delay estimate.  [avgCompletionTime] is [None] for a null, and
    otherwise the number the answer shows: the mean rounded to one
    decimal. *)
Record DelayEstimate := {
  predictedDelay : Z;
  delayReason : string;
  confidence : string;
  avgCompletionTime : option QArith_base.Q;
  historicalDataPoints : nat
}.

(** The dict returned by [validate_github_push]: the module as the matcher
    read it, the resolved user, the project, the event, and the delay
    estimate merged in.  [result_completedAt] is the datetime whose ISO text
    the code stores. *)
Record CompletionResult := {
  result_oid : string;                            (* _id *)
  result_id : option string;                      (* id *)
  result_title : option string;
  result_description : option string;
  result_status : string;
  result_assignedToUserId : string;
  assignedToName : string;
  userRole : string;
  projectId : string;
  projectName : option string;
  result_teamId : option string;
  result_completedAt : Z;
  completedBy : string;
  completedByUsername : string;
  repository : string;
  branch : option string;
  result_commits : nat;
  result_validationRule : option (gmap string string);
  delay : DelayEstimate
}.

(** A Socket.IO broadcast: the event name, the result it is built from,
    its timestamp, and whether it is one of the test endpoint's, which carry
    a [test] marker (and, for [task_updated], a [TEST] message).  The other
    fields of the payload are read from the result. *)
Record Emission := {
  event : string;
  about : CompletionResult;
  timestamp : Z;
  for_test : bool
}.

(** The JSON response of the webhook endpoint with its HTTP status. *)
Record Response := {
  http_status : nat;
  body_status : string;
  message : string;
  body_module : option CompletionResult;
  events_emitted : list string;
  payload_summary : option (option string * option string * nat)
}.

(** ** The world: database, clock, driver health, broadcast channel

    [outage = Some n] means that the next [n] store operations succeed and
    every later one raises; [None] is a store that stays available.  The
    clock is read by [utcnow] and does not advance during one request. *)
Record World := {
  users : list User;
  projects : list Project;
  clock : Z;
  outage : option nat;
  emitted : list Emission
}.

Definition set_projects (ps : list Project) (w : World) : World :=
  {| users := users w; projects := ps; clock := clock w;
     outage := outage w; emitted := emitted w |}.

Definition set_outage (o : option nat) (w : World) : World :=
  {| users := users w; projects := projects w; clock := clock w;
     outage := o; emitted := emitted w |}.

Definition add_emission (e : Emission) (w : World) : World :=
  {| users := users w; projects := projects w; clock := clock w;
     outage := outage w; emitted := emitted w ++ [e] |}.

(** Computations that read and write the world and may raise. *)
Definition M (A : Type) : Type := World -> World * Result A.

Definition ret {A} (a : A) : M A := fun w => (w, Ok a).

Definition raise {A} (e : Exc) : M A := fun w => (w, Raise e).

Definition bind {A B} (c : M A) (k : A -> M B) : M B :=
  fun w =>
    match c w with
    | (w', Ok a) => k a w'
    | (w', Raise e) => (w', Raise e)
    end.

Definition lift {A} (r : Result A) : M A := fun w => (w, r).

(** [try: c / except Exception: h]. *)
Definition try_except {A} (c : M A) (h : Exc -> M A) : M A :=
  fun w =>
    match c w with
    | (w', Ok a) => (w', Ok a)
    | (w', Raise e) => h e w'
    end.

Notation "'let!' x ':=' c 'in' k" := (bind c (fun x => k))
  (at level 10, x pattern, c at level 100, k at level 200).

Definition utcnow : M Z := fun w => (w, Ok (clock w)).

(** One round trip to the database. *)
Definition store_call : M unit :=
  fun w =>
    match outage w with
    | None => (w, Ok tt)
    | Some (S n) => (set_outage (Some n) w, Ok tt)
    | Some O => (w, Raise StoreError)
    end.

(** ** Store operations used by the engine *)

(** [users_collection.find_one({'githubUsername': github_username})]. *)
Definition get_user_by_github_username (github_username : string) : M (option User) :=
  let! _ := store_call in
  fun w =>
    (w, Ok (List.find (fun u => bool_decide (githubUsername u = Some github_username))
                      (users w))).

(** [projects_collection.find({})], in the order of the store. *)
Definition find_projects : M (list Project) :=
  let! _ := store_call in
  fun w => (w, Ok (projects w)).

(** [projects_collection.find_one({'_id': project_id})]. *)
Definition find_project (project_id : IdVal) : M (option Project) :=
  let! _ := store_call in
  fun w =>
    (w, Ok (List.find (fun p => bool_decide (project_oid p = project_id)) (projects w))).

(** ** The assignment matcher *)

(** The test the loop body of [find_module_in_projects] makes on one module:
    [true] when the loop returns at this module. *)
Definition module_matches (module : ModuleDoc) (user_id : IdVal)
    (repo_name status_wanted : string) : bool :=
  if bool_decide (str_id (assignedToUserId module) = str_id (Some user_id))
     && bool_decide (status module = Some status_wanted)
  then
    let validation_rule := default ∅ (validationRule module) in
    if dict_truthy validation_rule && opt_str_truthy (validation_rule !! "githubRepo")
    then bool_decide (lower (default "" (validation_rule !! "githubRepo")) = lower repo_name)
    else true
  else false.

(** The inner loop over [enumerate(project['modules'])], from position [idx].
    A null element has no [get] method. *)
Fixpoint scan_modules (ms : list Slot) (idx : nat) (user_id : IdVal)
    (repo_name status_wanted : string) : Result (option nat) :=
  match ms with
  | [] => Ok None
  | None :: _ => Raise AttributeError
  | Some module :: rest =>
      if module_matches module user_id repo_name status_wanted
      then Ok (Some idx)
      else scan_modules rest (S idx) user_id repo_name status_wanted
  end.

(** The outer loop over the projects. *)
Fixpoint scan_projects (ps : list Project) (user_id : IdVal)
    (repo_name status_wanted : string) : Result (option (Project * nat)) :=
  match ps with
  | [] => Ok None
  | project :: rest =>
      match modules project with
      | MArray ms =>
          match scan_modules ms 0 user_id repo_name status_wanted with
          | Ok (Some idx) => Ok (Some (project, idx))
          | Ok None => scan_projects rest user_id repo_name status_wanted
          | Raise e => Raise e
          end
      | _ => scan_projects rest user_id repo_name status_wanted
      end
  end.

(** [(project, idx)] is [Some], [(None, None)] is [None]. *)
Definition find_module_in_projects (user_id : IdVal) (repo_name status_wanted : string)
    : M (option (Project * nat)) :=
  let! projects := find_projects in
  lift (scan_projects projects user_id repo_name status_wanted).

(** ** The store update *)

Definition empty_module : ModuleDoc :=
  {| module_oid := None; module_id := None; title := None; description := None;
     assignedToUserId := None; status := None; validationRule := None;
     dueDate := None; createdAt := None; completedAt := None |}.

(** The two fields written by the [$set] of [update_module_status]. *)
Definition set_status_fields (new_status : string) (now : Z) (m : ModuleDoc) : ModuleDoc :=
  {| module_oid := module_oid m; module_id := module_id m; title := title m;
     description := description m; assignedToUserId := assignedToUserId m;
     status := Some new_status; validationRule := validationRule m;
     dueDate := dueDate m; createdAt := createdAt m;
     completedAt := Some (DDate (bson_date now)) |}.

(** MongoDB's [$set] on the paths [modules.<idx>.status] and
    [modules.<idx>.completedAt]: an array is padded with nulls up to [idx],
    a null element cannot take a field (write error), and without an array
    the path is created as an embedded document. *)
Definition set_positional (idx : nat) (f : ModuleDoc -> ModuleDoc) (mf : ModulesField)
    : Result ModulesField :=
  match mf with
  | MAbsent => Ok (MDoc {[ idx := f empty_module ]})
  | MDoc d => Ok (MDoc (<[ idx := f (default empty_module (d !! idx)) ]> d))
  | MArray ms =>
      match ms !! idx with
      | Some (Some m) => Ok (MArray (<[ idx := Some (f m) ]> ms))
      | Some None => Raise StoreError
      | None => Ok (MArray (ms ++ replicate (idx - length ms) None ++ [Some (f empty_module)]))
      end
  end.

Definition set_modules (mf : ModulesField) (p : Project) : Project :=
  {| project_oid := project_oid p; project_name := project_name p;
     teamId := teamId p; modules := mf |}.

(** [update_one({'_id': project_id}, {'$set': ...})] on the collection: the
    first document with that id is rewritten; the count is [modified_count],
    which is 0 when the document is left as it was. *)
Fixpoint update_first (project_id : IdVal) (upd : ModulesField -> Result ModulesField)
    (ps : list Project) : Result (list Project * nat) :=
  match ps with
  | [] => Ok ([], 0)
  | p :: rest =>
      if bool_decide (project_oid p = project_id) then
        match upd (modules p) with
        | Ok mf => Ok (set_modules mf p :: rest,
                       if bool_decide (mf = modules p) then 0 else 1)
        | Raise e => Raise e
        end
      else
        match update_first project_id upd rest with
        | Ok (rest', n) => Ok (p :: rest', n)
        | Raise e => Raise e
        end
  end.

Definition update_one (project_id : IdVal) (upd : ModulesField -> Result ModulesField)
    : M nat :=
  let! _ := store_call in
  fun w =>
    match update_first project_id upd (projects w) with
    | Ok (ps, n) => (set_projects ps w, Ok n)
    | Raise e => (w, Raise e)
    end.

(** [updated_project['modules'][module_index]]. *)
Definition index_module (updated_project : option Project) (module_index : nat)
    : Result (option ModuleDoc) :=
  match updated_project with
  | None => Raise TypeError
  | Some p =>
      match modules p with
      | MAbsent => Raise KeyError
      | MDoc _ => Raise KeyError
      | MArray ms =>
          match ms !! module_index with
          | Some slot => Ok slot
          | None => Raise IndexError
          end
      end
  end.

Definition update_module_status (project_id : IdVal) (module_index : nat)
    (new_status : string) : M (option ModuleDoc) :=
  let! now := utcnow in
  let! modified_count :=
    update_one project_id (set_positional module_index (set_status_fields new_status now)) in
  if (0 <? modified_count)%nat then
    let! updated_project := find_project project_id in
    lift (index_module updated_project module_index)
  else ret None.

(** ** The delay estimator *)

(** [s.replace('Z', '+00:00')]. *)
Fixpoint replace_Z (s : string) : string :=
  match s with
  | EmptyString => EmptyString
  | String c rest =>
      if bool_decide (c = "Z"%char) then "+00:00" +:+ replace_Z rest
      else String c (replace_Z rest)
  end.

(** [x - d] where [x] is a stored date field and [d] a datetime: a string
    or a null cannot be subtracted from. *)
Definition field_sub (x : DateField) (d : datetime) : Result Z :=
  match x with
  | DDate t => dt_sub (naive t) d
  | DText _ | DNull => Raise TypeError
  end.

(** [completed - created] on two stored date fields. *)
Definition span (completed created : DateField) : Result Z :=
  match created with
  | DDate t => field_sub completed (naive t)
  | DText _ | DNull => Raise TypeError
  end.

(** [$unwind: '$modules'] on one project: one document per array element,
    none without the field, and a single one for a value that is not an
    array, which then carries no module field at all (like a null). *)
Definition unwind (p : Project) : list Slot :=
  match modules p with
  | MArray ms => ms
  | MAbsent => []
  | MDoc _ => [None]
  end.

(** The [$match] stage.  The comparison with [user_id] is typed: an id
    stored as text does not equal an ObjectId.  [$exists] asks for the key,
    whatever its value. *)
Definition history_match (user_id : IdVal) (s : Slot) : bool :=
  match s with
  | None => false
  | Some m =>
      bool_decide (assignedToUserId m = Some user_id)
      && bool_decide (status m = Some "completed")
      && bool_decide (is_Some (completedAt m))
      && bool_decide (is_Some (createdAt m))
  end.

(** The pipeline [unwind, match, limit 20] on the stored projects. *)
Definition history_pipeline (user_id : IdVal) (ps : list Project) : list Slot :=
  take 20 (List.filter (history_match user_id) (List.concat (List.map unwind ps))).

(** [projects_collection.aggregate(pipeline)]. *)
Definition aggregate_history (user_id : IdVal) : M (list Slot) :=
  let! _ := store_call in
  fun w => (w, Ok (history_pipeline user_id (projects w))).

(** The loop that fills [completion_times]. *)
Fixpoint completion_times (user_modules : list Slot) : Result (list Z) :=
  match user_modules with
  | [] => Ok []
  | slot :: rest =>
      let mod_doc := default empty_module slot in
      let created := createdAt mod_doc in
      let completed := completedAt mod_doc in
      if date_truthy created && date_truthy completed then
        match span (default (DText "") completed) (default (DText "") created) with
        | Ok delta =>
            match completion_times rest with
            | Ok times => Ok (days delta :: times)
            | Raise e => Raise e
            end
        | Raise e => Raise e
        end
      else completion_times rest
  end.

Definition sum_Z (l : list Z) : Z := fold_right Z.add 0%Z l.

(** A Python number: an int, or a float [m * 2^e]. *)
Inductive Number :=
| Int (n : Z)
| Float (m e : Z).

(** The integer nearest to [a / b], the even one on a tie ([0 ≤ a], [0 < b]). *)
Definition nearest_even (a b : Z) : Z :=
  let q := (a / b)%Z in
  let r := (a mod b)%Z in
  if (2 * r <? b)%Z then q
  else if (b <? 2 * r)%Z then (q + 1)%Z
  else if Z.even q then q else (q + 1)%Z.

(** The integer nearest to [a * 2^k / b], for [k] of either sign. *)
Definition nearest_scaled (a b k : Z) : Z :=
  if (0 <=? k)%Z then nearest_even (a * 2 ^ k) b
  else nearest_even a (b * 2 ^ (- k)).

(** [a / b] on two ints ([0 < b]): the double nearest to the quotient, with
    53 significant bits.  With [l] the difference of the bit lengths the
    quotient lies between [2^(l-1)] and [2^(l+1)].  The exponent range of a
    double is not modelled: averages of day counts are far inside it. *)
Definition true_div (a b : Z) : Number :=
  if (a =? 0)%Z then Float 0 0
  else
    let l := (Z.log2 (Z.abs a) - Z.log2 b)%Z in
    let below :=
      if (0 <=? l)%Z then (Z.abs a <? b * 2 ^ l)%Z
      else (Z.abs a * 2 ^ (- l) <? b)%Z in
    let e := if below then (l - 53)%Z else (l - 52)%Z in
    Float (Z.sgn a * nearest_scaled (Z.abs a) b (- e)) e.

(** [sum(times) / len(times) if times else 7]. *)
Definition average (times : list Z) : Number :=
  match times with
  | [] => Int 7
  | _ :: _ => true_div (sum_Z times) (Z.of_nat (length times))
  end.

(** [round(x, 1)]: an int is returned as it is; a float goes to the multiple
    of 1/10 nearest to its exact value, the even one on a tie, which is the
    decimal the JSON answer shows. *)
Definition round_1 (x : Number) : QArith_base.Q :=
  match x with
  | Int n => QArith_base.Qmake n 1
  | Float m e =>
      QArith_base.Qmake (Z.sgn m * nearest_scaled (10 * Z.abs m) 1 e) 10
  end.

Definition confidence_of (n : nat) : string :=
  if (5 <=? n)%nat then "high" else if (2 <=? n)%nat then "medium" else "low".

Definition reason_of (delay_days : Z) : string :=
  if (0 <? delay_days)%Z then "Completed " +:+ str_int delay_days +:+ " days late"
  else if (delay_days =? 0)%Z then "Completed on time"
  else "Completed " +:+ str_int (Z.abs delay_days) +:+ " days early".

Definition no_due_date_estimate : DelayEstimate :=
  {| predictedDelay := 0; delayReason := "No due date set"; confidence := "n/a";
     avgCompletionTime := None; historicalDataPoints := 0 |}.

Definition calculation_error_estimate : DelayEstimate :=
  {| predictedDelay := 0; delayReason := "Calculation error"; confidence := "low";
     avgCompletionTime := None; historicalDataPoints := 0 |}.

Section Engine.

(** Python's [datetime.fromisoformat], which raises [ValueError] on text it
    does not accept. *)
Variable fromisoformat : string -> Result datetime.

(** [due_date if isinstance(due_date, datetime) else
     datetime.fromisoformat(str(due_date).replace('Z', '+00:00'))]. *)
Definition due_date_obj_of (due_date : DateField) : Result datetime :=
  match due_date with
  | DDate t => Ok (naive t)
  | DText s => fromisoformat (replace_Z s)
  | DNull => fromisoformat (replace_Z "None")
  end.

(** The body of the [try] block of [calculate_predictive_delay]. *)
Definition calculate_predictive_delay_body (module : ModuleDoc) (user_id : IdVal)
    : M DelayEstimate :=
  let due_date := dueDate module in
  if negb (date_truthy due_date) then ret no_due_date_estimate
  else
    let! now := utcnow in
    let completed_at := default (DDate now) (completedAt module) in
    let! due_date_obj := lift (due_date_obj_of (default (DText "") due_date)) in
    let! delta := lift (field_sub completed_at due_date_obj) in
    let delay_days := days delta in
    let! user_modules := aggregate_history user_id in
    let! times := lift (completion_times user_modules) in
    let avg_completion_time := average times in
    ret {| predictedDelay := delay_days;
           delayReason := reason_of delay_days;
           confidence := confidence_of (length times);
           avgCompletionTime := Some (round_1 avg_completion_time);
           historicalDataPoints := length times |}.

Definition calculate_predictive_delay (module : ModuleDoc) (user_id : IdVal)
    : M DelayEstimate :=
  try_except (calculate_predictive_delay_body module user_id)
             (fun _ => ret calculation_error_estimate).

(** ** The orchestrator *)

(** [ref.split('/')[-1]]: what follows the last slash; [cur] is the segment
    read so far. *)
Fixpoint after_last_slash (s cur : string) : string :=
  match s with
  | EmptyString => cur
  | String c rest =>
      if bool_decide (c = "/"%char) then after_last_slash rest ""
      else after_last_slash rest (cur +:+ String c "")
  end.

Definition branch_of (ref : option string) : option string :=
  let ref := default "" ref in
  if str_truthy ref then Some (after_last_slash ref "") else None.

(** Truthiness of a module dict: it has at least one key. *)
Definition module_truthy (m : ModuleDoc) : bool :=
  bool_decide (m ≠ empty_module).

Definition id_truthy (v : option IdVal) : bool :=
  match v with
  | None => false
  | Some (ObjectId _) => true
  | Some (IdText s) => str_truthy s
  end.

(** The body of the [try] block of [validate_github_push]. *)
Definition validate_github_push_body (payload : Payload) : M (option CompletionResult) :=
  let pusher_username := pusher_name payload in
  if negb (opt_str_truthy pusher_username) then ret None
  else
    let pusher_username := default "" pusher_username in
    let repo_name := repository_name payload in
    if negb (opt_str_truthy repo_name) then ret None
    else
      let repo_name := default "" repo_name in
      let branch := branch_of (ref payload) in
      let! user := get_user_by_github_username pusher_username in
      match user with
      | None => ret None
      | Some user =>
          let user_id := user_oid user in
          let user_name := default (default "Unknown" (username user)) (name user) in
          let user_role := default "user" (role user) in
          let! found := find_module_in_projects user_id repo_name "in-progress" in
          match found with
          | None => ret None
          | Some (project, module_index) =>
              let! slot := lift (index_module (Some project) module_index) in
              match slot with
              | None => raise AttributeError
              | Some module =>
                  let! updated_module :=
                    update_module_status (project_oid project) module_index "completed" in
                  match updated_module with
                  | None => ret None
                  | Some updated_module =>
                      if module_truthy updated_module then
                        let! fresh_project := find_project (project_oid project) in
                        let! delay_info := calculate_predictive_delay updated_module user_id in
                        match fresh_project with
                        | None => raise AttributeError
                        | Some fresh_project =>
                            let! now := utcnow in
                            ret (Some
                              {| result_oid :=
                                   match module_oid module with
                                   | None => ""
                                   | Some i => str_id (Some i)
                                   end;
                                 result_id := module_id module;
                                 result_title := title module;
                                 result_description := description module;
                                 result_status := "completed";
                                 result_assignedToUserId := str_id (assignedToUserId module);
                                 assignedToName := user_name;
                                 userRole := user_role;
                                 projectId := str_id (Some (project_oid project));
                                 projectName := project_name project;
                                 result_teamId :=
                                   if id_truthy (teamId fresh_project)
                                   then Some (str_id (teamId fresh_project)) else None;
                                 result_completedAt := now;
                                 completedBy := str_id (Some user_id);
                                 completedByUsername := pusher_username;
                                 repository := repo_name;
                                 branch := branch;
                                 result_commits := commits payload;
                                 result_validationRule := validationRule module;
                                 delay := delay_info |})
                        end
                      else ret None
                  end
              end
          end
      end.

(** [validate_github_push]: any exception is printed and turned into [None]. *)
Definition validate_github_push (payload : Payload) : M (option CompletionResult) :=
  try_except (validate_github_push_body payload) (fun _ => ret None).

(** ** The ingestion endpoint *)

(** The value under [pusher] or [repository] in a JSON body: the key is
    absent, or the value is an object (with its [name], if it has one), or
    it is a value without a [get] method (null, a string, a number, a
    list). *)
Inductive ObjectField :=
| KeyAbsent
| NotAnObject
| AnObject (name : option string).

(** The value under [commits]: a value with a length (a list; 0 stands for
    an absent key too), or one without (null, a number, a boolean). *)
Inductive CommitsField :=
| Sized (n : nat)
| Unsized.

(** A JSON object received as event body. *)
Record EventBody := {
  body_pusher : ObjectField;
  body_repository : ObjectField;
  body_ref : option string;
  body_commits : CommitsField
}.

(** A JSON value received as body: a falsy one (an empty object or list,
    null, 0, an empty string, false), a truthy one that is not an object, or
    a non-empty object. *)
Inductive JsonValue :=
| FalsyJson
| NonObjectJson
| ObjectJson (b : EventBody).

(** What [request.json] does: it fails with the framework's 415 when the
    request has no JSON (no body, or a body not declared as JSON), with the
    framework's 400 when the JSON does not parse, and gives the value
    otherwise. *)
Inductive RequestJson :=
| NotJson
| BadJson
| Json (payload : JsonValue).

(** [payload.get(key, {}).get('name')]. *)
Definition name_of (f : ObjectField) : Result (option string) :=
  match f with
  | KeyAbsent => Ok None
  | NotAnObject => Raise AttributeError
  | AnObject n => Ok n
  end.

(** [len(payload.get('commits', []))]. *)
Definition len_of (c : CommitsField) : Result nat :=
  match c with
  | Sized n => Ok n
  | Unsized => Raise TypeError
  end.

Definition field_name (f : ObjectField) : option string :=
  match f with
  | AnObject n => n
  | _ => None
  end.

Definition commits_count (c : CommitsField) : nat :=
  match c with
  | Sized n => n
  | Unsized => 0
  end.

(** The fields [validate_github_push] works with, once read from the body. *)
Definition event_payload (b : EventBody) : Payload :=
  {| pusher_name := field_name (body_pusher b);
     repository_name := field_name (body_repository b);
     ref := body_ref b; commits := commits_count (body_commits b) |}.

(** The body of the [try] block of [validate_github_push] on a JSON object:
    the reads of [pusher.name] and [repository.name], which raise on a value
    that is not an object, then the processing of the fields read, and the
    length of [commits], which is taken when the result is built, after the
    last store operation, and raises on a value without a length. *)
Definition validate_github_push_object (b : EventBody) : M (option CompletionResult) :=
  let! pusher_username := lift (name_of (body_pusher b)) in
  if negb (opt_str_truthy pusher_username) then ret None
  else
    let! repo_name := lift (name_of (body_repository b)) in
    let! result := validate_github_push_body (event_payload b) in
    match result with
    | Some result =>
        let! _ := lift (len_of (body_commits b)) in
        ret (Some result)
    | None => ret None
    end.

(** [validate_github_push] as the endpoints call it, on the JSON value
    received.  A value that is not an object has no [get] method; an empty
    object, the one falsy value that has it, names no pusher: every falsy
    value ends in [None]. *)
Definition validate_github_push_json (payload : JsonValue) : M (option CompletionResult) :=
  try_except
    (match payload with
     | ObjectJson b => validate_github_push_object b
     | _ => raise AttributeError
     end)
    (fun _ => ret None).

Definition emit (event_name : string) (test : bool) (r : CompletionResult) : M unit :=
  fun w =>
    (add_emission {| event := event_name; about := r; timestamp := clock w;
                     for_test := test |} w, Ok tt).

Definition bad_request : Response :=
  {| http_status := 400; body_status := "error"; message := "No payload";
     body_module := None; events_emitted := []; payload_summary := None |}.

Definition completed_response (r : CompletionResult) : Response :=
  {| http_status := 200; body_status := "success";
     message := "Task validated and completed";
     body_module := Some r; events_emitted := ["task_updated"; "module_updated"];
     payload_summary := None |}.

Definition no_match_response (summary : option string * option string * nat) : Response :=
  {| http_status := 200; body_status := "success";
     message := "Webhook received but no task matched validation criteria";
     body_module := None; events_emitted := [];
     payload_summary := Some summary |}.

(** The [payload_summary] of the no-match answer: the body is read again,
    outside any [try]. *)
Definition summary_of (payload : JsonValue)
    : Result (option string * option string * nat) :=
  match payload with
  | ObjectJson b =>
      match name_of (body_pusher b) with
      | Ok p =>
          match name_of (body_repository b) with
          | Ok r =>
              match len_of (body_commits b) with
              | Ok n => Ok (p, r, n)
              | Raise e => Raise e
              end
          | Raise e => Raise e
          end
      | Raise e => Raise e
      end
  | _ => Raise AttributeError
  end.

(** The code of [github_webhook] once [request.json] has given [payload];
    an exception it raises escapes the function.  The logging of the
    webhook details sits in a [try] of its own and changes nothing, and the
    print of the completion reads a pusher name that the validation has
    already read. *)
Definition github_webhook_body (payload : JsonValue) : M Response :=
  match payload with
  | FalsyJson => ret bad_request
  | _ =>
      let! updated_module := validate_github_push_json payload in
      match updated_module with
      | Some updated_module =>
          let! _ := emit "task_updated" false updated_module in
          let! _ := emit "module_updated" false updated_module in
          ret (completed_response updated_module)
      | None =>
          let! summary := lift (summary_of payload) in
          ret (no_match_response summary)
      end
  end.

(** What the caller of an endpoint receives: the JSON answer of the view
    function, or an error page of the framework with its status. *)
Inductive HttpReply (A : Type) :=
| JsonReply (r : A)
| ErrorReply (status : nat).

Arguments JsonReply {A} r.
Arguments ErrorReply {A} status.

(** A view function as served: [request.json] fails with the framework's
    415 or 400 before the function's own code runs, and an exception that
    escapes the function is answered with 500. *)
Definition served {A} (view : JsonValue -> M A) (j : RequestJson) : M (HttpReply A) :=
  match j with
  | NotJson => ret (ErrorReply 415)
  | BadJson => ret (ErrorReply 400)
  | Json payload =>
      try_except (let! r := view payload in ret (JsonReply r))
                 (fun _ => ret (ErrorReply 500))
  end.

(** [POST /webhook/github]. *)
Definition github_webhook (j : RequestJson) : M (HttpReply Response) :=
  served github_webhook_body j.

End Engine.

Arguments JsonReply {A} r.
Arguments ErrorReply {A} status.

(** ** Predicates used by the statements *)

(** [m] is assigned to [user_id] (as the matcher compares ids) and has the
    wanted status. *)
Definition assigned_with_status (m : ModuleDoc) (user_id : IdVal) (st : string) : Prop :=
  str_id (assignedToUserId m) = str_id (Some user_id) ∧ status m = Some st.

(** [m] carries a rule whose repository name is [g], a non-empty string. *)
Definition rule_repo (m : ModuleDoc) (g : string) : Prop :=
  ∃ rule, validationRule m = Some rule ∧ rule !! "githubRepo" = Some g ∧ g ≠ "".

(** [m] carries no rule, or a rule without a non-empty repository name. *)
Definition no_rule_repo (m : ModuleDoc) : Prop :=
  ∀ rule, validationRule m = Some rule → opt_str_truthy (rule !! "githubRepo") = false.

(** A slot the scan passes over: a module at which the loop does not return. *)
Definition passed_over (user_id : IdVal) (repo_name st : string) (s : Slot) : Prop :=
  ∃ m, s = Some m ∧ module_matches m user_id repo_name st = false.

(** A project the scan passes over entirely. *)
Definition project_passed_over (user_id : IdVal) (repo_name st : string) (p : Project)
    : Prop :=
  ∀ ms, modules p = MArray ms → Forall (passed_over user_id repo_name st) ms.

(** The store can serve [n] more operations. *)
Definition serves (n : nat) (w : World) : Prop :=
  match outage w with
  | None => True
  | Some k => (n ≤ k)%nat
  end.

(** The world after one successful round trip to the database. *)
Definition tick (w : World) : World :=
  match outage w with
  | Some (S n) => set_outage (Some n) w
  | _ => w
  end.

(** Computations that leave the stored data and the clock as they are. *)
Definition preserves {A} (c : M A) : Prop :=
  ∀ w w' r, c w = (w', r) →
    projects w' = projects w ∧ users w' = users w ∧ clock w' = clock w.

(** The event [payload] resolves, in the world [w], to [user] and to the
    assignment at position [j] of project [q]. *)
Definition resolves (payload : Payload) (w : World) (user : User) (q : Project) (j : nat)
    : Prop :=
  opt_str_truthy (pusher_name payload) = true
  ∧ opt_str_truthy (repository_name payload) = true
  ∧ List.find (λ x, bool_decide (githubUsername x = Some (default "" (pusher_name payload))))
              (users w) = Some user
  ∧ scan_projects (projects w) (user_oid user) (default "" (repository_name payload))
                  "in-progress" = Ok (Some (q, j)).

(** The stored projects after the completion of position [j] of [q]. *)
Definition completion_write (w : World) (q : Project) (j : nat)
    : Result (list Project * nat) :=
  update_first (project_oid q)
               (set_positional j (set_status_fields "completed" (clock w)))
               (projects w).

(** [m] without its [validationRule] key. *)
Definition without_validationRule (m : ModuleDoc) : ModuleDoc :=
  {| module_oid := module_oid m; module_id := module_id m; title := title m;
     description := description m; assignedToUserId := assignedToUserId m;
     status := status m; validationRule := None;
     dueDate := dueDate m; createdAt := createdAt m; completedAt := completedAt m |}.

(** The element at position [j] of a [modules] field, if it is an array. *)
Definition slot_in (mf : ModulesField) (j : nat) : option Slot :=
  match mf with
  | MArray ms => ms !! j
  | _ => None
  end.

(** The assignment addressed by (project id, position) in the store. *)
Definition slot_at (pid : IdVal) (j : nat) (ps : list Project) : option Slot :=
  match List.find (λ p, bool_decide (project_oid p = pid)) ps with
  | Some p => slot_in (modules p) j
  | None => None
  end.

(** The status of the assignment addressed by (project id, position). *)
Definition status_at (pid : IdVal) (j : nat) (ps : list Project) : option string :=
  match slot_at pid j ps with
  | Some (Some m) => status m
  | _ => None
  end.

(** The [_id] field of the result of [validate_github_push], if any. *)
Definition completed_oid (r : Result (option CompletionResult)) : option string :=
  match r with
  | Ok (Some res) => Some (result_oid res)
  | _ => None
  end.

(** ** The listing endpoints, the health check and the test endpoint *)

(** One entry of the module listings.  [summary_createdAt] is [None] when
    the entry has no [createdAt] key (the Socket.IO snapshot), [Some None]
    for a null, and [Some (Some t)] for the datetime whose ISO text is
    returned. *)
Record ModuleSummary := {
  summary_id : option string;                     (* id *)
  summary_oid : string;                           (* _id *)
  summary_title : option string;
  summary_description : option string;
  summary_status : option string;
  summary_assignedToUserId : option string;
  summary_projectId : string;
  summary_projectName : option string;
  summary_createdAt : option (option Z)
}.

(** [module.get('createdAt').isoformat() if module.get('createdAt') else None]:
    a text has no [isoformat] method. *)
Definition createdAt_iso (module : ModuleDoc) : Result (option Z) :=
  match createdAt module with
  | Some (DDate t) => Ok (Some t)
  | Some (DText s) => if str_truthy s then Raise AttributeError else Ok None
  | Some DNull => Ok None
  | None => Ok None
  end.

(** The [module_data] dict built for one module; [with_createdAt] tells the
    REST listing from the Socket.IO snapshot. *)
Definition module_data (with_createdAt : bool) (project : Project) (module : ModuleDoc)
    : Result ModuleSummary :=
  match (if with_createdAt
         then match createdAt_iso module with
              | Ok c => Ok (Some c)
              | Raise e => Raise e
              end
         else Ok None) with
  | Ok created =>
      Ok {| summary_id := module_id module;
            summary_oid :=
              match module_oid module with
              | None => ""
              | Some i => str_id (Some i)
              end;
            summary_title := title module;
            summary_description := description module;
            summary_status := status module;
            summary_assignedToUserId :=
              if id_truthy (assignedToUserId module)
              then Some (str_id (assignedToUserId module)) else None;
            summary_projectId := str_id (Some (project_oid project));
            summary_projectName := project_name project;
            summary_createdAt := created |}
  | Raise e => Raise e
  end.

(** The inner loop [for module in project['modules']]. *)
Fixpoint list_modules (with_createdAt : bool) (project : Project) (ms : list Slot)
    : Result (list ModuleSummary) :=
  match ms with
  | [] => Ok []
  | None :: _ => Raise AttributeError
  | Some module :: rest =>
      match module_data with_createdAt project module with
      | Ok d =>
          match list_modules with_createdAt project rest with
          | Ok ds => Ok (d :: ds)
          | Raise e => Raise e
          end
      | Raise e => Raise e
      end
  end.

(** The outer loop over the projects, filling [all_modules]. *)
Fixpoint list_all_modules (with_createdAt : bool) (ps : list Project)
    : Result (list ModuleSummary) :=
  match ps with
  | [] => Ok []
  | project :: rest =>
      match modules project with
      | MArray ms =>
          match list_modules with_createdAt project ms with
          | Ok ds =>
              match list_all_modules with_createdAt rest with
              | Ok ds' => Ok (ds ++ ds')
              | Raise e => Raise e
              end
          | Raise e => Raise e
          end
      | _ => list_all_modules with_createdAt rest
      end
  end.

(** The JSON answer of [GET /api/modules] with its HTTP status. *)
Record ModulesResponse := {
  modules_http_status : nat;
  listed_modules : option (list ModuleSummary);
  listed_count : option nat;
  listing_error : option Exc
}.

(** [GET /api/modules]. *)
Definition get_modules : M ModulesResponse :=
  try_except
    (let! projects := find_projects in
     let! all_modules := lift (list_all_modules true projects) in
     ret {| modules_http_status := 200; listed_modules := Some all_modules;
            listed_count := Some (length all_modules); listing_error := None |})
    (fun e => ret {| modules_http_status := 500; listed_modules := None;
                     listed_count := None; listing_error := Some e |}).

(** What the [request_modules] handler emits: the snapshot with its
    timestamp, or the error event. *)
Inductive SocketReply :=
| ModulesSnapshot (all_modules : list ModuleSummary) (timestamp : Z)
| ErrorEvent (message : string).

(** The Socket.IO handler of [request_modules]; the event it emits is its
    result. *)
Definition handle_request_modules : M SocketReply :=
  try_except
    (let! projects := find_projects in
     let! all_modules := lift (list_all_modules false projects) in
     let! now := utcnow in
     ret (ModulesSnapshot all_modules now))
    (fun _ => ret (ErrorEvent "Failed to fetch modules")).

(** The JSON answer of [GET /api/health]. *)
Record HealthResponse := {
  health_http_status : nat;
  health_status : string;
  health_service : string;
  health_version : string;
  health_database : string;
  health_timestamp : Z
}.

(** [GET /api/health]: the ping is one round trip to the database. *)
Definition health_check : M HealthResponse :=
  let! db_status :=
    try_except (let! _ := store_call in ret "connected")
               (fun _ => ret "disconnected") in
  let! now := utcnow in
  ret {| health_http_status := 200; health_status := "healthy";
         health_service := "Validation Engine"; health_version := "2.0.0";
         health_database := db_status; health_timestamp := now |}.

(** The JSON answer of [POST /webhook/test]; [test_flag] is the [test] key,
    [test_payload_echo] the [test_payload] key. *)
Record TestResponse := {
  test_http_status : nat;
  test_body_status : string;
  test_message : string;
  test_module : option CompletionResult;
  test_events_emitted : list string;
  test_flag : option bool;
  test_payload_echo : option JsonValue
}.

(** The payload [/webhook/test] uses when the JSON of the request is falsy. *)
Definition default_test_payload : EventBody :=
  {| body_pusher := AnObject (Some "Fresh-MC");
     body_repository := AnObject (Some "Tracker");
     body_ref := Some "refs/heads/main"; body_commits := Sized 1 |}.

(** The names [test_webhook] prints before it validates, outside any
    [try]. *)
Definition printed_names (payload : JsonValue) : Result (option string * option string) :=
  match payload with
  | ObjectJson b =>
      match name_of (body_pusher b) with
      | Ok p =>
          match name_of (body_repository b) with
          | Ok r => Ok (p, r)
          | Raise e => Raise e
          end
      | Raise e => Raise e
      end
  | _ => Raise AttributeError
  end.

Section TestEndpoint.

Variable fromisoformat : string -> Result datetime.

(** [request.json or {...}]. *)
Definition test_payload_of (payload : JsonValue) : JsonValue :=
  match payload with
  | FalsyJson => ObjectJson default_test_payload
  | _ => payload
  end.

(** The code of [test_webhook] once [request.json] has given [payload].
    The two broadcasts carry a [test] marker next to the result they are
    built from. *)
Definition test_webhook_body (payload : JsonValue) : M TestResponse :=
  let test_payload := test_payload_of payload in
  let! _ := lift (printed_names test_payload) in
  let! updated_module := validate_github_push_json fromisoformat test_payload in
  match updated_module with
  | Some updated_module =>
      let! _ := emit "task_updated" true updated_module in
      let! _ := emit "module_updated" true updated_module in
      ret {| test_http_status := 200; test_body_status := "success";
             test_message := "Test completed successfully";
             test_module := Some updated_module;
             test_events_emitted := ["task_updated"; "module_updated"];
             test_flag := Some true; test_payload_echo := None |}
  | None =>
      ret {| test_http_status := 200; test_body_status := "no_match";
             test_message := "No matching module found";
             test_module := None; test_events_emitted := [];
             test_flag := None; test_payload_echo := Some test_payload |}
  end.

(** [POST /webhook/test]. *)
Definition test_webhook (j : RequestJson) : M (HttpReply TestResponse) :=
  served test_webhook_body j.

End TestEndpoint.

(** ** More predicates used by the statements *)

(** The two broadcasts about a completed module, in the order they are
    sent. *)
Definition broadcasts (test : bool) (res : CompletionResult) (now : Z) : list Emission :=
  [ {| event := "task_updated"; about := res; timestamp := now; for_test := test |};
    {| event := "module_updated"; about := res; timestamp := now; for_test := test |} ].

(** The world after the given broadcasts. *)
Definition broadcast_all (es : list Emission) (w : World) : World :=
  fold_left (λ w e, add_emission e w) es w.

Definition is_object_or_absent (f : ObjectField) : bool :=
  match f with
  | NotAnObject => false
  | _ => true
  end.

Definition has_length (c : CommitsField) : bool :=
  match c with
  | Sized _ => true
  | Unsized => false
  end.

(** A body of the shape the engine reads without an exception: [pusher] and
    [repository] are objects or absent, and [commits] has a length. *)
Definition well_shaped (b : EventBody) : bool :=
  is_object_or_absent (body_pusher b) && is_object_or_absent (body_repository b)
  && has_length (body_commits b).

(** What the no-match answer reports of a well-shaped body. *)
Definition event_summary (b : EventBody) : option string * option string * nat :=
  (field_name (body_pusher b), field_name (body_repository b),
   commits_count (body_commits b)).

(** Computations that emit nothing. *)
Definition silent {A} (c : M A) : Prop :=
  ∀ w w' r, c w = (w', r) → emitted w' = emitted w.

(** The elements of all the stored [modules] arrays with their projects, in
    listing order. *)
Definition array_elements (ps : list Project) : list (Project * Slot) :=
  List.concat
    (List.map (λ p, match modules p with
                    | MArray ms => List.map (pair p) ms
                    | _ => []
                    end) ps).

(** An element the listings can render: a document and, for the REST
    listing ([with_createdAt]), one whose [createdAt] is absent, a null, a
    date, or an empty text. *)
Definition renders (with_createdAt : bool) (s : Slot) : Prop :=
  ∃ m, s = Some m
       ∧ (with_createdAt = true → ∀ t, createdAt m = Some (DText t) → t = "").

(** What a listing entry shows of the module it is built from. *)
Definition entry_of (x : Project * Slot) (d : ModuleSummary) : Prop :=
  ∃ m, x.2 = Some m
       ∧ summary_id d = module_id m ∧ summary_title d = title m
       ∧ summary_description d = description m ∧ summary_status d = status m
       ∧ summary_projectId d = str_id (Some (project_oid x.1))
       ∧ summary_projectName d = project_name x.1.

(** A listing entry without its [createdAt] key. *)
Definition drop_createdAt (d : ModuleSummary) : ModuleSummary :=
  {| summary_id := summary_id d; summary_oid := summary_oid d;
     summary_title := summary_title d; summary_description := summary_description d;
     summary_status := summary_status d;
     summary_assignedToUserId := summary_assignedToUserId d;
     summary_projectId := summary_projectId d;
     summary_projectName := summary_projectName d; summary_createdAt := None |}.

(** [m] with another value under [assignedToUserId]. *)
Definition with_assignee (a : option IdVal) (m : ModuleDoc) : ModuleDoc :=
  {| module_oid := module_oid m; module_id := module_id m; title := title m;
     description := description m; assignedToUserId := a;
     status := status m; validationRule := validationRule m;
     dueDate := dueDate m; createdAt := createdAt m; completedAt := completedAt m |}.

(** [c] occurs in [s]. *)
Fixpoint occurs (c : ascii) (s : string) : bool :=
  match s with
  | EmptyString => false
  | String c' rest => bool_decide (c' = c) || occurs c rest
  end.

(** ** The history of a user, as the statements count it *)

(** The modules stored in the [modules] arrays, in store order. *)
Definition stored_modules (ps : list Project) : list ModuleDoc :=
  omap snd (array_elements ps).

(** A completed assignment of [user_id] that carries both timestamp keys. *)
Definition completed_by (user_id : IdVal) (m : ModuleDoc) : bool :=
  bool_decide (assignedToUserId m = Some user_id
               ∧ status m = Some "completed"
               ∧ is_Some (createdAt m) ∧ is_Some (completedAt m)).

(** The assignments the estimator considers: the first 20 of them. *)
Definition considered (user_id : IdVal) (ps : list Project) : list ModuleDoc :=
  take 20 (List.filter (completed_by user_id) (stored_modules ps)).

(** A usable data point: both timestamps hold a value that counts (not a
    null, not an empty text). *)
Definition usable (m : ModuleDoc) : bool :=
  date_truthy (createdAt m) && date_truthy (completedAt m).

(** The number of usable historical data points of [user_id]. *)
Definition usable_points (user_id : IdVal) (ps : list Project) : nat :=
  length (List.filter usable (considered user_id ps)).

(** The whole days from the creation to the completion of a data point whose
    timestamps are dates. *)
Definition span_days (m : ModuleDoc) : Z :=
  match createdAt m, completedAt m with
  | Some (DDate created), Some (DDate completed) => days (completed - created)
  | _, _ => 0%Z
  end.

(** The completion spans of the usable data points of [user_id]. *)
Definition completion_spans (user_id : IdVal) (ps : list Project) : list Z :=
  span_days <$> List.filter usable (considered user_id ps).

(** Both timestamps are dates, so that one can be subtracted from the
    other. *)
Definition timestamps_are_dates (m : ModuleDoc) : bool :=
  match createdAt m, completedAt m with
  | Some (DDate _), Some (DDate _) => true
  | _, _ => false
  end.

(** The history is well-formed: every usable data point has dates for
    timestamps. *)
Definition history_well_formed (user_id : IdVal) (ps : list Project) : bool :=
  forallb (λ m, implb (usable m) (timestamps_are_dates m)) (considered user_id ps).

Section EstimatorConditions.

Variable fromisoformat : string -> Result datetime.

(** The computation of the estimate meets no internal failure: the due date
    is a date or a text that parses, the completion date (the current time
    without one) is a date from which it can be subtracted, the store
    answers the history read, and the history is well-formed. *)
Definition estimator_computes (module : ModuleDoc) (user_id : IdVal) (w : World) : Prop :=
  (∃ dd delta,
     due_date_obj_of fromisoformat (default (DText "") (dueDate module)) = Ok dd
     ∧ field_sub (default (DDate (clock w)) (completedAt module)) dd = Ok delta)
  ∧ outage w ≠ Some 0
  ∧ history_well_formed user_id (projects w) = true.

End EstimatorConditions.

(** ** Sample data *)

(** A parser that accepts no text, for examples whose dates are BSON dates. *)
Definition no_iso (s : string) : Result datetime := Raise ValueError.

Definition alice_id : IdVal := ObjectId "64b000000000000000000001".

Definition alice : User :=
  {| user_oid := alice_id; githubUsername := Some "alice"; name := Some "Alice";
     username := None; role := Some "user" |}.

(** 2025-10-20T00:00:00 and 2025-10-22T00:00:00, in microseconds. *)
Definition oct20 : Z := 1760918400000000.
Definition oct22 : Z := 1761091200000000.

Definition tracker_rule : gmap string string := {[ "githubRepo" := "Tracker" ]}.

(** An in-progress assignment of alice with the given rule. *)
Definition in_progress (t : string) (rule : option (gmap string string)) : ModuleDoc :=
  {| module_oid := Some (ObjectId t); module_id := None; title := Some t;
     description := None; assignedToUserId := Some alice_id;
     status := Some "in-progress"; validationRule := rule;
     dueDate := Some (DDate oct20); createdAt := Some (DDate (oct20 - 5 * day_us));
     completedAt := None |}.

Definition with_rule : ModuleDoc := in_progress "a1" (Some tracker_rule).
Definition without_rule : ModuleDoc := in_progress "a2" None.
Definition other_rule : ModuleDoc := in_progress "a3" (Some {[ "githubRepo" := "Website" ]}).

Definition project_of (ms : list Slot) : Project :=
  {| project_oid := ObjectId "64b0000000000000000000p1"; project_name := Some "Demo";
     teamId := Some (ObjectId "64b0000000000000000000t1"); modules := MArray ms |}.

Definition world_of (ms : list Slot) (now : Z) (o : option nat) : World :=
  {| users := [alice]; projects := [project_of ms]; clock := now; outage := o;
     emitted := [] |}.

Definition push_tracker : Payload :=
  {| pusher_name := Some "alice"; repository_name := Some "Tracker";
     ref := Some "refs/heads/main"; commits := 1 |}.

(** An assignment of alice completed on 20 October. *)
Definition done_on_oct20 : ModuleDoc :=
  {| module_oid := Some (ObjectId "a6"); module_id := None; title := Some "a6";
     description := None; assignedToUserId := Some alice_id;
     status := Some "completed"; validationRule := Some tracker_rule;
     dueDate := Some (DDate oct20); createdAt := Some (DDate (oct20 - 5 * day_us));
     completedAt := Some (DDate oct20) |}.

Definition demo_id : IdVal := ObjectId "64b0000000000000000000p1".

(** A second assignment of alice with the same rule as [with_rule]. *)
Definition with_rule_too : ModuleDoc := in_progress "a7" (Some tracker_rule).

(** An assignment of alice due on 20 October and completed on the 22nd. *)
Definition done_on_oct22 : ModuleDoc :=
  {| module_oid := Some (ObjectId "a8"); module_id := None; title := Some "a8";
     description := None; assignedToUserId := Some alice_id;
     status := Some "completed"; validationRule := Some tracker_rule;
     dueDate := Some (DDate oct20); createdAt := Some (DDate (oct20 - 5 * day_us));
     completedAt := Some (DDate oct22) |}.


Definition done_with_text_due : ModuleDoc :=
  {| module_oid := Some (ObjectId "a10"); module_id := None; title := Some "a10";
     description := None; assignedToUserId := Some alice_id;
     status := Some "completed"; validationRule := None;
     dueDate := Some (DText "next week"); createdAt := Some (DDate (oct20 - 5 * day_us));
     completedAt := Some (DDate oct22) |}.

(** A store that is up but knows no user. *)
Definition world_without_users : World :=
  {| users := []; projects := [project_of [Some with_rule]]; clock := oct22;
     outage := None; emitted := [] |}.

(** Events without a pusher, and from a pusher that is no stored user. *)
Definition push_without_pusher : Payload :=
  {| pusher_name := None; repository_name := Some "Tracker";
     ref := Some "refs/heads/main"; commits := 1 |}.

Definition push_by_stranger : Payload :=
  {| pusher_name := Some "mallory"; repository_name := Some "Tracker";
     ref := Some "refs/heads/main"; commits := 1 |}.

(** An assignment whose assignee is stored as the text of alice's id. *)
Definition legacy_assignee : ModuleDoc :=
  with_assignee (Some (IdText "64b000000000000000000001")) done_on_oct22.

(** The body of alice's push to Tracker, and bodies that are not
    well-shaped: a null under [pusher], a number under [commits]. *)
Definition push_tracker_body : EventBody :=
  {| body_pusher := AnObject (Some "alice"); body_repository := AnObject (Some "Tracker");
     body_ref := Some "refs/heads/main"; body_commits := Sized 1 |}.

Definition body_with_null_pusher : EventBody :=
  {| body_pusher := NotAnObject; body_repository := AnObject (Some "Tracker");
     body_ref := Some "refs/heads/main"; body_commits := Sized 1 |}.

Definition body_with_unsized_commits : EventBody :=
  {| body_pusher := AnObject (Some "alice"); body_repository := AnObject (Some "Tracker");
     body_ref := Some "refs/heads/main"; body_commits := Unsized |}.

Definition push_by_stranger_body : EventBody :=
  {| body_pusher := AnObject (Some "mallory");
     body_repository := AnObject (Some "Tracker");
     body_ref := Some "refs/heads/main"; body_commits := Sized 1 |}.

(** Ten completed assignments of alice, each a usable data point. *)
Definition ten_points : list Slot := replicate 10 (Some done_on_oct22).

(** A completed assignment whose creation time was stored as text. *)
Definition done_with_text_created : ModuleDoc :=
  {| module_oid := Some (ObjectId "a11"); module_id := None; title := Some "a11";
     description := None; assignedToUserId := Some alice_id;
     status := Some "completed"; validationRule := None;
     dueDate := Some (DDate oct20); createdAt := Some (DText "2025-10-15");
     completedAt := Some (DDate oct22) |}.

(** ** Properties of the matcher *)

Section MatcherFacts.

Variables (user_id : IdVal) (repo_name st : string).

Lemma dict_truthy_empty {V} : dict_truthy (∅ : gmap string V) = false.
Proof. unfold dict_truthy. by rewrite map_to_list_empty. Qed.

Lemma dict_truthy_lookup {V} (d : gmap string V) k v :
  d !! k = Some v → dict_truthy d = true.
Proof.
  intros Hk. unfold dict_truthy.
  destruct (map_to_list d) as [|x l] eqn:E; [|done].
  apply map_to_list_empty_iff in E. subst d. by rewrite lookup_empty in Hk.
Qed.

Lemma str_truthy_ne (s : string) : s ≠ "" → str_truthy s = true.
Proof. by destruct s. Qed.

(** The loop returns at a module of the user with the wanted status whose
    rule names the event's repository up to case. *)
Lemma module_matches_rule m g :
  assigned_with_status m user_id st → rule_repo m g → lower g = lower repo_name →
  module_matches m user_id repo_name st = true.
Proof.
  intros [Hu Hs] (rule & Hr & Hg & Hne) Hl. unfold module_matches.
  rewrite !bool_decide_eq_true_2 by done. simpl.
  rewrite Hr. simpl. rewrite (dict_truthy_lookup _ _ _ Hg), Hg. simpl.
  rewrite (str_truthy_ne _ Hne). by rewrite bool_decide_eq_true_2.
Qed.

(** It does not return at one whose rule names another repository. *)
Lemma module_matches_mismatch m g :
  rule_repo m g → lower g ≠ lower repo_name →
  module_matches m user_id repo_name st = false.
Proof.
  intros (rule & Hr & Hg & Hne) Hl. unfold module_matches.
  destruct (_ && _); [|done].
  rewrite Hr. simpl. rewrite (dict_truthy_lookup _ _ _ Hg), Hg. simpl.
  rewrite (str_truthy_ne _ Hne). by rewrite bool_decide_eq_false_2.
Qed.

(** It returns at one without a rule repository, whatever the event's. *)
Lemma module_matches_fallback m :
  assigned_with_status m user_id st → no_rule_repo m →
  module_matches m user_id repo_name st = true.
Proof.
  intros [Hu Hs] Hno. unfold module_matches.
  rewrite !bool_decide_eq_true_2 by done. simpl.
  destruct (validationRule m) as [rule|] eqn:Hr; simpl.
  - rewrite (Hno rule Hr). by rewrite andb_false_r.
  - reflexivity.
Qed.

(** It returns only at modules of the user with the wanted status. *)
Lemma module_matches_assigned m :
  module_matches m user_id repo_name st = true → assigned_with_status m user_id st.
Proof.
  unfold module_matches, assigned_with_status.
  destruct (bool_decide (str_id _ = _)) eqn:E1; [|done].
  destruct (bool_decide (status m = _)) eqn:E2; [|done].
  intros _. split; by eapply bool_decide_eq_true_1.
Qed.

Lemma scan_modules_passed ms k :
  Forall (passed_over user_id repo_name st) ms →
  scan_modules ms k user_id repo_name st = Ok None.
Proof.
  intros H. revert k. induction H as [|s ms (m & -> & Hm) _ IH]; intros k; simpl; [done|].
  rewrite Hm. apply IH.
Qed.

Lemma scan_modules_first ms1 m ms2 k :
  Forall (passed_over user_id repo_name st) ms1 →
  module_matches m user_id repo_name st = true →
  scan_modules (ms1 ++ Some m :: ms2) k user_id repo_name st = Ok (Some (k + length ms1)).
Proof.
  intros H Hm. revert k. induction H as [|s ms (m' & -> & Hm') _ IH]; intros k; simpl.
  - rewrite Hm. do 2 f_equal. lia.
  - rewrite Hm', IH. do 2 f_equal. lia.
Qed.

Lemma scan_modules_sound ms k i :
  scan_modules ms k user_id repo_name st = Ok (Some i) →
  ∃ m, (k ≤ i)%nat ∧ ms !! (i - k) = Some (Some m)
       ∧ module_matches m user_id repo_name st = true.
Proof.
  revert k. induction ms as [|[m|] ms IH]; intros k; simpl; [done| |done].
  destruct (module_matches m user_id repo_name st) eqn:Hm.
  - intros [= <-]. exists m. rewrite Nat.sub_diag. auto.
  - intros H. destruct (IH _ H) as (m' & Hle & Hl & Hm'). exists m'.
    split; [lia|]. split; [|done].
    replace (i - k) with (S (i - S k)) by lia. done.
Qed.

Lemma scan_projects_passed ps :
  Forall (project_passed_over user_id repo_name st) ps →
  scan_projects ps user_id repo_name st = Ok None.
Proof.
  induction 1 as [|p ps Hp _ IH]; simpl; [done|].
  destruct (modules p) as [|ms|d] eqn:E; try done.
  by rewrite (scan_modules_passed _ _ (Hp ms E)).
Qed.

Lemma scan_projects_first ps1 p ps2 ms1 m ms2 :
  Forall (project_passed_over user_id repo_name st) ps1 →
  modules p = MArray (ms1 ++ Some m :: ms2) →
  Forall (passed_over user_id repo_name st) ms1 →
  module_matches m user_id repo_name st = true →
  scan_projects (ps1 ++ p :: ps2) user_id repo_name st = Ok (Some (p, length ms1)).
Proof.
  intros Hps Hp Hms Hm. induction Hps as [|q ps1 Hq _ IH]; simpl.
  - by rewrite Hp, (scan_modules_first _ _ _ _ Hms Hm).
  - destruct (modules q) as [|ms|d] eqn:E; try done.
    by rewrite (scan_modules_passed _ _ (Hq ms E)).
Qed.

Lemma scan_projects_sound ps p i :
  scan_projects ps user_id repo_name st = Ok (Some (p, i)) →
  p ∈ ps ∧ ∃ ms m, modules p = MArray ms ∧ ms !! i = Some (Some m)
                    ∧ module_matches m user_id repo_name st = true.
Proof.
  induction ps as [|q ps IH]; simpl; [done|].
  assert (scan_projects ps user_id repo_name st = Ok (Some (p, i)) →
          p ∈ q :: ps ∧ ∃ ms m, modules p = MArray ms ∧ ms !! i = Some (Some m)
                    ∧ module_matches m user_id repo_name st = true) as IH'.
  { intros H. destruct (IH H) as [Hin Hr]. split; [by right|done]. }
  destruct (modules q) as [|ms|d] eqn:E; try done.
  destruct (scan_modules ms 0 user_id repo_name st) as [[j|]|e] eqn:Hs; try done.
  intros [= <- <-]. split; [by left|].
  destruct (scan_modules_sound _ _ _ Hs) as (m & _ & Hl & Hm).
  rewrite Nat.sub_0_r in Hl. eauto.
Qed.

(** What the matcher returns is the outcome of the scan over the projects as
    stored, whenever the read succeeds. *)
Lemma find_module_in_projects_scan w :
  serves 1 w →
  snd (find_module_in_projects user_id repo_name st w)
  = scan_projects (projects w) user_id repo_name st.
Proof.
  unfold serves, find_module_in_projects, find_projects, bind, store_call, lift.
  destruct (outage w) as [[|n]|]; simpl; [lia|done|done].
Qed.

Lemma find_module_in_projects_found w r :
  snd (find_module_in_projects user_id repo_name st w) = Ok r →
  scan_projects (projects w) user_id repo_name st = Ok r.
Proof.
  unfold find_module_in_projects, find_projects, bind, store_call, lift.
  destruct (outage w) as [[|n]|]; simpl; done.
Qed.

End MatcherFacts.

(** ** Properties of the store operations *)

Lemma store_call_serves w : serves 1 w → store_call w = (tick w, Ok tt).
Proof.
  unfold serves, store_call, tick. destruct (outage w) as [[|n]|]; [lia|done|done].
Qed.

Lemma store_call_down w : outage w = Some 0 → store_call w = (w, Raise StoreError).
Proof. unfold store_call. by intros ->. Qed.

Lemma serves_one w : serves 1 w ↔ outage w ≠ Some 0.
Proof.
  unfold serves. destruct (outage w) as [[|k]|]; split; try done; try lia.
Qed.

Lemma store_call_cases w :
  (outage w = Some 0 ∧ store_call w = (w, Raise StoreError))
  ∨ (outage w ≠ Some 0 ∧ store_call w = (tick w, Ok tt)).
Proof.
  unfold store_call, tick. destruct (outage w) as [[|n]|]; [left|right|right]; done.
Qed.

(** A round trip changes nothing but the driver's health. *)
Lemma store_call_inv w w' r :
  store_call w = (w', r) →
  projects w' = projects w ∧ users w' = users w ∧ clock w' = clock w
  ∧ emitted w' = emitted w.
Proof.
  unfold store_call. destruct (outage w) as [[|n]|]; intros [= <- <-]; done.
Qed.

Lemma projects_tick w : projects (tick w) = projects w.
Proof. unfold tick. by destruct (outage w) as [[|n]|]. Qed.

Lemma users_tick w : users (tick w) = users w.
Proof. unfold tick. by destruct (outage w) as [[|n]|]. Qed.

Lemma clock_tick w : clock (tick w) = clock w.
Proof. unfold tick. by destruct (outage w) as [[|n]|]. Qed.

Lemma emitted_tick w : emitted (tick w) = emitted w.
Proof. unfold tick. by destruct (outage w) as [[|n]|]. Qed.

Lemma serves_tick n w : serves (S n) w → serves n (tick w).
Proof.
  unfold serves, tick. destruct (outage w) as [[|k]|] eqn:E; simpl; rewrite ?E; lia.
Qed.

Lemma serves_set_projects n ps w : serves n (set_projects ps w) ↔ serves n w.
Proof. done. Qed.

Lemma serves_weaken n k w : (k ≤ n)%nat → serves n w → serves k w.
Proof. unfold serves. destruct (outage w); [lia|done]. Qed.

Lemma find_project_first pid ps1 p ps2 :
  Forall (λ q, project_oid q ≠ pid) ps1 →
  project_oid p = pid →
  List.find (λ q, bool_decide (project_oid q = pid)) (ps1 ++ p :: ps2) = Some p.
Proof.
  intros H Hp. induction H as [|q ps1 Hq _ IH]; simpl.
  - by rewrite bool_decide_eq_true_2.
  - by rewrite bool_decide_eq_false_2.
Qed.

Lemma find_project_none pid ps :
  Forall (λ q, project_oid q ≠ pid) ps →
  List.find (λ q, bool_decide (project_oid q = pid)) ps = None.
Proof.
  induction 1 as [|q ps Hq _ IH]; simpl; [done|]. by rewrite bool_decide_eq_false_2.
Qed.

Lemma update_first_hit pid upd ps1 p ps2 mf :
  Forall (λ q, project_oid q ≠ pid) ps1 →
  project_oid p = pid →
  upd (modules p) = Ok mf →
  update_first pid upd (ps1 ++ p :: ps2)
  = Ok (ps1 ++ set_modules mf p :: ps2, if bool_decide (mf = modules p) then 0 else 1).
Proof.
  intros H Hp Hu. induction H as [|q ps1 Hq _ IH]; simpl.
  - by rewrite bool_decide_eq_true_2, Hu.
  - rewrite bool_decide_eq_false_2 by done. by rewrite IH.
Qed.

Lemma update_first_miss pid upd ps :
  Forall (λ q, project_oid q ≠ pid) ps →
  update_first pid upd ps = Ok (ps, 0).
Proof.
  induction 1 as [|q ps Hq _ IH]; simpl; [done|].
  rewrite bool_decide_eq_false_2 by done. by rewrite IH.
Qed.

(** Writing the two fields on a stored module changes the array exactly when
    it changes the module. *)
Lemma insert_slot_same (ms : list Slot) idx (m m' : ModuleDoc) :
  ms !! idx = Some (Some m) →
  MArray (<[idx := Some m']> ms) = MArray ms ↔ m' = m.
Proof.
  intros Hl. split.
  - intros [= E]. assert (<[idx := Some m']> ms !! idx = Some (Some m')) as Hi.
    { apply list_lookup_insert_eq. by eapply lookup_lt_Some. }
    rewrite E, Hl in Hi. by injection Hi.
  - intros ->. f_equal. by apply list_insert_id.
Qed.

Lemma set_modules_same p : set_modules (modules p) p = p.
Proof. by destruct p. Qed.

(** ** Properties of the estimator *)

Lemma confidence_of_high n : confidence_of n = "high" ↔ (5 ≤ n)%nat.
Proof.
  unfold confidence_of. destruct (5 <=? n) eqn:E5.
  - apply Nat.leb_le in E5. done.
  - apply Nat.leb_gt in E5. destruct (2 <=? n); split; (done || lia).
Qed.

Lemma confidence_of_medium n : confidence_of n = "medium" ↔ (2 ≤ n ∧ n ≤ 4)%nat.
Proof.
  unfold confidence_of. destruct (5 <=? n) eqn:E5.
  - apply Nat.leb_le in E5. split; [done|lia].
  - apply Nat.leb_gt in E5. destruct (2 <=? n) eqn:E2.
    + apply Nat.leb_le in E2. split; [lia|done].
    + apply Nat.leb_gt in E2. split; [done|lia].
Qed.

Lemma confidence_of_low n : confidence_of n = "low" ↔ (n ≤ 1)%nat.
Proof.
  unfold confidence_of. destruct (5 <=? n) eqn:E5.
  - apply Nat.leb_le in E5. split; [done|lia].
  - apply Nat.leb_gt in E5. destruct (2 <=? n) eqn:E2.
    + apply Nat.leb_le in E2. split; [done|lia].
    + apply Nat.leb_gt in E2. split; [lia|done].
Qed.

Lemma reason_of_late d :
  (0 < d)%Z → reason_of d = "Completed " +:+ str_int d +:+ " days late".
Proof. intros H. unfold reason_of. by rewrite (proj2 (Z.ltb_lt 0 d) H). Qed.

Lemma reason_of_on_time : reason_of 0 = "Completed on time".
Proof. reflexivity. Qed.

Lemma reason_of_early d :
  (d < 0)%Z → reason_of d = "Completed " +:+ str_int (- d) +:+ " days early".
Proof.
  intros H. unfold reason_of.
  rewrite (proj2 (Z.ltb_ge 0 d)) by lia.
  rewrite (proj2 (Z.eqb_neq d 0)) by lia.
  by rewrite Z.abs_neq by lia.
Qed.

(** *** The history read against the user's stored assignments *)

Lemma history_match_completed_by user_id m :
  history_match user_id (Some m) = completed_by user_id m.
Proof.
  unfold history_match, completed_by.
  repeat case_bool_decide; simpl; try done; exfalso; tauto.
Qed.

Lemma filter_history_slots user_id (ms : list Slot) :
  List.filter (history_match user_id) ms
  = Some <$> List.filter (completed_by user_id) (omap id ms).
Proof.
  induction ms as [|[m|] ms IH]; [done| |done].
  change (List.filter (history_match user_id) (Some m :: ms))
    with (if history_match user_id (Some m)
          then Some m :: List.filter (history_match user_id) ms
          else List.filter (history_match user_id) ms).
  rewrite history_match_completed_by, IH.
  change (omap id (Some m :: ms)) with (m :: omap id ms).
  simpl. by destruct (completed_by user_id m).
Qed.

Lemma omap_snd_pair (p : Project) (ms : list Slot) :
  omap snd (List.map (pair p) ms) = omap id ms.
Proof.
  induction ms as [|[m|] ms IH]; simpl; [done|f_equal; exact IH|exact IH].
Qed.

Lemma filter_history_unwind user_id ps :
  List.filter (history_match user_id) (List.concat (List.map unwind ps))
  = Some <$> List.filter (completed_by user_id) (stored_modules ps).
Proof.
  unfold stored_modules, array_elements.
  induction ps as [|p ps IH]; simpl; [done|].
  rewrite List.filter_app, IH, omap_app, List.filter_app, fmap_app.
  f_equal. unfold unwind.
  destruct (modules p) as [|ms|d]; simpl; [done| |done].
  by rewrite filter_history_slots, omap_snd_pair.
Qed.

(** The documents the pipeline returns are the assignments considered. *)
Lemma history_pipeline_considered user_id ps :
  history_pipeline user_id ps = Some <$> considered user_id ps.
Proof.
  unfold history_pipeline, considered.
  by rewrite filter_history_unwind, fmap_take.
Qed.

Lemma considered_length user_id ps : (length (considered user_id ps) ≤ 20)%nat.
Proof. unfold considered. rewrite length_take. lia. Qed.

Lemma usable_points_bound user_id ps : (usable_points user_id ps ≤ 20)%nat.
Proof.
  unfold usable_points.
  pose proof (List.filter_length_le usable (considered user_id ps)).
  pose proof (considered_length user_id ps). lia.
Qed.

(** On a well-formed history the loop yields one span per usable data
    point; on any other it raises. *)
Lemma completion_times_usable (l : list ModuleDoc) :
  forallb (λ m, implb (usable m) (timestamps_are_dates m)) l = true →
  completion_times (Some <$> l) = Ok (span_days <$> List.filter usable l).
Proof.
  induction l as [|m l IH]; [done|].
  rewrite fmap_cons. cbn -[fmap span days date_truthy implb].
  intros [Hm Hl]%andb_prop. rewrite (IH Hl). unfold usable in *.
  destruct (date_truthy (createdAt m) && date_truthy (completedAt m)); [|done].
  simpl in Hm. unfold timestamps_are_dates in Hm.
  destruct (createdAt m) as [[c|c|]|] eqn:Hc; try done.
  destruct (completedAt m) as [[d|d|]|] eqn:Hd; try done.
  rewrite fmap_cons. unfold span_days at 2. by rewrite Hc, Hd.
Qed.

Lemma completion_times_malformed (l : list ModuleDoc) :
  forallb (λ m, implb (usable m) (timestamps_are_dates m)) l = false →
  ∃ e, completion_times (Some <$> l) = Raise e.
Proof.
  induction l as [|m l IH]; [done|].
  rewrite fmap_cons. cbn -[fmap span days date_truthy implb].
  intros H. unfold usable in *.
  destruct (date_truthy (createdAt m) && date_truthy (completedAt m)) eqn:Hu.
  - simpl in H. unfold timestamps_are_dates in H.
    destruct (createdAt m) as [[c|c|]|]; try done;
    destruct (completedAt m) as [[d|d|]|]; try done; try (by eexists).
    simpl in H. destruct (IH H) as (e & He). simpl.
    rewrite He. by eexists.
  - simpl in H. by apply IH.
Qed.

Section EstimatorFacts.

Variable fromisoformat : string -> Result datetime.

(** The estimator never raises: it yields the estimate of its body, or the
    error estimate when the body raises. *)
Lemma calculate_predictive_delay_cases module user_id w :
  (∃ w' est, calculate_predictive_delay_body fromisoformat module user_id w = (w', Ok est)
             ∧ calculate_predictive_delay fromisoformat module user_id w = (w', Ok est))
  ∨ (∃ w' e, calculate_predictive_delay_body fromisoformat module user_id w = (w', Raise e)
             ∧ calculate_predictive_delay fromisoformat module user_id w
               = (w', Ok calculation_error_estimate)).
Proof.
  unfold calculate_predictive_delay, try_except.
  destruct (calculate_predictive_delay_body fromisoformat module user_id w)
    as [w' [est|e]]; [left|right]; eauto.
Qed.

(** The estimator touches the world only through the history read. *)
Lemma calculate_predictive_delay_world module user_id w w' r :
  calculate_predictive_delay fromisoformat module user_id w = (w', r) →
  projects w' = projects w ∧ users w' = users w ∧ clock w' = clock w
  ∧ emitted w' = emitted w.
Proof.
  unfold calculate_predictive_delay, try_except, calculate_predictive_delay_body.
  destruct (negb _); [by intros [= <- <-]|].
  unfold bind, utcnow, lift, ret, aggregate_history, bind.
  destruct (due_date_obj_of _ _) as [dd|e]; [|by intros [= <- <-]].
  destruct (field_sub _ _) as [delta|e]; [|by intros [= <- <-]].
  destruct (store_call w) as [w1 [[]|e]] eqn:Hs; apply store_call_inv in Hs.
  - destruct (completion_times _); by intros [= <- <-].
  - by intros [= <- <-].
Qed.

(** A due date written as text that parses to a timezone-aware datetime
    (as a text ending in Z does, once Z is replaced by +00:00) cannot be
    subtracted from the completion date, which is naive: the estimate is the
    error estimate. *)
Lemma aware_due_date_degrades module user_id w s dd off :
  dueDate module = Some (DText s) →
  str_truthy s = true →
  fromisoformat (replace_Z s) = Ok dd →
  utcoffset dd = Some off →
  (∀ t, completedAt module ≠ Some (DText t)) →
  calculate_predictive_delay fromisoformat module user_id w
  = (w, Ok calculation_error_estimate).
Proof.
  intros Hd Ht Hp Ho Hc.
  unfold calculate_predictive_delay, try_except, calculate_predictive_delay_body.
  rewrite Hd. simpl. rewrite Ht. simpl.
  unfold bind, utcnow, lift. rewrite Hp.
  destruct (completedAt module) as [[t|t|]|]; simpl.
  - unfold dt_sub. simpl. by rewrite Ho.
  - by destruct (Hc t).
  - done.
  - unfold dt_sub. simpl. by rewrite Ho.
Qed.

Lemma completion_spans_length user_id ps :
  length (completion_spans user_id ps) = usable_points user_id ps.
Proof. unfold completion_spans, usable_points. by rewrite length_fmap. Qed.

(** The estimate when the computation meets no internal failure. *)
Lemma calculate_predictive_delay_computes module user_id w dd delta :
  date_truthy (dueDate module) = true →
  due_date_obj_of fromisoformat (default (DText "") (dueDate module)) = Ok dd →
  field_sub (default (DDate (clock w)) (completedAt module)) dd = Ok delta →
  outage w ≠ Some 0 →
  history_well_formed user_id (projects w) = true →
  calculate_predictive_delay fromisoformat module user_id w
  = (tick w, Ok {| predictedDelay := days delta;
                   delayReason := reason_of (days delta);
                   confidence := confidence_of (usable_points user_id (projects w));
                   avgCompletionTime :=
                     Some (round_1 (average (completion_spans user_id (projects w))));
                   historicalDataPoints := usable_points user_id (projects w) |}).
Proof.
  intros Ht Hp Hs Ho Hwf.
  pose proof (completion_times_usable _ Hwf) as Htimes.
  rewrite <- history_pipeline_considered in Htimes.
  apply serves_one in Ho as Hw.
  unfold calculate_predictive_delay, try_except, calculate_predictive_delay_body.
  rewrite Ht. simpl.
  unfold bind, utcnow, lift, ret, aggregate_history, bind.
  rewrite Hp, Hs, (store_call_serves _ Hw), projects_tick, Htimes.
  fold (completion_spans user_id (projects w)).
  by rewrite completion_spans_length.
Qed.

Lemma estimator_computes_cases module user_id w :
  estimator_computes fromisoformat module user_id w
  ∨ ¬ estimator_computes fromisoformat module user_id w.
Proof.
  unfold estimator_computes.
  destruct (due_date_obj_of fromisoformat (default (DText "") (dueDate module)))
    as [dd|e] eqn:Hp; [|right; by intros [(? & ? & [=] & _) _]].
  destruct (field_sub (default (DDate (clock w)) (completedAt module)) dd)
    as [delta|e] eqn:Hs.
  2:{ right. intros [(dd' & ? & [= <-] & Hs') _]. by rewrite Hs in Hs'. }
  destruct (decide (outage w = Some 0)) as [Ho|Ho]; [right; by intros (_ & ? & _)|].
  destruct (history_well_formed user_id (projects w)) eqn:Hwf;
    [|right; by intros (_ & _ & ?)].
  left. split; [|done]. exists dd, delta. done.
Qed.

(** The estimate when it meets one. *)
Lemma calculate_predictive_delay_fails module user_id w :
  date_truthy (dueDate module) = true →
  ¬ estimator_computes fromisoformat module user_id w →
  ∃ w', calculate_predictive_delay fromisoformat module user_id w
        = (w', Ok calculation_error_estimate).
Proof.
  intros Ht Hn.
  unfold calculate_predictive_delay, try_except, calculate_predictive_delay_body.
  rewrite Ht. simpl.
  unfold bind, utcnow, lift, ret, aggregate_history, bind.
  destruct (due_date_obj_of _ _) as [dd|e] eqn:Hp; [|by eexists].
  destruct (field_sub _ _) as [delta|e] eqn:Hs; [|by eexists].
  destruct (store_call_cases w) as [(Ho & ->)|(Ho & ->)]; [by eexists|].
  rewrite projects_tick, history_pipeline_considered.
  destruct (forallb (λ m, implb (usable m) (timestamps_are_dates m))
              (considered user_id (projects w))) eqn:Hwf.
  - destruct Hn. split; [eauto|]. done.
  - destruct (completion_times_malformed _ Hwf) as (e & ->). by eexists.
Qed.

End EstimatorFacts.


(** ** Properties of the orchestrator *)

Lemma bind_inv {A B} (c : M A) (k : A → M B) w w' r :
  bind c k w = (w', r) →
  (∃ e, c w = (w', Raise e) ∧ r = Raise e)
  ∨ (∃ a w1, c w = (w1, Ok a) ∧ k a w1 = (w', r)).
Proof.
  unfold bind. destruct (c w) as [w1 [a|e]].
  - intros H. right. eauto.
  - intros [= <- <-]. left. eauto.
Qed.

Lemma preserves_ret {A} (a : A) : preserves (ret a).
Proof. by intros w w' r [= <- <-]. Qed.

Lemma preserves_raise {A} e : preserves (raise e : M A).
Proof. by intros w w' r [= <- <-]. Qed.

Lemma preserves_lift {A} (x : Result A) : preserves (lift x).
Proof. by intros w w' r [= <- <-]. Qed.

Lemma preserves_utcnow : preserves utcnow.
Proof. by intros w w' r [= <- <-]. Qed.

Lemma preserves_store_call : preserves store_call.
Proof. intros w w' r H. apply store_call_inv in H as (? & ? & ? & _). done. Qed.

Lemma preserves_bind {A B} (c : M A) (k : A → M B) :
  preserves c → (∀ a, preserves (k a)) → preserves (bind c k).
Proof.
  intros Hc Hk w w' r H. apply bind_inv in H as [(e & H & ->)|(a & w1 & H1 & H2)].
  - by eapply Hc.
  - apply Hc in H1 as (Hp1 & Hu1 & Hc1). apply Hk in H2 as (Hp2 & Hu2 & Hc2).
    by rewrite Hp2, Hu2, Hc2.
Qed.

Lemma preserves_try_except {A} (c : M A) (h : Exc → M A) :
  preserves c → (∀ e, preserves (h e)) → preserves (try_except c h).
Proof.
  intros Hc Hh w w' r. unfold try_except.
  destruct (c w) as [w1 [a|e]] eqn:E.
  - intros [= <- <-]. by eapply Hc.
  - intros H. apply Hc in E as (Hp1 & Hu1 & Hc1). apply Hh in H as (Hp2 & Hu2 & Hc2).
    by rewrite Hp2, Hu2, Hc2.
Qed.

Lemma preserves_get_user u : preserves (get_user_by_github_username u).
Proof.
  apply preserves_bind; [apply preserves_store_call|].
  by intros _ w w' r [= <- <-].
Qed.

Lemma preserves_find_projects : preserves find_projects.
Proof.
  apply preserves_bind; [apply preserves_store_call|].
  by intros _ w w' r [= <- <-].
Qed.

Lemma preserves_find_project pid : preserves (find_project pid).
Proof.
  apply preserves_bind; [apply preserves_store_call|].
  by intros _ w w' r [= <- <-].
Qed.

Lemma preserves_find_module uid repo st : preserves (find_module_in_projects uid repo st).
Proof.
  apply preserves_bind; [apply preserves_find_projects|].
  intros ps. apply preserves_lift.
Qed.

Lemma get_user_ok u w w1 o :
  get_user_by_github_username u w = (w1, Ok o) →
  o = List.find (λ x, bool_decide (githubUsername x = Some u)) (users w).
Proof.
  intros H. apply bind_inv in H as [(e & _ & [=])|([] & w2 & H1 & [= <- <-])].
  apply store_call_inv in H1 as (_ & -> & _). done.
Qed.

Lemma find_module_ok uid repo st w w1 o :
  find_module_in_projects uid repo st w = (w1, Ok o) →
  scan_projects (projects w) uid repo st = Ok o.
Proof.
  intros H. apply (find_module_in_projects_found uid repo st w o). by rewrite H.
Qed.

Section OrchestratorFacts.

Variable fromisoformat : string -> Result datetime.

Lemma preserves_calculate module user_id :
  preserves (calculate_predictive_delay fromisoformat module user_id).
Proof.
  intros w w' r H. apply calculate_predictive_delay_world in H as (? & ? & ? & _). done.
Qed.

(** What one call of [update_module_status] does to the stored projects:
    nothing when the write is not carried out, otherwise the outcome of the
    positional update. *)
Lemma update_module_status_effect pid idx st w w' r :
  update_module_status pid idx st w = (w', r) →
  users w' = users w ∧ clock w' = clock w
  ∧ ((projects w' = projects w ∧ ∃ e, r = Raise e)
     ∨ ∃ ps' n, update_first pid (set_positional idx (set_status_fields st (clock w)))
                  (projects w) = Ok (ps', n)
                ∧ projects w' = ps').
Proof.
  unfold update_module_status.
  intros H. apply bind_inv in H as [(e & [=] & _)|(now & w1 & [= <- <-] & H)].
  apply bind_inv in H as [(e & H & ->)|(n & w1 & H1 & H2)].
  - unfold update_one in H.
    apply bind_inv in H as [(e' & H & _)|([] & w1 & H1 & H2)].
    + apply store_call_inv in H as (? & ? & ? & _). split; [done|]. split; [done|].
      left. eauto.
    + apply store_call_inv in H1 as (Hp & Hu & Hc & _). rewrite Hp in H2.
      destruct (update_first _ _ _) as [[ps' k]|e'']; [done|].
      injection H2 as <- _. naive_solver.
  - unfold update_one in H1.
    apply bind_inv in H1 as [(e' & _ & [=])|([] & w2 & H1 & H3)].
    apply store_call_inv in H1 as (Hp & Hu & Hc & _). rewrite Hp in H3.
    destruct (update_first _ _ _) as [[ps' k]|e''] eqn:Hup; [|done].
    injection H3 as <- <-.
    assert (projects w' = ps' ∧ users w' = users w ∧ clock w' = clock w) as (? & ? & ?).
    { destruct (0 <? k).
      - assert (preserves (let! updated_project := find_project pid in
                           lift (index_module updated_project idx))) as Hpres.
        { apply preserves_bind; [apply preserves_find_project|].
          intros a. apply preserves_lift. }
        apply Hpres in H2 as (Hp2 & Hu2 & Hc2). simpl in *. by rewrite Hp2, Hu2, Hc2.
      - injection H2 as <- _. done. }
    split; [done|]. split; [done|]. right. eauto.
Qed.

Lemma validate_tail_preserves payload user q module (um : option ModuleDoc) :
  preserves
    (match um with
     | None => ret None
     | Some updated_module =>
         if module_truthy updated_module then
           let! fresh_project := find_project (project_oid q) in
           let! delay_info :=
             calculate_predictive_delay fromisoformat updated_module (user_oid user) in
           match fresh_project with
           | None => raise AttributeError
           | Some fresh_project =>
               let! now := utcnow in
               ret (Some
                 {| result_oid :=
                      match module_oid module with
                      | None => ""
                      | Some i => str_id (Some i)
                      end;
                    result_id := module_id module;
                    result_title := title module;
                    result_description := description module;
                    result_status := "completed";
                    result_assignedToUserId := str_id (assignedToUserId module);
                    assignedToName :=
                      default (default "Unknown" (username user)) (name user);
                    userRole := default "user" (role user);
                    projectId := str_id (Some (project_oid q));
                    projectName := project_name q;
                    result_teamId :=
                      if id_truthy (teamId fresh_project)
                      then Some (str_id (teamId fresh_project)) else None;
                    result_completedAt := now;
                    completedBy := str_id (Some (user_oid user));
                    completedByUsername := default "" (pusher_name payload);
                    repository := default "" (repository_name payload);
                    branch := branch_of (ref payload);
                    result_commits := commits payload;
                    result_validationRule := validationRule module;
                    delay := delay_info |})
           end
         else ret None
     end).
Proof.
  destruct um as [um|]; [|apply preserves_ret].
  destruct (module_truthy um); [|apply preserves_ret].
  apply preserves_bind; [apply preserves_find_project|]. intros fp.
  apply preserves_bind; [apply preserves_calculate|]. intros d.
  destruct fp; [|apply preserves_raise].
  apply preserves_bind; [apply preserves_utcnow|]. intros now. apply preserves_ret.
Qed.

(** What the body of [validate_github_push] does to the world: either the
    stored projects are untouched and no result is produced, or the event
    resolved to an assignment and the completion write was carried out. *)
Lemma validate_github_push_body_effect payload w w' rb :
  validate_github_push_body fromisoformat payload w = (w', rb) →
  users w' = users w ∧ clock w' = clock w
  ∧ ((projects w' = projects w ∧ ∀ res, rb ≠ Ok (Some res))
     ∨ ∃ user q j ps' n,
         resolves payload w user q j
         ∧ completion_write w q j = Ok (ps', n)
         ∧ projects w' = ps').
Proof.
  unfold validate_github_push_body, resolves.
  destruct (opt_str_truthy (pusher_name payload)) eqn:Hpn; simpl;
    [|intros [= <- <-]; naive_solver].
  destruct (opt_str_truthy (repository_name payload)) eqn:Hrn; simpl;
    [|intros [= <- <-]; naive_solver].
  intros H. apply bind_inv in H as [(e & H & ->)|(ou & w1 & H1 & H)].
  { apply preserves_get_user in H as (? & ? & ?). split; [done|]. split; [done|].
    left. done. }
  pose proof (preserves_get_user _ _ _ _ H1) as (Hp1 & Hu1 & Hc1).
  apply get_user_ok in H1.
  destruct ou as [user|]; [|injection H as <- <-; naive_solver].
  apply bind_inv in H as [(e & H & ->)|(found & w2 & H2 & H)].
  { apply preserves_find_module in H as (Hp2 & Hu2 & Hc2).
    rewrite Hp2, Hu2, Hc2. naive_solver. }
  pose proof (preserves_find_module _ _ _ _ _ _ H2) as (Hp2 & Hu2 & Hc2).
  apply find_module_ok in H2. rewrite Hp1 in H2.
  destruct found as [[q j]|];
    [|injection H as <- <-; rewrite Hp2, Hu2, Hc2; naive_solver].
  apply bind_inv in H as [(e & [= <- Hl] & ->)|(slot & w3 & [= <- Hl] & H)].
  { rewrite Hp2, Hu2, Hc2. naive_solver. }
  destruct slot as [module|];
    [|injection H as <- <-; rewrite Hp2, Hu2, Hc2; naive_solver].
  apply bind_inv in H as [(e & H & ->)|(um & w4 & H4 & H)].
  - apply update_module_status_effect in H as (Hu4 & Hc4 & Hup).
    rewrite Hu4, Hc4, Hu2, Hc2, Hu1, Hc1. split; [done|]. split; [done|].
    destruct Hup as [[Hp4 _]|(ps' & n & Hup & Hp4)].
    + left. rewrite Hp4, Hp2, Hp1. done.
    + right. exists user, q, j, ps', n. unfold completion_write.
      rewrite Hc2, Hc1, Hp2, Hp1 in Hup. done.
  - apply update_module_status_effect in H4 as (Hu4 & Hc4 & Hup).
    apply validate_tail_preserves in H as (Hp5 & Hu5 & Hc5).
    rewrite Hu5, Hc5, Hu4, Hc4, Hu2, Hc2, Hu1, Hc1. split; [done|]. split; [done|].
    destruct Hup as [[_ [e [=]]]|(ps' & n & Hup & Hp4)].
    right. exists user, q, j, ps', n. unfold completion_write.
    rewrite Hc2, Hc1, Hp2, Hp1 in Hup. rewrite Hp5. done.
Qed.

Lemma validate_github_push_effect payload w w' r :
  validate_github_push fromisoformat payload w = (w', r) →
  users w' = users w ∧ clock w' = clock w
  ∧ ∃ o, r = Ok o
    ∧ ((projects w' = projects w ∧ o = None)
       ∨ ∃ user q j ps' n,
           resolves payload w user q j
           ∧ completion_write w q j = Ok (ps', n)
           ∧ projects w' = ps').
Proof.
  unfold validate_github_push, try_except.
  destruct (validate_github_push_body fromisoformat payload w) as [w1 [o|e]] eqn:Hb;
    intros [= <- <-]; apply validate_github_push_body_effect in Hb
      as (Hu & Hc & [[Hp Hno]|Hyes]); (split; [done|]); (split; [done|]); eauto.
  exists o. split; [done|]. left. split; [done|].
  destruct o as [res|]; [|done]. by destruct (Hno res).
Qed.

(** An event without a usable pusher or repository name is dropped before
    the store is touched. *)
Lemma validate_without_names payload w :
  opt_str_truthy (pusher_name payload) = false
  ∨ opt_str_truthy (repository_name payload) = false →
  validate_github_push fromisoformat payload w = (w, Ok None).
Proof.
  intros H. unfold validate_github_push, try_except, validate_github_push_body.
  destruct H as [-> | ->]; simpl; [done|].
  by destruct (negb (opt_str_truthy (pusher_name payload))).
Qed.

(** The benign case the endpoint's no-match answer is meant for: the pusher
    is no known user.  Nothing is written. *)
Lemma validate_unknown_user payload w :
  opt_str_truthy (pusher_name payload) = true →
  opt_str_truthy (repository_name payload) = true →
  serves 1 w →
  List.find (λ x, bool_decide (githubUsername x = Some (default "" (pusher_name payload))))
            (users w) = None →
  validate_github_push fromisoformat payload w = (tick w, Ok None).
Proof.
  intros Hp Hr Hw Hu.
  unfold validate_github_push, try_except, validate_github_push_body.
  rewrite Hp, Hr. simpl. unfold bind at 1.
  unfold get_user_by_github_username, bind.
  by rewrite (store_call_serves _ Hw), users_tick, Hu.
Qed.

End OrchestratorFacts.

(** ** Addressing assignments in a store with unique project ids *)

Lemma ids_unique (ps : list Project) (p p' : Project) :
  NoDup (project_oid <$> ps) → p ∈ ps → p' ∈ ps →
  project_oid p = project_oid p' → p = p'.
Proof.
  induction ps as [|q ps IH]; simpl; [by intros _ ?%elem_of_nil|].
  intros [Hq Hnd]%NoDup_cons [->|Hp]%elem_of_cons [->|Hp']%elem_of_cons Hid; try done.
  - destruct Hq. rewrite Hid. apply list_elem_of_fmap. eauto.
  - destruct Hq. rewrite <- Hid. apply list_elem_of_fmap. eauto.
  - by apply IH.
Qed.

Lemma split_by_id (ps : list Project) (p : Project) :
  NoDup (project_oid <$> ps) → p ∈ ps →
  ∃ ps1 ps2, ps = ps1 ++ p :: ps2 ∧ Forall (λ q, project_oid q ≠ project_oid p) ps1.
Proof.
  intros Hnd Hp. apply list_elem_of_split in Hp as (ps1 & ps2 & ->).
  exists ps1, ps2. split; [done|].
  rewrite fmap_app in Hnd. apply NoDup_app in Hnd as (_ & Hdis & _).
  apply Forall_forall. intros q Hq Hid.
  apply (Hdis (project_oid q)).
  - apply list_elem_of_fmap. eauto.
  - rewrite Hid. simpl. by left.
Qed.

Lemma update_first_ids pid upd ps ps' n :
  update_first pid upd ps = Ok (ps', n) → project_oid <$> ps' = project_oid <$> ps.
Proof.
  revert ps' n. induction ps as [|p ps IH]; intros ps' n; simpl.
  - by intros [= <- _].
  - destruct (bool_decide (project_oid p = pid)).
    + destruct (upd (modules p)); [|done]. by intros [= <- _].
    + destruct (update_first pid upd ps) as [[rest k]|]; [|done].
      intros [= <- _]. simpl. f_equal. by eapply IH.
Qed.

Lemma slot_at_elem (ps : list Project) (q : Project) (j : nat) :
  NoDup (project_oid <$> ps) → q ∈ ps →
  slot_at (project_oid q) j ps = slot_in (modules q) j.
Proof.
  intros Hnd Hq. destruct (split_by_id _ _ Hnd Hq) as (ps1 & ps2 & -> & Hpre).
  unfold slot_at. by rewrite (find_project_first _ _ _ _ Hpre).
Qed.

(** An update of one project leaves every assignment it does not address
    where it was. *)
Lemma slot_at_update_first pid j pid' upd ps ps' n :
  update_first pid' upd ps = Ok (ps', n) →
  (pid' = pid → ∀ p mf', p ∈ ps → project_oid p = pid → upd (modules p) = Ok mf' →
                 slot_in mf' j = slot_in (modules p) j) →
  slot_at pid j ps' = slot_at pid j ps.
Proof.
  revert ps' n. induction ps as [|p ps IH]; intros ps' n; simpl.
  - by intros [= <- _].
  - intros Hup Hsame. unfold slot_at. simpl.
    destruct (bool_decide (project_oid p = pid')) eqn:E'.
    + apply bool_decide_eq_true_1 in E'.
      destruct (upd (modules p)) as [mf|] eqn:Hmf; [|done].
      injection Hup as <- _. simpl.
      destruct (bool_decide (project_oid p = pid)) eqn:E; [|done].
      apply bool_decide_eq_true_1 in E. simpl.
      apply Hsame; [congruence|by left|done|done].
    + destruct (update_first pid' upd ps) as [[rest k]|] eqn:Hrest; [|done].
      injection Hup as <- _. simpl.
      destruct (bool_decide (project_oid p = pid)); [done|].
      apply (IH rest k eq_refl). intros Hpid q mf' Hq. apply Hsame; [done|by right].
Qed.

Section ReplayFacts.

Variables (user_id : IdVal) (repo_name : string).

(** An assignment that is not in-progress is not what the scan returns. *)
Lemma scan_skips_other_status ps pid j m1 q' j' :
  NoDup (project_oid <$> ps) →
  slot_at pid j ps = Some (Some m1) →
  status m1 ≠ Some "in-progress" →
  scan_projects ps user_id repo_name "in-progress" = Ok (Some (q', j')) →
  ¬ (project_oid q' = pid ∧ j' = j).
Proof.
  intros Hnd Hslot Hst Hscan [<- ->].
  apply scan_projects_sound in Hscan as (Hin & ms' & m' & Hms' & Hl & Hm').
  rewrite (slot_at_elem _ _ _ Hnd Hin), Hms' in Hslot. simpl in Hslot.
  assert (m' = m1) as -> by congruence.
  apply module_matches_assigned in Hm' as [_ Hs]. done.
Qed.

(** The completion write on the assignment the scan returned. *)
Lemma completion_write_scanned w q j ps' n :
  NoDup (project_oid <$> projects w) →
  scan_projects (projects w) user_id repo_name "in-progress" = Ok (Some (q, j)) →
  completion_write w q j = Ok (ps', n) →
  ∃ m, slot_at (project_oid q) j (projects w) = Some (Some m)
       ∧ assigned_with_status m user_id "in-progress"
       ∧ slot_at (project_oid q) j ps'
         = Some (Some (set_status_fields "completed" (clock w) m))
       ∧ NoDup (project_oid <$> ps').
Proof.
  intros Hnd Hscan Hup.
  apply scan_projects_sound in Hscan as (Hin & ms & m & Hms & Hl & Hm).
  exists m. split; [by rewrite (slot_at_elem _ _ _ Hnd Hin), Hms|].
  split; [by eapply module_matches_assigned|].
  split; [|by rewrite (update_first_ids _ _ _ _ _ Hup)].
  destruct (split_by_id _ _ Hnd Hin) as (ps1 & ps2 & Hps & Hpre).
  unfold completion_write in Hup. rewrite Hps in Hup.
  rewrite (update_first_hit _ _ _ _ _
             (MArray (<[j := Some (set_status_fields "completed" (clock w) m)]> ms))
             Hpre eq_refl) in Hup
    by (by unfold set_positional; rewrite Hms, Hl).
  injection Hup as <- _. unfold slot_at.
  rewrite (find_project_first _ ps1 (set_modules _ q) ps2 Hpre) by done. simpl.
  apply list_lookup_insert_eq. by eapply lookup_lt_Some.
Qed.

(** The completion write on a scanned assignment leaves every other
    assignment where it was. *)
Lemma completion_write_elsewhere w q j ps' n pid k :
  NoDup (project_oid <$> projects w) →
  scan_projects (projects w) user_id repo_name "in-progress" = Ok (Some (q, j)) →
  completion_write w q j = Ok (ps', n) →
  ¬ (project_oid q = pid ∧ j = k) →
  slot_at pid k ps' = slot_at pid k (projects w).
Proof.
  intros Hnd Hscan Hup Hne.
  apply scan_projects_sound in Hscan as (Hin & ms & m & Hms & Hl & Hm).
  eapply slot_at_update_first; [exact Hup|].
  intros Hpid p mf' Hp Hidp Hmf.
  assert (p = q) as -> by (eapply ids_unique; [done..|congruence]).
  rewrite Hms in Hmf |- *. unfold set_positional in Hmf. rewrite Hl in Hmf.
  injection Hmf as <-. simpl. apply list_lookup_insert_ne. naive_solver.
Qed.

End ReplayFacts.

(** ** Traces of the processing: broadcasts and round trips *)

Lemma bind_ok {A B} (c : M A) (k : A → M B) w w1 a :
  c w = (w1, Ok a) → bind c k w = k a w1.
Proof. intros H. unfold bind. by rewrite H. Qed.

Lemma bind_eq {A B} (c : M A) (k : A → M B) w w1 r :
  c w = (w1, r) →
  bind c k w = match r with Ok a => k a w1 | Raise e => (w1, Raise e) end.
Proof. intros H. unfold bind. by rewrite H. Qed.

Lemma silent_ret {A} (a : A) : silent (ret a).
Proof. by intros w w' r [= <- _]. Qed.

Lemma silent_raise {A} e : silent (raise e : M A).
Proof. by intros w w' r [= <- _]. Qed.

Lemma silent_lift {A} (x : Result A) : silent (lift x).
Proof. by intros w w' r [= <- _]. Qed.

Lemma silent_utcnow : silent utcnow.
Proof. by intros w w' r [= <- _]. Qed.

Lemma silent_store_call : silent store_call.
Proof. intros w w' r H. by apply store_call_inv in H as (_ & _ & _ & ?). Qed.

Lemma silent_bind {A B} (c : M A) (k : A → M B) :
  silent c → (∀ a, silent (k a)) → silent (bind c k).
Proof.
  intros Hc Hk w w' r H. apply bind_inv in H as [(e & H & ->)|(a & w1 & H1 & H2)].
  - by eapply Hc.
  - apply Hc in H1. apply Hk in H2. by rewrite H2.
Qed.

Lemma silent_try_except {A} (c : M A) (h : Exc → M A) :
  silent c → (∀ e, silent (h e)) → silent (try_except c h).
Proof.
  intros Hc Hh w w' r. unfold try_except.
  destruct (c w) as [w1 [a|e]] eqn:E.
  - intros [= <- _]. by eapply Hc.
  - intros H. apply Hc in E. apply Hh in H. by rewrite H.
Qed.

Lemma silent_get_user u : silent (get_user_by_github_username u).
Proof.
  apply silent_bind; [apply silent_store_call|]. by intros _ w w' r [= <- _].
Qed.

Lemma silent_find_projects : silent find_projects.
Proof.
  apply silent_bind; [apply silent_store_call|]. by intros _ w w' r [= <- _].
Qed.

Lemma silent_find_project pid : silent (find_project pid).
Proof.
  apply silent_bind; [apply silent_store_call|]. by intros _ w w' r [= <- _].
Qed.

Lemma silent_find_module uid repo st : silent (find_module_in_projects uid repo st).
Proof.
  apply silent_bind; [apply silent_find_projects|]. intros ps. apply silent_lift.
Qed.

Lemma silent_update_one pid upd : silent (update_one pid upd).
Proof.
  apply silent_bind; [apply silent_store_call|]. intros _ w w' r.
  destruct (update_first pid upd (projects w)) as [[ps n]|e]; by intros [= <- _].
Qed.

Lemma silent_update_module_status pid idx st : silent (update_module_status pid idx st).
Proof.
  apply silent_bind; [apply silent_utcnow|]. intros now.
  apply silent_bind; [apply silent_update_one|]. intros n.
  destruct (0 <? n); [|apply silent_ret].
  apply silent_bind; [apply silent_find_project|]. intros p. apply silent_lift.
Qed.

Section TraceFacts.

Variable fromisoformat : string -> Result datetime.

Lemma silent_calculate module user_id :
  silent (calculate_predictive_delay fromisoformat module user_id).
Proof.
  intros w w' r H. by apply calculate_predictive_delay_world in H as (_ & _ & _ & ?).
Qed.

Lemma silent_validate_body payload :
  silent (validate_github_push_body fromisoformat payload).
Proof.
  unfold validate_github_push_body.
  destruct (negb _); [apply silent_ret|].
  destruct (negb _); [apply silent_ret|].
  apply silent_bind; [apply silent_get_user|]. intros [user|]; [|apply silent_ret].
  apply silent_bind; [apply silent_find_module|]. intros [[q j]|]; [|apply silent_ret].
  apply silent_bind; [apply silent_lift|]. intros [module|]; [|apply silent_raise].
  apply silent_bind; [apply silent_update_module_status|].
  intros [um|]; [|apply silent_ret].
  destruct (module_truthy um); [|apply silent_ret].
  apply silent_bind; [apply silent_find_project|]. intros fp.
  apply silent_bind; [apply silent_calculate|]. intros d.
  destruct fp; [|apply silent_raise].
  apply silent_bind; [apply silent_utcnow|]. intros now. apply silent_ret.
Qed.

Lemma silent_validate payload : silent (validate_github_push fromisoformat payload).
Proof.
  apply silent_try_except; [apply silent_validate_body|]. intros e. apply silent_ret.
Qed.

Lemma get_user_serves u w :
  serves 1 w →
  get_user_by_github_username u w
  = (tick w, Ok (List.find (λ x, bool_decide (githubUsername x = Some u)) (users w))).
Proof.
  intros Hw. unfold get_user_by_github_username, bind.
  by rewrite (store_call_serves _ Hw), users_tick.
Qed.

Lemma find_module_serves uid repo st w :
  serves 1 w →
  find_module_in_projects uid repo st w = (tick w, scan_projects (projects w) uid repo st).
Proof.
  intros Hw. unfold find_module_in_projects, find_projects, bind, lift.
  by rewrite (store_call_serves _ Hw), projects_tick.
Qed.

Lemma find_project_serves pid w :
  serves 1 w →
  find_project pid w
  = (tick w, Ok (List.find (λ p, bool_decide (project_oid p = pid)) (projects w))).
Proof.
  intros Hw. unfold find_project, bind.
  by rewrite (store_call_serves _ Hw), projects_tick.
Qed.

(** The write on a stored assignment that it changes. *)
Lemma update_module_status_writes w pid idx st ps1 p ps2 ms m :
  serves 2 w →
  projects w = ps1 ++ p :: ps2 →
  Forall (λ q, project_oid q ≠ pid) ps1 →
  project_oid p = pid →
  modules p = MArray ms →
  ms !! idx = Some (Some m) →
  set_status_fields st (clock w) m ≠ m →
  update_module_status pid idx st w
  = (tick (set_projects
             (ps1 ++ set_modules
                       (MArray (<[idx := Some (set_status_fields st (clock w) m)]> ms)) p
                  :: ps2) (tick w)),
     Ok (Some (set_status_fields st (clock w) m))).
Proof.
  intros Hw Hps Hpre Hp Hms Hidx Hne.
  assert (serves 1 w) as Hw1 by (apply (serves_weaken 2); [lia|done]).
  unfold update_module_status, update_one, utcnow, bind.
  rewrite (store_call_serves _ Hw1), projects_tick, Hps.
  rewrite (update_first_hit _ _ _ _ _
             (MArray (<[idx := Some (set_status_fields st (clock w) m)]> ms)) Hpre Hp);
    [|by unfold set_positional; rewrite Hms, Hidx].
  rewrite Hms.
  rewrite bool_decide_eq_false_2 by (by rewrite (insert_slot_same _ _ _ _ Hidx)).
  simpl. unfold find_project, bind.
  rewrite store_call_serves by (by apply serves_set_projects, serves_tick).
  rewrite projects_tick. simpl.
  rewrite (find_project_first _ _ _ _ Hpre) by done.
  unfold lift, index_module. simpl.
  by rewrite list_lookup_insert_eq by (by eapply lookup_lt_Some).
Qed.

End TraceFacts.

(** ** Properties of the endpoints *)

Lemma try_except_then_len (c : M (option CompletionResult)) (n : nat) w :
  try_except
    (let! result := c in
     match result with
     | Some result => let! _ := lift (Ok n) in ret (Some result)
     | None => ret None
     end) (fun _ => ret None) w
  = try_except c (fun _ => ret None) w.
Proof. unfold try_except, bind, lift, ret. by destruct (c w) as [w1 [[r|]|e]]. Qed.

Lemma try_except_then_unsized (c : M (option CompletionResult)) w :
  try_except
    (let! result := c in
     match result with
     | Some result => let! _ := lift (Raise TypeError : Result nat) in ret (Some result)
     | None => ret None
     end) (fun _ => ret None) w
  = ((try_except c (fun _ => ret None) w).1, Ok None).
Proof. unfold try_except, bind, lift, ret. by destruct (c w) as [w1 [[r|]|e]]. Qed.

Lemma summary_of_well_shaped b :
  well_shaped b = true → summary_of (ObjectJson b) = Ok (event_summary b).
Proof.
  unfold well_shaped, summary_of, event_summary.
  by destruct (body_pusher b), (body_repository b), (body_commits b).
Qed.

Lemma summary_of_ill_shaped b :
  well_shaped b = false → ∃ e, summary_of (ObjectJson b) = Raise e.
Proof.
  unfold well_shaped, summary_of.
  destruct (body_pusher b), (body_repository b), (body_commits b); simpl;
    try done; by eexists.
Qed.

Section EndpointFacts.

Variable fromisoformat : string -> Result datetime.

(** On a well-shaped body the endpoints' validation is that of the fields
    read from it. *)
Lemma validate_json_well_shaped b w :
  well_shaped b = true →
  validate_github_push_json fromisoformat (ObjectJson b) w
  = validate_github_push fromisoformat (event_payload b) w.
Proof.
  unfold well_shaped. intros H.
  destruct (opt_str_truthy (field_name (body_pusher b))) eqn:Hn.
  - unfold validate_github_push_json, validate_github_push_object, validate_github_push.
    destruct (body_pusher b) as [| |pn] eqn:Hp; try done.
    destruct (body_repository b) as [| |rn] eqn:Hr; try done;
      destruct (body_commits b) as [n|] eqn:Hc; try done;
      cbn [name_of len_of]; unfold bind at 1; unfold lift at 1;
      cbn [field_name] in Hn; rewrite Hn; cbn [negb];
      unfold bind at 1; unfold lift at 1; apply try_except_then_len.
  - rewrite (validate_without_names fromisoformat (event_payload b) w)
      by (left; exact Hn).
    unfold validate_github_push_json, validate_github_push_object, try_except.
    destruct (body_pusher b) as [| |pn]; try done;
      cbn [name_of]; unfold bind, lift; cbn [field_name] in Hn; by rewrite ?Hn.
Qed.

(** A [pusher] or a [repository] that is no object makes the validation
    return [None] before the store is touched. *)
Lemma validate_json_not_object b w :
  is_object_or_absent (body_pusher b) && is_object_or_absent (body_repository b) = false →
  validate_github_push_json fromisoformat (ObjectJson b) w = (w, Ok None).
Proof.
  intros H. unfold validate_github_push_json, validate_github_push_object, try_except.
  destruct (body_pusher b) as [| |pn]; cbn [name_of]; unfold bind at 1; unfold lift at 1;
    [done|done|].
  destruct (negb (opt_str_truthy pn)); [done|].
  destruct (body_repository b) as [| |rn]; try done.
Qed.

(** A [commits] without a length makes it return [None] after the
    processing. *)
Lemma validate_json_unsized b w :
  is_object_or_absent (body_pusher b) && is_object_or_absent (body_repository b) = true →
  body_commits b = Unsized →
  validate_github_push_json fromisoformat (ObjectJson b) w
  = ((validate_github_push fromisoformat (event_payload b) w).1, Ok None).
Proof.
  intros H Hc.
  destruct (opt_str_truthy (field_name (body_pusher b))) eqn:Hn.
  - unfold validate_github_push_json, validate_github_push_object, validate_github_push.
    destruct (body_pusher b) as [| |pn] eqn:Hp; try done.
    destruct (body_repository b) as [| |rn] eqn:Hr; try done;
      rewrite Hc; cbn [name_of len_of]; unfold bind at 1; unfold lift at 1;
      cbn [field_name] in Hn; rewrite Hn; cbn [negb];
      unfold bind at 1; unfold lift at 1; apply try_except_then_unsized.
  - rewrite (validate_without_names fromisoformat (event_payload b) w)
      by (left; exact Hn).
    unfold validate_github_push_json, validate_github_push_object, try_except.
    destruct (body_pusher b) as [| |pn]; try done;
      cbn [name_of]; unfold bind, lift; cbn [field_name] in Hn; by rewrite ?Hn.
Qed.

Lemma validate_json_ill_shaped b w :
  well_shaped b = false →
  ∃ w', validate_github_push_json fromisoformat (ObjectJson b) w = (w', Ok None).
Proof.
  unfold well_shaped. intros H.
  destruct (is_object_or_absent (body_pusher b) && is_object_or_absent (body_repository b))
    eqn:Ho.
  - destruct (body_commits b) eqn:Hc; [done|].
    rewrite (validate_json_unsized _ _ Ho Hc). eauto.
  - rewrite (validate_json_not_object _ _ Ho). eauto.
Qed.

(** The validation the endpoints call never raises and leaves the users,
    the clock and the broadcast log as they were. *)
Lemma validate_json_inv payload w w' r :
  validate_github_push_json fromisoformat payload w = (w', r) →
  (∃ o, r = Ok o)
  ∧ users w' = users w ∧ clock w' = clock w ∧ emitted w' = emitted w.
Proof.
  destruct payload as [| |b]; [by intros [= <- <-]; eauto..|].
  destruct (well_shaped b) eqn:Hs.
  - rewrite (validate_json_well_shaped _ _ Hs). intros Hv.
    pose proof (silent_validate fromisoformat _ _ _ _ Hv) as He.
    apply validate_github_push_effect in Hv as (Hu & Hc & o & -> & _). eauto.
  - unfold well_shaped in Hs.
    destruct (is_object_or_absent (body_pusher b)
              && is_object_or_absent (body_repository b)) eqn:Ho.
    + destruct (body_commits b) eqn:Hc; [done|].
      rewrite (validate_json_unsized _ _ Ho Hc).
      destruct (validate_github_push fromisoformat (event_payload b) w) as [w1 r1] eqn:Hv.
      intros [= <- <-].
      pose proof (silent_validate fromisoformat _ _ _ _ Hv) as He.
      apply validate_github_push_effect in Hv as (Hu & Hc' & _). eauto.
    + rewrite (validate_json_not_object _ _ Ho). intros [= <- <-]. eauto.
Qed.

(** The webhook endpoint on a well-shaped body. *)
Lemma github_webhook_well_shaped b w w1 o :
  well_shaped b = true →
  validate_github_push fromisoformat (event_payload b) w = (w1, Ok o) →
  github_webhook fromisoformat (Json (ObjectJson b)) w
  = match o with
    | Some res =>
        (broadcast_all (broadcasts false res (clock w1)) w1,
         Ok (JsonReply (completed_response res)))
    | None => (w1, Ok (JsonReply (no_match_response (event_summary b))))
    end.
Proof.
  intros Hs Hv. unfold github_webhook, served, try_except, github_webhook_body.
  unfold bind at 1.
  rewrite (bind_eq _ _ _ _ _ (eq_trans (validate_json_well_shaped _ _ Hs) Hv)).
  destruct o as [res|].
  - reflexivity.
  - by rewrite (summary_of_well_shaped _ Hs).
Qed.

(** A body that is not well-shaped is answered with the framework's 500,
    after whatever its validation did. *)
Lemma github_webhook_ill_shaped b w :
  well_shaped b = false →
  github_webhook fromisoformat (Json (ObjectJson b)) w
  = ((validate_github_push_json fromisoformat (ObjectJson b) w).1, Ok (ErrorReply 500)).
Proof.
  intros Hs. destruct (validate_json_ill_shaped b w Hs) as (w' & Hv).
  destruct (summary_of_ill_shaped b Hs) as (e & He).
  unfold github_webhook, served, try_except, github_webhook_body.
  unfold bind at 1. rewrite (bind_eq _ _ _ _ _ Hv).
  rewrite He, Hv. reflexivity.
Qed.

End EndpointFacts.

(** ** The processing of an event when the store fails part-way *)

Lemma outage_serves n k w : outage w = Some k → (n ≤ k)%nat → serves n w.
Proof. unfold serves. by intros ->. Qed.

Lemma outage_tick n w : outage w = Some (S n) → outage (tick w) = Some n.
Proof. unfold tick. by intros ->. Qed.

Lemma get_user_down u w :
  outage w = Some 0 → get_user_by_github_username u w = (w, Raise StoreError).
Proof.
  intros Ho. unfold get_user_by_github_username, bind. by rewrite (store_call_down _ Ho).
Qed.

Lemma find_module_down uid repo st w :
  outage w = Some 0 → find_module_in_projects uid repo st w = (w, Raise StoreError).
Proof.
  intros Ho. unfold find_module_in_projects, find_projects, bind.
  by rewrite (store_call_down _ Ho).
Qed.

Lemma find_project_down pid w :
  outage w = Some 0 → find_project pid w = (w, Raise StoreError).
Proof. intros Ho. unfold find_project, bind. by rewrite (store_call_down _ Ho). Qed.

Lemma update_module_status_down pid idx st w :
  outage w = Some 0 → update_module_status pid idx st w = (w, Raise StoreError).
Proof.
  intros Ho. unfold update_module_status, update_one, utcnow, bind.
  by rewrite (store_call_down _ Ho).
Qed.

(** The write is carried out and the read that follows it fails. *)
Lemma update_module_status_reread_down w pid idx st ps1 p ps2 ms m :
  outage w = Some 1 →
  projects w = ps1 ++ p :: ps2 →
  Forall (λ q, project_oid q ≠ pid) ps1 →
  project_oid p = pid →
  modules p = MArray ms →
  ms !! idx = Some (Some m) →
  set_status_fields st (clock w) m ≠ m →
  update_module_status pid idx st w
  = (set_projects
       (ps1 ++ set_modules
                 (MArray (<[idx := Some (set_status_fields st (clock w) m)]> ms)) p
            :: ps2) (tick w),
     Raise StoreError).
Proof.
  intros Ho Hps Hpre Hp Hms Hidx Hne.
  assert (serves 1 w) as Hw1 by (by apply (outage_serves 1 1)).
  unfold update_module_status, update_one, utcnow, bind.
  rewrite (store_call_serves _ Hw1), projects_tick, Hps.
  rewrite (update_first_hit _ _ _ _ _
             (MArray (<[idx := Some (set_status_fields st (clock w) m)]> ms)) Hpre Hp);
    [|by unfold set_positional; rewrite Hms, Hidx].
  rewrite Hms.
  rewrite bool_decide_eq_false_2 by (by rewrite (insert_slot_same _ _ _ _ Hidx)).
  simpl. unfold find_project, bind.
  rewrite store_call_down; [done|].
  simpl. by apply outage_tick.
Qed.

(** What an event that resolves gives the processing to work on. *)
Lemma resolves_decompose payload w user q j :
  NoDup (project_oid <$> projects w) →
  resolves payload w user q j →
  ∃ ms m ps1 ps2,
    modules q = MArray ms ∧ ms !! j = Some (Some m)
    ∧ status m = Some "in-progress"
    ∧ projects w = ps1 ++ q :: ps2
    ∧ Forall (λ p, project_oid p ≠ project_oid q) ps1
    ∧ slot_at (project_oid q) j (projects w) = Some (Some m)
    ∧ set_status_fields "completed" (clock w) m ≠ m.
Proof.
  intros Hnd (_ & _ & _ & Hscan).
  apply scan_projects_sound in Hscan as (Hin & ms & m & Hms & Hl & Hm).
  apply module_matches_assigned in Hm as [_ Hst].
  destruct (split_by_id _ _ Hnd Hin) as (ps1 & ps2 & Hps & Hpre).
  exists ms, m, ps1, ps2. do 5 (split; [done|]).
  split; [by rewrite (slot_at_elem _ _ _ Hnd Hin), Hms|].
  intros E. assert (status (set_status_fields "completed" (clock w) m) = status m) as E'
    by (by rewrite E).
  simpl in E'. rewrite Hst in E'. done.
Qed.

Lemma slot_written pid j ps1 q ps2 ms (s : Slot) :
  Forall (λ p, project_oid p ≠ pid) ps1 →
  project_oid q = pid →
  (j < length ms)%nat →
  slot_at pid j (ps1 ++ set_modules (MArray (<[j := s]> ms)) q :: ps2) = Some s.
Proof.
  intros Hpre Hq Hj. unfold slot_at.
  rewrite (find_project_first _ ps1 (set_modules _ q) ps2 Hpre) by done. simpl.
  by apply list_lookup_insert_eq.
Qed.

Section OutageFacts.

Variable fromisoformat : string -> Result datetime.

(** The estimator with the store down. *)
Lemma calculate_predictive_delay_down module user_id w :
  date_truthy (dueDate module) = true →
  outage w = Some 0 →
  calculate_predictive_delay fromisoformat module user_id w
  = (w, Ok calculation_error_estimate).
Proof.
  intros Ht Ho.
  unfold calculate_predictive_delay, try_except, calculate_predictive_delay_body.
  rewrite Ht. simpl.
  unfold bind, utcnow, lift, ret, aggregate_history, bind.
  destruct (due_date_obj_of _ _) as [dd|e]; [|done].
  destruct (field_sub _ _) as [delta|e]; [|done].
  by rewrite (store_call_down _ Ho).
Qed.

(** The store fails at the user lookup. *)
Lemma validate_down_at_user payload w :
  opt_str_truthy (pusher_name payload) = true →
  opt_str_truthy (repository_name payload) = true →
  outage w = Some 0 →
  validate_github_push fromisoformat payload w = (w, Ok None).
Proof.
  intros Hp Hr Ho.
  unfold validate_github_push, try_except, validate_github_push_body.
  rewrite Hp, Hr. cbn [negb].
  by rewrite (bind_eq _ _ _ _ _ (get_user_down _ _ Ho)).
Qed.

(** The store fails at the read of the projects. *)
Lemma validate_down_at_projects payload w user :
  opt_str_truthy (pusher_name payload) = true →
  opt_str_truthy (repository_name payload) = true →
  List.find (λ x, bool_decide (githubUsername x = Some (default "" (pusher_name payload))))
            (users w) = Some user →
  outage w = Some 1 →
  validate_github_push fromisoformat payload w = (tick w, Ok None).
Proof.
  intros Hp Hr Hu Ho.
  unfold validate_github_push, try_except, validate_github_push_body.
  rewrite Hp, Hr. cbn [negb].
  rewrite (bind_ok _ _ _ _ _ (get_user_serves _ _ (outage_serves 1 1 _ Ho (le_n _)))), Hu.
  by rewrite (bind_eq _ _ _ _ _ (find_module_down _ _ _ _ (outage_tick _ _ Ho))).
Qed.

(** The processing of a resolving event up to the update, whose outcome is
    [(w3, r)]. *)
Lemma validate_resolved_update payload w user q j ms m w3 e :
  serves 2 w →
  resolves payload w user q j →
  modules q = MArray ms → ms !! j = Some (Some m) →
  update_module_status (project_oid q) j "completed" (tick (tick w)) = (w3, Raise e) →
  validate_github_push fromisoformat payload w = (w3, Ok None).
Proof.
  intros Hw (Hpn & Hrn & Huser & Hscan) Hms Hl Hup.
  assert (serves 1 w) as Hw1 by (apply (serves_weaken 2); [lia|done]).
  assert (serves 1 (tick w)) as Hw2 by (by apply serves_tick).
  unfold validate_github_push, try_except, validate_github_push_body.
  rewrite Hpn, Hrn. cbn [negb].
  rewrite (bind_ok _ _ _ _ _ (get_user_serves _ _ Hw1)), Huser.
  rewrite (bind_eq _ _ _ _ _ (find_module_serves _ _ _ _ Hw2)), projects_tick, Hscan.
  cbv beta iota.
  unfold bind at 1. unfold lift at 1. unfold index_module.
  rewrite Hms, Hl. cbv beta iota.
  by rewrite (bind_eq _ _ _ _ _ Hup).
Qed.

(** The store fails at the status update: nothing is written. *)
Lemma validate_down_at_update payload w user q j :
  resolves payload w user q j →
  outage w = Some 2 →
  validate_github_push fromisoformat payload w = (tick (tick w), Ok None).
Proof.
  intros Hres Ho. pose proof Hres as (_ & _ & _ & Hscan).
  apply scan_projects_sound in Hscan as (_ & ms & m & Hms & Hl & _).
  apply (validate_resolved_update payload w user q j ms m _ StoreError);
    [by apply (outage_serves 2 2)|done..|].
  apply update_module_status_down. by do 2 (apply outage_tick).
Qed.

(** The store fails at the read that follows the update: the assignment is
    written as completed and [None] is returned. *)
Lemma validate_down_at_reread payload w user q j m :
  NoDup (project_oid <$> projects w) →
  resolves payload w user q j →
  slot_at (project_oid q) j (projects w) = Some (Some m) →
  outage w = Some 3 →
  ∃ w', validate_github_push fromisoformat payload w = (w', Ok None)
        ∧ slot_at (project_oid q) j (projects w')
          = Some (Some (set_status_fields "completed" (clock w) m)).
Proof.
  intros Hnd Hres Hslot Ho.
  destruct (resolves_decompose _ _ _ _ _ Hnd Hres)
    as (ms & m0 & ps1 & ps2 & Hms & Hl & Hst & Hps & Hpre & Hslot0 & Hne).
  rewrite Hslot in Hslot0. injection Hslot0 as <-.
  eexists. split.
  - apply (validate_resolved_update payload w user q j ms m _ StoreError);
      [by apply (outage_serves 2 3); [|lia]|done..|].
    pose proof (update_module_status_reread_down (tick (tick w)) (project_oid q) j
                  "completed" ps1 q ps2 ms m) as H.
    rewrite !projects_tick, !clock_tick in H. apply H; try done.
    by do 2 (apply outage_tick).
  - simpl. apply slot_written; [done..|]. by eapply lookup_lt_Some.
Qed.

Lemma module_truthy_completed now m :
  module_truthy (set_status_fields "completed" now m) = true.
Proof.
  unfold module_truthy. apply bool_decide_eq_true_2. intros E.
  assert (status (set_status_fields "completed" now m) = status empty_module) as E'
    by (by rewrite E).
  done.
Qed.

(** The store fails at the read of the fresh project: the assignment is
    written as completed and [None] is returned. *)
Lemma validate_down_at_fresh payload w user q j m :
  NoDup (project_oid <$> projects w) →
  resolves payload w user q j →
  slot_at (project_oid q) j (projects w) = Some (Some m) →
  outage w = Some 4 →
  ∃ w', validate_github_push fromisoformat payload w = (w', Ok None)
        ∧ slot_at (project_oid q) j (projects w')
          = Some (Some (set_status_fields "completed" (clock w) m)).
Proof.
  intros Hnd Hres Hslot Ho.
  destruct (resolves_decompose _ _ _ _ _ Hnd Hres)
    as (ms & m0 & ps1 & ps2 & Hms & Hl & Hst & Hps & Hpre & Hslot0 & Hne).
  rewrite Hslot in Hslot0. injection Hslot0 as <-.
  destruct Hres as (Hpn & Hrn & Huser & Hscan).
  set (m' := set_status_fields "completed" (clock w) m) in *.
  assert (serves 1 w) as Hw1 by (by apply (outage_serves 1 4); [|lia]).
  assert (serves 1 (tick w)) as Hw2.
  { apply serves_tick. by apply (outage_serves 2 4); [|lia]. }
  assert (outage (tick (tick w)) = Some 2) as Ho2 by (by do 2 (apply outage_tick)).
  set (w3 := tick (set_projects
                     (ps1 ++ set_modules (MArray (<[j := Some m']> ms)) q :: ps2)
                     (tick (tick (tick w))))).
  assert (update_module_status (project_oid q) j "completed" (tick (tick w))
          = (w3, Ok (Some m'))) as Hup.
  { pose proof (update_module_status_writes (tick (tick w)) (project_oid q) j "completed"
                  ps1 q ps2 ms m (outage_serves 2 2 _ Ho2 (le_n _))) as H.
    rewrite !projects_tick, !clock_tick in H. by apply H. }
  assert (outage w3 = Some 0) as Ho3.
  { unfold w3. apply outage_tick. simpl. by apply outage_tick. }
  exists w3. split.
  - unfold validate_github_push, try_except, validate_github_push_body.
    rewrite Hpn, Hrn. cbn [negb].
    rewrite (bind_ok _ _ _ _ _ (get_user_serves _ _ Hw1)), Huser.
    rewrite (bind_eq _ _ _ _ _ (find_module_serves _ _ _ _ Hw2)), projects_tick, Hscan.
    cbv beta iota.
    unfold bind at 1. unfold lift at 1. unfold index_module.
    rewrite Hms, Hl. cbv beta iota.
    rewrite (bind_ok _ _ _ _ _ Hup).
    fold m'. unfold m' at 1. rewrite module_truthy_completed.
    by rewrite (bind_eq _ _ _ _ _ (find_project_down _ _ Ho3)).
  - unfold w3. rewrite projects_tick. simpl.
    apply slot_written; [done..|]. by eapply lookup_lt_Some.
Qed.

(** The store fails at the history read of the estimator: the failure is
    absorbed there, and the processing returns its result with the error
    estimate. *)
Lemma validate_down_at_history payload w user q j m :
  NoDup (project_oid <$> projects w) →
  resolves payload w user q j →
  slot_at (project_oid q) j (projects w) = Some (Some m) →
  date_truthy (dueDate m) = true →
  outage w = Some 5 →
  ∃ w' res,
    validate_github_push fromisoformat payload w = (w', Ok (Some res))
    ∧ delay res = calculation_error_estimate
    ∧ result_status res = "completed"
    ∧ slot_at (project_oid q) j (projects w')
      = Some (Some (set_status_fields "completed" (clock w) m)).
Proof.
  intros Hnd Hres Hslot Hdue Ho.
  destruct (resolves_decompose _ _ _ _ _ Hnd Hres)
    as (ms & m0 & ps1 & ps2 & Hms & Hl & Hst & Hps & Hpre & Hslot0 & Hne).
  rewrite Hslot in Hslot0. injection Hslot0 as <-.
  destruct Hres as (Hpn & Hrn & Huser & Hscan).
  set (m' := set_status_fields "completed" (clock w) m) in *.
  assert (serves 1 w) as Hw1 by (by apply (outage_serves 1 5); [|lia]).
  assert (serves 1 (tick w)) as Hw2.
  { apply serves_tick. by apply (outage_serves 2 5); [|lia]. }
  assert (outage (tick (tick w)) = Some 3) as Ho2 by (by do 2 (apply outage_tick)).
  set (w3 := tick (set_projects
                     (ps1 ++ set_modules (MArray (<[j := Some m']> ms)) q :: ps2)
                     (tick (tick (tick w))))).
  assert (update_module_status (project_oid q) j "completed" (tick (tick w))
          = (w3, Ok (Some m'))) as Hup.
  { pose proof (update_module_status_writes (tick (tick w)) (project_oid q) j "completed"
                  ps1 q ps2 ms m (outage_serves 2 3 _ Ho2 ltac:(lia))) as H.
    rewrite !projects_tick, !clock_tick in H. by apply H. }
  assert (outage w3 = Some 1) as Ho3.
  { unfold w3. apply outage_tick. simpl. by apply outage_tick. }
  assert (projects w3 = ps1 ++ set_modules (MArray (<[j := Some m']> ms)) q :: ps2)
    as Hp3 by (unfold w3; by rewrite projects_tick).
  assert (calculate_predictive_delay fromisoformat m' (user_oid user) (tick w3)
          = (tick w3, Ok calculation_error_estimate)) as Hcalc.
  { apply calculate_predictive_delay_down; [done|]. by apply outage_tick. }
  exists (tick w3). eexists. split; [|split; [|split]].
  - unfold validate_github_push, try_except, validate_github_push_body.
    rewrite Hpn, Hrn. cbn [negb].
    rewrite (bind_ok _ _ _ _ _ (get_user_serves _ _ Hw1)), Huser.
    rewrite (bind_eq _ _ _ _ _ (find_module_serves _ _ _ _ Hw2)), projects_tick, Hscan.
    cbv beta iota.
    unfold bind at 1. unfold lift at 1. unfold index_module.
    rewrite Hms, Hl. cbv beta iota.
    rewrite (bind_ok _ _ _ _ _ Hup).
    fold m'. unfold m' at 1. rewrite module_truthy_completed.
    rewrite (bind_ok _ _ _ _ _
               (find_project_serves _ _ (outage_serves 1 1 _ Ho3 (le_n _)))).
    fold m'. rewrite (bind_ok _ _ _ _ _ Hcalc).
    rewrite Hp3, (find_project_first _ _ _ _ Hpre) by done.
    unfold bind, utcnow, ret. reflexivity.
  - reflexivity.
  - reflexivity.
  - rewrite projects_tick, Hp3.
    apply slot_written; [done..|]. by eapply lookup_lt_Some.
Qed.

End OutageFacts.

(** ** Statements about the matcher *)

(** C1, as amended.  The matcher returns the first assignment in scan order
    at which its test succeeds: an in-progress assignment of the user that
    either has a rule whose repository name equals the event's up to case,
    or has no rule repository.  A rule-matching assignment is therefore
    returned when nothing before it in the scan is such a candidate, and a
    no-rule assignment that comes first is returned instead of any
    rule-matching one behind it. *)
Theorem find_module_returns_first_candidate
    (w : World) (user_id : IdVal) (repo_name : string)
    (ps1 ps2 : list Project) (p : Project) (ms1 ms2 : list Slot) (m : ModuleDoc) :
  serves 1 w →
  projects w = ps1 ++ p :: ps2 →
  modules p = MArray (ms1 ++ Some m :: ms2) →
  Forall (project_passed_over user_id repo_name "in-progress") ps1 →
  Forall (passed_over user_id repo_name "in-progress") ms1 →
  assigned_with_status m user_id "in-progress" →
  (∃ g, rule_repo m g ∧ lower g = lower repo_name) ∨ no_rule_repo m →
  snd (find_module_in_projects user_id repo_name "in-progress" w)
  = Ok (Some (p, length ms1)).
Proof.
  intros Hw Hps Hp Hpre1 Hpre2 Ha Hkind.
  rewrite find_module_in_projects_scan by done. rewrite Hps.
  apply (scan_projects_first _ _ _ _ _ _ _ m ms2); try done.
  destruct Hkind as [(g & Hg & Hl)|Hno].
  - by eapply module_matches_rule.
  - by apply module_matches_fallback.
Qed.

(** C4.  An in-progress assignment of the user whose rule names a repository
    that differs from the event's, case ignored, is never what the matcher
    returns; and when it is the user's only in-progress assignment the
    matcher returns no assignment at all. *)
Theorem mismatching_rule_never_selected
    (w : World) (user_id : IdVal) (repo_name : string)
    (p : Project) (idx : nat) (ms : list Slot) (m : ModuleDoc) (g : string) :
  modules p = MArray ms →
  ms !! idx = Some (Some m) →
  assigned_with_status m user_id "in-progress" →
  rule_repo m g →
  lower g ≠ lower repo_name →
  snd (find_module_in_projects user_id repo_name "in-progress" w) ≠ Ok (Some (p, idx))
  ∧ ((∀ q ms' j m', q ∈ projects w → modules q = MArray ms' →
        ms' !! j = Some (Some m') →
        assigned_with_status m' user_id "in-progress" → q = p ∧ j = idx) →
     ∀ r, snd (find_module_in_projects user_id repo_name "in-progress" w) ≠ Ok (Some r)).
Proof.
  intros Hp Hidx _ Hg Hl.
  assert (∀ q j, snd (find_module_in_projects user_id repo_name "in-progress" w)
                 = Ok (Some (q, j)) → q = p → j = idx → False) as Hnot.
  { intros q j Hf -> ->. apply find_module_in_projects_found in Hf.
    apply scan_projects_sound in Hf as (_ & ms' & m' & Hp' & Hidx' & Hm').
    rewrite Hp in Hp'. injection Hp' as <-.
    rewrite Hidx in Hidx'. injection Hidx' as <-.
    by rewrite (module_matches_mismatch _ _ _ _ _ Hg Hl) in Hm'. }
  split.
  - intros Hf. by eapply Hnot.
  - intros Honly [q j] Hf.
    pose proof Hf as Hf'. apply find_module_in_projects_found in Hf'.
    apply scan_projects_sound in Hf' as (Hin & ms' & m' & Hp' & Hidx' & Hm').
    apply module_matches_assigned in Hm'.
    destruct (Honly q ms' j m' Hin Hp' Hidx' Hm') as [-> ->].
    by eapply Hnot.
Qed.

(** C10.  An assignment whose [validationRule] is present but empty, or has
    no [githubRepo], or an empty one, is tested exactly like the same
    assignment without a rule: if it is in-progress and assigned to the user
    the test succeeds for every repository name, and the matcher returns it
    as soon as the scan reaches it. *)
Theorem rule_without_repo_is_fallback
    (m : ModuleDoc) (rule : gmap string string) (user_id : IdVal) (repo_name : string) :
  validationRule m = Some rule →
  opt_str_truthy (rule !! "githubRepo") = false →
  (∀ st, module_matches m user_id repo_name st
         = module_matches (without_validationRule m) user_id repo_name st)
  ∧ (assigned_with_status m user_id "in-progress" →
     module_matches m user_id repo_name "in-progress" = true
     ∧ ∀ w ps1 p ps2 ms1 ms2,
         serves 1 w →
         projects w = ps1 ++ p :: ps2 →
         modules p = MArray (ms1 ++ Some m :: ms2) →
         Forall (project_passed_over user_id repo_name "in-progress") ps1 →
         Forall (passed_over user_id repo_name "in-progress") ms1 →
         snd (find_module_in_projects user_id repo_name "in-progress" w)
         = Ok (Some (p, length ms1))).
Proof.
  intros Hr Hg.
  assert (no_rule_repo m) as Hno.
  { intros rule' Hr'. rewrite Hr in Hr'. by injection Hr' as <-. }
  split.
  - intros st. unfold module_matches. simpl.
    destruct (_ && _); [|done].
    rewrite Hr. simpl. rewrite Hg. by rewrite andb_false_r.
  - intros Ha. split; [by apply module_matches_fallback|].
    intros w ps1 p ps2 ms1 ms2 Hw Hps Hp Hpre1 Hpre2.
    rewrite find_module_in_projects_scan by done. rewrite Hps.
    apply (scan_projects_first _ _ _ _ _ _ _ m ms2); try done.
    by apply module_matches_fallback.
Qed.

(** ** Statements about the store update *)

(** C2, as amended.  The update is unconditional: on the project with the
    given id and an assignment stored at the given position,
    [update_module_status] writes [status] and [completedAt] whatever the
    assignment's current status is and returns the assignment as written.
    It returns no module only when the write changes nothing, the stored
    values being already the new ones. *)
Theorem update_module_status_unconditional
    (w : World) (project_id : IdVal) (module_index : nat) (new_status : string)
    (ps1 ps2 : list Project) (p : Project) (ms : list Slot) (m : ModuleDoc) :
  serves 2 w →
  projects w = ps1 ++ p :: ps2 →
  Forall (λ q, project_oid q ≠ project_id) ps1 →
  project_oid p = project_id →
  modules p = MArray ms →
  ms !! module_index = Some (Some m) →
  let m' := set_status_fields new_status (clock w) m in
  (m' ≠ m →
   ∃ w', update_module_status project_id module_index new_status w = (w', Ok (Some m'))
         ∧ projects w'
           = ps1 ++ set_modules (MArray (<[module_index := Some m']> ms)) p :: ps2)
  ∧ (m' = m →
     ∃ w', update_module_status project_id module_index new_status w = (w', Ok None)
           ∧ projects w' = projects w).
Proof.
  intros Hw Hps Hpre Hp Hms Hidx m'.
  assert (serves 1 w) as Hw1 by (by eapply serves_weaken; [|done]; lia).
  unfold update_module_status, update_one, utcnow, bind.
  rewrite (store_call_serves _ Hw1), projects_tick, Hps.
  rewrite (update_first_hit _ _ _ _ _ (MArray (<[module_index := Some m']> ms)) Hpre Hp);
    [|by unfold set_positional; rewrite Hms, Hidx].
  rewrite Hms. split.
  - intros Hne. rewrite bool_decide_eq_false_2
      by (by rewrite (insert_slot_same _ _ _ _ Hidx)).
    simpl. unfold find_project, bind.
    rewrite store_call_serves by (by apply serves_set_projects, serves_tick).
    rewrite projects_tick. simpl.
    rewrite (find_project_first _ _ _ _ Hpre) by done.
    unfold lift, index_module. simpl.
    rewrite list_lookup_insert_eq by (by eapply lookup_lt_Some).
    eexists. split; [done|]. by rewrite projects_tick.
  - intros He. rewrite bool_decide_eq_true_2
      by (by rewrite (insert_slot_same _ _ _ _ Hidx)).
    simpl. eexists. split; [done|]. simpl.
    change m' with (set_status_fields new_status (clock w) m) in He |- *.
    rewrite He, list_insert_id by done. by rewrite <- Hms, set_modules_same.
Qed.

(** ** Statements about the estimator *)

Section EstimatorClaims.

Variable fromisoformat : string -> Result datetime.

(** C6, as amended.  For a completed assignment with a due date the
    estimator returns an estimate.  When its computation meets no internal
    failure (the due date is a date or a text that parses to a datetime that
    can be subtracted from the completion date, the store answers the
    history read, and the history is well-formed), [predictedDelay] is the
    signed number of whole days from the due date to the completion date,
    rounded down, and the reason names the case with the day count: late
    with the count when positive, on time when zero, early with the absolute
    count when negative.  Two days after the due date gives 2 and "2 days
    late", the due date itself gives 0 and "on time", three days before
    gives -3 and "3 days early".  When the computation meets an internal
    failure the estimate is the "Calculation error" record, with delay 0,
    whatever the two dates. *)
Theorem delay_is_signed_whole_days
    (module : ModuleDoc) (user_id : IdVal) (w : World) (due completed : DateField) :
  dueDate module = Some due →
  date_truthy (Some due) = true →
  completedAt module = Some completed →
  ∃ w' est,
    calculate_predictive_delay fromisoformat module user_id w = (w', Ok est)
    ∧ (∀ dd delta,
         due_date_obj_of fromisoformat due = Ok dd →
         field_sub completed dd = Ok delta →
         outage w ≠ Some 0 →
         history_well_formed user_id (projects w) = true →
         predictedDelay est = (delta / day_us)%Z
         ∧ ((0 < predictedDelay est)%Z →
            delayReason est
            = "Completed " +:+ str_int (predictedDelay est) +:+ " days late")
         ∧ (predictedDelay est = 0%Z → delayReason est = "Completed on time")
         ∧ ((predictedDelay est < 0)%Z →
            delayReason est
            = "Completed " +:+ str_int (- predictedDelay est) +:+ " days early")
         ∧ (delta = (2 * day_us)%Z →
            predictedDelay est = 2%Z ∧ delayReason est = "Completed 2 days late")
         ∧ (delta = 0%Z →
            predictedDelay est = 0%Z ∧ delayReason est = "Completed on time")
         ∧ (delta = (-3 * day_us)%Z →
            predictedDelay est = (-3)%Z ∧ delayReason est = "Completed 3 days early"))
    ∧ (¬ estimator_computes fromisoformat module user_id w →
       est = {| predictedDelay := 0; delayReason := "Calculation error";
                confidence := "low"; avgCompletionTime := None;
                historicalDataPoints := 0 |}).
Proof.
  intros Hd Ht Hc.
  assert (date_truthy (dueDate module) = true) as Ht' by (by rewrite Hd).
  destruct (estimator_computes_cases fromisoformat module user_id w)
    as [((dd & delta & Hp & Hs) & Ho & Hwf)|Hn].
  - pose proof (calculate_predictive_delay_computes fromisoformat module user_id w
                  dd delta Ht' Hp Hs Ho Hwf) as Hcalc.
    rewrite Hd in Hp. rewrite Hc in Hs. simpl in Hp, Hs.
    eexists _, _. split; [exact Hcalc|]. split.
    + intros dd' delta' Hp' Hs' _ _.
      rewrite Hp in Hp'. injection Hp' as <-.
      rewrite Hs in Hs'. injection Hs' as <-. simpl.
      split; [done|]. split; [apply reason_of_late|].
      split; [fold (days delta); by intros ->|].
      split; [apply reason_of_early|].
      repeat split; by subst delta.
    + intros Hn. destruct Hn. split; [|done].
      exists dd, delta. by rewrite Hd, Hc.
  - destruct (calculate_predictive_delay_fails fromisoformat module user_id w Ht' Hn)
      as (w' & Hcalc).
    exists w', calculation_error_estimate. split; [exact Hcalc|]. split; [|done].
    intros dd delta Hp Hs Ho Hwf. destruct Hn. split; [|done].
    exists dd, delta. by rewrite Hd, Hc.
Qed.


(** C8, as amended.  With a due date present the estimator returns an
    estimate.  When its computation meets no internal failure, the
    confidence is determined by the number of usable historical data points
    in the store (the completed assignments of the user that carry both
    timestamps, the first 20 of them being considered, counted when both
    timestamps hold a value): "high" exactly when that number is at least 5,
    "medium" exactly when it is 2 to 4, "low" exactly when it is 0 or 1; the
    number is at most 20 and is reported as [historicalDataPoints].  When
    the computation meets an internal failure the confidence is "low" and 0
    points are reported, whatever the history. *)
Theorem confidence_follows_history_count
    (module : ModuleDoc) (user_id : IdVal) (w : World) :
  date_truthy (dueDate module) = true →
  ∃ w' est,
    calculate_predictive_delay fromisoformat module user_id w = (w', Ok est)
    ∧ (estimator_computes fromisoformat module user_id w →
       historicalDataPoints est = usable_points user_id (projects w)
       ∧ (usable_points user_id (projects w) ≤ 20)%nat
       ∧ (confidence est = "high" ↔ (5 ≤ usable_points user_id (projects w))%nat)
       ∧ (confidence est = "medium"
          ↔ (2 ≤ usable_points user_id (projects w)
             ∧ usable_points user_id (projects w) ≤ 4)%nat)
       ∧ (confidence est = "low" ↔ (usable_points user_id (projects w) ≤ 1)%nat))
    ∧ (¬ estimator_computes fromisoformat module user_id w →
       confidence est = "low" ∧ historicalDataPoints est = 0).
Proof.
  intros Ht.
  destruct (estimator_computes_cases fromisoformat module user_id w)
    as [((dd & delta & Hp & Hs) & Ho & Hwf)|Hn].
  - pose proof (calculate_predictive_delay_computes fromisoformat module user_id w
                  dd delta Ht Hp Hs Ho Hwf) as Hcalc.
    eexists _, _. split; [exact Hcalc|]. split.
    + intros _. simpl. split; [done|].
      split; [apply usable_points_bound|].
      split; [apply confidence_of_high|].
      split; [apply confidence_of_medium|apply confidence_of_low].
    + intros Hn. destruct Hn. split; [eauto|done].
  - destruct (calculate_predictive_delay_fails fromisoformat module user_id w Ht Hn)
      as (w' & Hcalc).
    exists w', calculation_error_estimate. split; [exact Hcalc|]. split; [done|].
    done.
Qed.

(** C9.  The estimator is total and never raises: on every input it returns
    an estimate, and whenever its computation fails internally, with any
    exception, the estimate is exactly the "Calculation error" record. *)
Theorem calculate_predictive_delay_never_raises
    (module : ModuleDoc) (user_id : IdVal) (w : World) :
  ∃ w' est,
    calculate_predictive_delay fromisoformat module user_id w = (w', Ok est)
    ∧ (∀ w'' e,
         calculate_predictive_delay_body fromisoformat module user_id w = (w'', Raise e) →
         est = {| predictedDelay := 0; delayReason := "Calculation error";
                  confidence := "low"; avgCompletionTime := None;
                  historicalDataPoints := 0 |}).
Proof.
  destruct (calculate_predictive_delay_cases fromisoformat module user_id w)
    as [(w' & est & Hbody & Hcalc)|(w' & e & Hbody & Hcalc)].
  - exists w', est. split; [done|]. intros w'' e Hbody'.
    rewrite Hbody in Hbody'. done.
  - exists w', calculation_error_estimate. split; [done|]. done.
Qed.

End EstimatorClaims.

(** ** Statements about the orchestrator and the endpoint *)

Section OrchestratorClaims.

Variable fromisoformat : string -> Result datetime.

(** C3, as amended.  For an event whose body is well-shaped and names a
    pusher and a repository, a failure of the store while the event is
    processed is never surfaced as a distinct failure.  When the failing
    operation is the user lookup, the read of the projects, the status
    update, the read that follows the update or the read of the fresh
    project, [validate_github_push] returns [None] and the endpoint answers
    with the HTTP 200 "success" body it gives when no task matched, the one
    it gives for a pusher that is no known user; in the last two cases the
    assignment has been written as completed.  When the failing operation is
    the history read of the delay estimate of an assignment with a due date,
    the estimator absorbs it: the result is returned with the "Calculation
    error" estimate and the endpoint answers that the task was completed,
    after its two broadcasts.  Project ids are unique, as the store
    guarantees. *)
Theorem store_failure_is_not_surfaced (b : EventBody) (w : World) :
  well_shaped b = true →
  opt_str_truthy (pusher_name (event_payload b)) = true →
  opt_str_truthy (repository_name (event_payload b)) = true →
  let payload := event_payload b in
  let no_match := JsonReply (no_match_response (event_summary b)) in
  let known u :=
    List.find (λ x, bool_decide (githubUsername x = Some (default "" (pusher_name payload))))
              (users w) = u in
  (outage w = Some 0 →
   validate_github_push fromisoformat payload w = (w, Ok None)
   ∧ github_webhook fromisoformat (Json (ObjectJson b)) w = (w, Ok no_match))
  ∧ (∀ user, known (Some user) → outage w = Some 1 →
       validate_github_push fromisoformat payload w = (tick w, Ok None)
       ∧ github_webhook fromisoformat (Json (ObjectJson b)) w = (tick w, Ok no_match))
  ∧ (∀ user q j m,
       NoDup (project_oid <$> projects w) →
       resolves payload w user q j →
       slot_at (project_oid q) j (projects w) = Some (Some m) →
       (outage w = Some 2 →
        ∃ w', validate_github_push fromisoformat payload w = (w', Ok None)
              ∧ github_webhook fromisoformat (Json (ObjectJson b)) w = (w', Ok no_match)
              ∧ projects w' = projects w)
       ∧ (outage w = Some 3 ∨ outage w = Some 4 →
          ∃ w', validate_github_push fromisoformat payload w = (w', Ok None)
                ∧ github_webhook fromisoformat (Json (ObjectJson b)) w = (w', Ok no_match)
                ∧ slot_at (project_oid q) j (projects w')
                  = Some (Some (set_status_fields "completed" (clock w) m)))
       ∧ (outage w = Some 5 → date_truthy (dueDate m) = true →
          ∃ w' res,
            validate_github_push fromisoformat payload w = (w', Ok (Some res))
            ∧ delay res = {| predictedDelay := 0; delayReason := "Calculation error";
                             confidence := "low"; avgCompletionTime := None;
                             historicalDataPoints := 0 |}
            ∧ github_webhook fromisoformat (Json (ObjectJson b)) w
              = (broadcast_all (broadcasts false res (clock w)) w',
                 Ok (JsonReply (completed_response res)))
            ∧ slot_at (project_oid q) j (projects w')
              = Some (Some (set_status_fields "completed" (clock w) m))))
  ∧ (known None → serves 1 w →
     github_webhook fromisoformat (Json (ObjectJson b)) w = (tick w, Ok no_match))
  ∧ http_status (no_match_response (event_summary b)) = 200
  ∧ body_status (no_match_response (event_summary b)) = "success"
  ∧ message (no_match_response (event_summary b))
    = "Webhook received but no task matched validation criteria".
Proof.
  intros Hs Hpn Hrn payload no_match known.
  assert (∀ w', validate_github_push fromisoformat payload w = (w', Ok None) →
            github_webhook fromisoformat (Json (ObjectJson b)) w = (w', Ok no_match))
    as Hnone.
  { intros w' Hv. by rewrite (github_webhook_well_shaped fromisoformat b w w' None Hs Hv). }
  split; [|split; [|split; [|split; [|done]]]].
  - intros Ho.
    pose proof (validate_down_at_user fromisoformat payload w Hpn Hrn Ho) as Hv.
    split; [done|]. by apply Hnone.
  - intros user Hu Ho.
    pose proof (validate_down_at_projects fromisoformat payload w user Hpn Hrn Hu Ho) as Hv.
    split; [done|]. by apply Hnone.
  - intros user q j m Hnd Hres Hslot. split; [|split].
    + intros Ho.
      pose proof (validate_down_at_update fromisoformat payload w user q j Hres Ho) as Hv.
      exists (tick (tick w)). split; [done|]. split; [by apply Hnone|].
      by rewrite !projects_tick.
    + intros [Ho|Ho].
      * destruct (validate_down_at_reread fromisoformat payload w user q j m
                    Hnd Hres Hslot Ho) as (w' & Hv & Hw).
        exists w'. split; [done|]. split; [by apply Hnone|done].
      * destruct (validate_down_at_fresh fromisoformat payload w user q j m
                    Hnd Hres Hslot Ho) as (w' & Hv & Hw).
        exists w'. split; [done|]. split; [by apply Hnone|done].
    + intros Ho Hdue.
      destruct (validate_down_at_history fromisoformat payload w user q j m
                  Hnd Hres Hslot Hdue Ho) as (w' & res & Hv & Hd & _ & Hw).
      exists w', res. split; [done|]. split; [done|]. split; [|done].
      rewrite (github_webhook_well_shaped fromisoformat b w w' (Some res) Hs Hv).
      by apply validate_github_push_effect in Hv as (_ & -> & _).
  - intros Hu Hw. apply Hnone.
    by apply validate_unknown_user.
Qed.

(** C5, as amended.  When processing an event changes the stored projects,
    whatever it returns, it has completed one assignment that was
    in-progress, and a replay of the event against the resulting store never
    selects that assignment again, since it is no longer in-progress, and
    never writes to it again.  The replay returns [None] and leaves the
    stored projects as they are provided no other assignment in the
    resulting store passes the matcher's test for the event.  Project ids
    are unique, as the store guarantees. *)
Theorem replay_spares_completed_assignment
    (payload : Payload) (w0 w1 : World) (r1 : Result (option CompletionResult)) :
  NoDup (project_oid <$> projects w0) →
  validate_github_push fromisoformat payload w0 = (w1, r1) →
  projects w1 ≠ projects w0 →
  ∃ user q j m,
    resolves payload w0 user q j
    ∧ slot_at (project_oid q) j (projects w0) = Some (Some m)
    ∧ status m = Some "in-progress"
    ∧ slot_at (project_oid q) j (projects w1)
      = Some (Some (set_status_fields "completed" (clock w0) m))
    ∧ ∀ w2, users w2 = users w1 → projects w2 = projects w1 →
        (∀ q' j',
           snd (find_module_in_projects (user_oid user)
                  (default "" (repository_name payload)) "in-progress" w2)
           = Ok (Some (q', j')) →
           ¬ (project_oid q' = project_oid q ∧ j' = j))
        ∧ (∀ w3 r, validate_github_push fromisoformat payload w2 = (w3, r) →
             slot_at (project_oid q) j (projects w3)
             = slot_at (project_oid q) j (projects w1))
        ∧ ((∀ q' ms' j' m',
              q' ∈ projects w1 → modules q' = MArray ms' →
              ms' !! j' = Some (Some m') →
              project_oid q' ≠ project_oid q ∨ j' ≠ j →
              module_matches m' (user_oid user)
                (default "" (repository_name payload)) "in-progress" = false) →
           ∃ w3, validate_github_push fromisoformat payload w2 = (w3, Ok None)
                 ∧ projects w3 = projects w2).
Proof.
  intros Hnd Hv Hchanged.
  pose proof (validate_github_push_effect _ _ _ _ _ Hv)
    as (Hu1 & Hc1 & _ & _ & [[Hsame _]|(user & q & j & ps' & n & Hres & Hw & Hp1)]);
    [done|].
  pose proof Hres as (Hpn & Hrn & Huser & Hscan).
  destruct (completion_write_scanned _ _ _ _ _ _ _ Hnd Hscan Hw)
    as (m & Hm0 & [_ Hst] & Hm1 & Hnd1).
  rewrite <- Hp1 in Hm1, Hnd1.
  exists user, q, j, m. do 4 (split; [done|]).
  intros w2 Hu2 Hp2.
  assert (∀ q' j',
            scan_projects (projects w2) (user_oid user)
              (default "" (repository_name payload)) "in-progress"
            = Ok (Some (q', j')) →
            ¬ (project_oid q' = project_oid q ∧ j' = j)) as Hnot.
  { intros q' j' Hs. rewrite Hp2 in Hs.
    by eapply scan_skips_other_status. }
  assert (∀ user' q' j', resolves payload w2 user' q' j' →
            user' = user ∧ ¬ (project_oid q' = project_oid q ∧ j' = j)) as Hres2.
  { intros user' q' j' (_ & _ & Huser' & Hscan').
    rewrite Hu2, Hu1, Huser in Huser'. injection Huser' as <-. split; [done|].
    by apply Hnot. }
  split; [|split].
  - intros q' j' Hf. apply Hnot. by apply find_module_in_projects_found.
  - intros w3 r Hv2.
    pose proof (validate_github_push_effect _ _ _ _ _ Hv2)
      as (_ & _ & o & _ & [[-> _]|(user' & q' & j' & ps'' & n' & Hres' & Hw' & ->)]).
    { by rewrite Hp2. }
    destruct (Hres2 _ _ _ Hres') as [-> Hne].
    destruct Hres' as (_ & _ & _ & Hscan').
    rewrite <- Hp2.
    eapply completion_write_elsewhere; [by rewrite Hp2|done..].
  - intros Hothers.
    destruct (validate_github_push fromisoformat payload w2) as [w3 r] eqn:Hv2.
    pose proof (validate_github_push_effect _ _ _ _ _ Hv2)
      as (_ & _ & o & -> & [[Hp3 ->]|(user' & q' & j' & ps'' & n' & Hres' & _)]).
    { eauto. }
    destruct (Hres2 _ _ _ Hres') as [-> Hne].
    destruct Hres' as (_ & _ & _ & Hscan'). rewrite Hp2 in Hscan'.
    apply scan_projects_sound in Hscan' as (Hin & ms' & m' & Hms' & Hl' & Hm').
    rewrite (Hothers q' ms' j' m' Hin Hms' Hl') in Hm'; [done|].
    destruct (decide (project_oid q' = project_oid q)); [|by left].
    destruct (decide (j' = j)); [|by right]. by destruct Hne.
Qed.

End OrchestratorClaims.

(** ** Further properties of the matcher *)

Section MatcherExtras.

Variables (user_id : IdVal) (repo_name st : string).

Lemma scan_modules_inv ms k i :
  scan_modules ms k user_id repo_name st = Ok (Some i) →
  ∃ ms1 m ms2, ms = ms1 ++ Some m :: ms2 ∧ i = k + length ms1
               ∧ Forall (passed_over user_id repo_name st) ms1
               ∧ module_matches m user_id repo_name st = true.
Proof.
  revert k. induction ms as [|[m|] ms IH]; intros k; simpl; [done| |done].
  destruct (module_matches m user_id repo_name st) eqn:Hm.
  - intros [= <-]. exists [], m, ms. simpl. repeat split; [lia|constructor|done].
  - intros H. destruct (IH _ H) as (ms1 & m' & ms2 & -> & -> & Hpre & Hm').
    exists (Some m :: ms1), m', ms2. simpl. repeat split; [lia| |done].
    constructor; [|done]. by exists m.
Qed.

Lemma scan_modules_none_inv ms k :
  scan_modules ms k user_id repo_name st = Ok None →
  Forall (passed_over user_id repo_name st) ms.
Proof.
  revert k. induction ms as [|[m|] ms IH]; intros k; simpl; [by constructor| |done].
  destruct (module_matches m user_id repo_name st) eqn:Hm; [done|].
  intros H. constructor; [by exists m|by eapply IH].
Qed.

Lemma scan_modules_raise_inv ms k e :
  scan_modules ms k user_id repo_name st = Raise e →
  e = AttributeError ∧ None ∈ ms.
Proof.
  revert k. induction ms as [|[m|] ms IH]; intros k; simpl; [done| |].
  - destruct (module_matches m user_id repo_name st); [done|].
    intros H. destruct (IH _ H) as [-> Hin]. split; [done|by right].
  - intros [= <-]. split; [done|by left].
Qed.

Lemma scan_projects_inv ps p j :
  scan_projects ps user_id repo_name st = Ok (Some (p, j)) →
  ∃ ps1 ps2 ms1 m ms2,
    ps = ps1 ++ p :: ps2
    ∧ Forall (project_passed_over user_id repo_name st) ps1
    ∧ modules p = MArray (ms1 ++ Some m :: ms2)
    ∧ j = length ms1
    ∧ Forall (passed_over user_id repo_name st) ms1
    ∧ module_matches m user_id repo_name st = true.
Proof.
  induction ps as [|q ps IH]; simpl; [done|].
  assert (project_passed_over user_id repo_name st q →
          scan_projects ps user_id repo_name st = Ok (Some (p, j)) →
          ∃ ps1 ps2 ms1 m ms2,
            q :: ps = ps1 ++ p :: ps2
            ∧ Forall (project_passed_over user_id repo_name st) ps1
            ∧ modules p = MArray (ms1 ++ Some m :: ms2)
            ∧ j = length ms1
            ∧ Forall (passed_over user_id repo_name st) ms1
            ∧ module_matches m user_id repo_name st = true) as Hrest.
  { intros Hq H. destruct (IH H) as (ps1 & ps2 & ms1 & m & ms2 & -> & ? & ? & ? & ? & ?).
    exists (q :: ps1), ps2, ms1, m, ms2. repeat split; try done. by constructor. }
  destruct (modules q) as [|ms|d] eqn:E.
  - apply Hrest. intros ms. by rewrite E.
  - destruct (scan_modules ms 0 user_id repo_name st) as [[i|]|e] eqn:Hs; [| |done].
    + intros [= <- <-].
      destruct (scan_modules_inv _ _ _ Hs) as (ms1 & m & ms2 & -> & -> & Hpre & Hm).
      exists [], ps, ms1, m, ms2. repeat split; done.
    + apply Hrest. intros ms'. rewrite E. intros [= <-].
      by eapply scan_modules_none_inv.
  - apply Hrest. intros ms. by rewrite E.
Qed.

Lemma scan_projects_none_inv ps :
  scan_projects ps user_id repo_name st = Ok None →
  Forall (project_passed_over user_id repo_name st) ps.
Proof.
  induction ps as [|q ps IH]; simpl; [by constructor|].
  destruct (modules q) as [|ms|d] eqn:E.
  - intros H. constructor; [|by apply IH]. intros ms. by rewrite E.
  - destruct (scan_modules ms 0 user_id repo_name st) as [[i|]|e] eqn:Hs; try done.
    intros H. constructor; [|by apply IH]. intros ms'. rewrite E. intros [= <-].
    by eapply scan_modules_none_inv.
  - intros H. constructor; [|by apply IH]. intros ms. by rewrite E.
Qed.

Lemma scan_projects_raise_inv ps e :
  scan_projects ps user_id repo_name st = Raise e →
  e = AttributeError ∧ ∃ p ms, p ∈ ps ∧ modules p = MArray ms ∧ None ∈ ms.
Proof.
  induction ps as [|q ps IH]; simpl; [done|].
  assert (scan_projects ps user_id repo_name st = Raise e →
          e = AttributeError
          ∧ ∃ p ms, p ∈ q :: ps ∧ modules p = MArray ms ∧ None ∈ ms) as Hrest.
  { intros H. destruct (IH H) as (-> & p & ms & Hp & Hms & Hnull).
    split; [done|]. exists p, ms. split; [by right|done]. }
  destruct (modules q) as [|ms|d] eqn:E; try done.
  destruct (scan_modules ms 0 user_id repo_name st) as [[i|]|e'] eqn:Hs; try done.
  intros [= <-]. destruct (scan_modules_raise_inv _ _ _ Hs) as [-> Hnull].
  split; [done|]. exists q, ms. split; [by left|done].
Qed.

End MatcherExtras.

(** X7.  The test the matcher makes on one module succeeds exactly when the
    module has the wanted status, its assignee prints as the user's id, and
    either it has no rule repository (no rule, an empty rule, a missing or
    empty [githubRepo]) or its rule repository equals the event's repository
    up to case. *)
Theorem module_matches_iff
    (m : ModuleDoc) (user_id : IdVal) (repo_name st : string) :
  module_matches m user_id repo_name st = true
  ↔ assigned_with_status m user_id st
    ∧ (no_rule_repo m ∨ ∃ g, rule_repo m g ∧ lower g = lower repo_name).
Proof.
  split.
  - intros Hm. split; [by eapply module_matches_assigned|].
    unfold module_matches in Hm.
    destruct (_ && _) in Hm; [|done].
    destruct (validationRule m) as [rule|] eqn:Hr; simpl in Hm;
      [|left; intros rule ?; congruence].
    destruct (rule !! "githubRepo") as [g|] eqn:Hg; simpl in Hm.
    + destruct (str_truthy g) eqn:Ht.
      * right. exists g. rewrite (dict_truthy_lookup _ _ _ Hg) in Hm. simpl in Hm.
        apply bool_decide_eq_true_1 in Hm. split; [|done].
        exists rule. split; [done|]. split; [done|]. by intros ->.
      * left. intros rule' Hr'. rewrite Hr in Hr'. injection Hr' as <-. by rewrite Hg.
    + left. intros rule' Hr'. rewrite Hr in Hr'. injection Hr' as <-. by rewrite Hg.
  - intros [Ha [Hno|(g & Hg & Hl)]].
    + by apply module_matches_fallback.
    + by eapply module_matches_rule.
Qed.

(** X8.  What the matcher returns is the first match of the scan: the
    returned project is stored, the returned position holds a module that
    passes the test, and every array element before it, in the same project
    and in the projects before, is a module that fails the test.  It returns
    nothing only when every element of every stored array is a module that
    fails the test. *)
Theorem find_module_in_projects_first_match
    (w : World) (user_id : IdVal) (repo_name st : string) :
  (∀ p j, snd (find_module_in_projects user_id repo_name st w) = Ok (Some (p, j)) →
     ∃ ps1 ps2 ms1 m ms2,
       projects w = ps1 ++ p :: ps2
       ∧ Forall (project_passed_over user_id repo_name st) ps1
       ∧ modules p = MArray (ms1 ++ Some m :: ms2)
       ∧ j = length ms1
       ∧ Forall (passed_over user_id repo_name st) ms1
       ∧ module_matches m user_id repo_name st = true)
  ∧ (snd (find_module_in_projects user_id repo_name st w) = Ok None →
     Forall (project_passed_over user_id repo_name st) (projects w)).
Proof.
  split.
  - intros p j H. apply find_module_in_projects_found in H.
    by apply scan_projects_inv.
  - intros H. apply find_module_in_projects_found in H.
    by apply scan_projects_none_inv.
Qed.

(** X9.  The matcher raises only a store error, when the read of the
    projects fails, or an attribute error, and the latter only when some
    stored [modules] array holds a null element; it does not write. *)
Theorem find_module_in_projects_failures
    (w w' : World) (user_id : IdVal) (repo_name st : string) (e : Exc) :
  find_module_in_projects user_id repo_name st w = (w', Raise e) →
  projects w' = projects w
  ∧ ((e = StoreError ∧ outage w = Some 0)
     ∨ (e = AttributeError
        ∧ ∃ p ms, p ∈ projects w ∧ modules p = MArray ms ∧ None ∈ ms)).
Proof.
  unfold find_module_in_projects, find_projects, bind, store_call, lift.
  destruct (outage w) as [[|n]|] eqn:Ho; simpl.
  - intros [= <- <-]. split; [done|]. by left.
  - intros [= <- H]. split; [done|]. right. by eapply scan_projects_raise_inv.
  - intros [= <- H]. split; [done|]. right. by eapply scan_projects_raise_inv.
Qed.

Lemma lower_ascii_idem (c : ascii) : lower_ascii (lower_ascii c) = lower_ascii c.
Proof.
  destruct c as [b0 b1 b2 b3 b4 b5 b6 b7].
  destruct b0, b1, b2, b3, b4, b5, b6, b7; reflexivity.
Qed.

Lemma lower_idem (s : string) : lower (lower s) = lower s.
Proof. induction s as [|c s IH]; simpl; [done|]. by rewrite lower_ascii_idem, IH. Qed.

Lemma module_matches_case m user_id r1 r2 st :
  lower r1 = lower r2 →
  module_matches m user_id r1 st = module_matches m user_id r2 st.
Proof. intros H. unfold module_matches. by rewrite H. Qed.

Lemma scan_modules_case ms k user_id r1 r2 st :
  lower r1 = lower r2 →
  scan_modules ms k user_id r1 st = scan_modules ms k user_id r2 st.
Proof.
  intros H. revert k. induction ms as [|[m|] ms IH]; intros k; simpl; [done| |done].
  by rewrite (module_matches_case m user_id r1 r2 st H), IH.
Qed.

Lemma scan_projects_case ps user_id r1 r2 st :
  lower r1 = lower r2 →
  scan_projects ps user_id r1 st = scan_projects ps user_id r2 st.
Proof.
  intros H. induction ps as [|p ps IH]; simpl; [done|].
  destruct (modules p); try done.
  by rewrite (scan_modules_case _ _ user_id r1 r2 st H), IH.
Qed.

(** X10.  The matcher does not see the case of the event's repository name:
    two names that are equal once lower-cased give the same outcome on every
    store, and so does a name and its lower-cased form. *)
Theorem find_module_in_projects_ignores_case
    (w : World) (user_id : IdVal) (r1 r2 st : string) :
  lower r1 = lower r2 →
  find_module_in_projects user_id r1 st w = find_module_in_projects user_id r2 st w
  ∧ find_module_in_projects user_id (lower r1) st w
    = find_module_in_projects user_id r1 st w.
Proof.
  intros H.
  assert (∀ a b, lower a = lower b →
            find_module_in_projects user_id a st w
            = find_module_in_projects user_id b st w) as Hgen.
  { intros a b Hab. unfold find_module_in_projects, bind.
    destruct (find_projects w) as [w1 [ps|e]]; [|done].
    unfold lift. by rewrite (scan_projects_case ps user_id a b st Hab). }
  split; [by apply Hgen|]. apply Hgen. apply lower_idem.
Qed.

(** X11.  The matcher compares ids as text while the history query compares
    them as typed values: an assignment whose assignee is stored as the text
    of the user's ObjectId is tested by the matcher exactly like one stored
    with the ObjectId itself, yet it never counts in that user's history. *)
Theorem text_assignee_matched_but_not_counted
    (m : ModuleDoc) (hex repo_name st : string) :
  assignedToUserId m = Some (IdText hex) →
  module_matches m (ObjectId hex) repo_name st
  = module_matches (with_assignee (Some (ObjectId hex)) m) (ObjectId hex) repo_name st
  ∧ history_match (ObjectId hex) (Some m) = false
  ∧ (status m = Some "completed" → is_Some (completedAt m) → is_Some (createdAt m) →
     history_match (ObjectId hex) (Some (with_assignee (Some (ObjectId hex)) m)) = true).
Proof.
  intros Ha. split; [|split].
  - unfold module_matches. simpl. by rewrite Ha.
  - unfold history_match. rewrite Ha. by rewrite bool_decide_eq_false_2.
  - intros Hs Hc Hcr. unfold history_match. simpl.
    by rewrite !bool_decide_eq_true_2.
Qed.

(** ** Further properties of the store update *)

Lemma slot_at_update_first_kept pid k upd ps ps' n s :
  update_first pid upd ps = Ok (ps', n) →
  (∀ mf mf', upd mf = Ok mf' → slot_in mf k = Some s → slot_in mf' k = Some s) →
  slot_at pid k ps = Some s → slot_at pid k ps' = Some s.
Proof.
  revert ps' n. induction ps as [|p ps IH]; intros ps' n; simpl.
  - by intros [= <- _].
  - intros Hup Hkeep. unfold slot_at. simpl.
    destruct (bool_decide (project_oid p = pid)) eqn:E.
    + destruct (upd (modules p)) as [mf|] eqn:Hmf; [|done].
      injection Hup as <- _. simpl. rewrite E. by apply Hkeep.
    + destruct (update_first pid upd ps) as [[rest m]|] eqn:Hrest; [|done].
      injection Hup as <- _. simpl. rewrite E. by apply (IH rest m).
Qed.

Lemma set_positional_kept idx f k mf mf' s :
  k ≠ idx →
  set_positional idx f mf = Ok mf' →
  slot_in mf k = Some s → slot_in mf' k = Some s.
Proof.
  intros Hk. destruct mf as [|ms|d]; simpl; [done| |done].
  destruct (ms !! idx) as [[m|]|] eqn:Hidx; [| done |].
  - intros [= <-]. simpl. by rewrite list_lookup_insert_ne.
  - intros [= <-]. simpl. intros Hs. by rewrite (lookup_app_l_Some _ _ _ _ Hs).
Qed.

(** X12.  An update that names no stored project writes nothing and
    returns no module; the only failure it can meet is the store being
    down. *)
Theorem update_module_status_unknown_project
    (w : World) (project_id : IdVal) (module_index : nat) (new_status : string) :
  Forall (λ q, project_oid q ≠ project_id) (projects w) →
  ∃ w' r,
    update_module_status project_id module_index new_status w = (w', r)
    ∧ projects w' = projects w
    ∧ users w' = users w
    ∧ ((r = Ok None ∧ outage w ≠ Some 0) ∨ (r = Raise StoreError ∧ outage w = Some 0)).
Proof.
  intros Hnone. unfold update_module_status, update_one, utcnow, bind, store_call.
  destruct (outage w) as [[|n]|] eqn:Ho; simpl.
  - eexists _, _. split; [done|]. split; [done|]. split; [done|]. by right.
  - rewrite (update_first_miss _ _ _ Hnone). simpl.
    eexists _, _. split; [done|]. split; [done|]. split; [done|]. by left.
  - rewrite (update_first_miss _ _ _ Hnone). simpl.
    eexists _, _. split; [done|]. split; [done|]. split; [done|]. by left.
Qed.

(** X13.  Whatever its outcome, an update keeps the stored projects' ids in
    their order and the users, leaves every assignment of every other
    project where it was, and keeps every other element of the addressed
    project's array. *)
Theorem update_module_status_touches_one_slot
    (w w' : World) (project_id : IdVal) (module_index : nat) (new_status : string)
    (r : Result (option ModuleDoc)) :
  update_module_status project_id module_index new_status w = (w', r) →
  project_oid <$> projects w' = project_oid <$> projects w
  ∧ users w' = users w
  ∧ (∀ pid k, pid ≠ project_id →
       slot_at pid k (projects w') = slot_at pid k (projects w))
  ∧ (∀ k s, k ≠ module_index →
       slot_at project_id k (projects w) = Some s →
       slot_at project_id k (projects w') = Some s).
Proof.
  intros H. apply (update_module_status_effect (λ _, Raise ValueError)) in H
    as (Hu & _ & [[Hp _]|(ps' & n & Hup & Hp)]).
  { rewrite Hp. done. }
  rewrite Hp. split; [exact (update_first_ids _ _ _ _ _ Hup)|]. split; [done|]. split.
  - intros pid k Hne. apply (slot_at_update_first _ _ _ _ _ _ _ Hup). congruence.
  - intros k s Hk Hs. apply (slot_at_update_first_kept _ _ _ _ _ _ _ Hup); [|exact Hs].
    intros mf mf'. by apply set_positional_kept.
Qed.

(** ** Further properties of the estimator *)

(** X16.  The day count is rounded down, so a completion less than a day
    after the due date counts as on time, a completion a full day or more
    after it as late, and a completion before the due date, by however
    little, as at least one day early. *)
Theorem whole_days_round_down (delta : Z) :
  (day_us * days delta ≤ delta < day_us * (days delta + 1))%Z
  ∧ (days delta = 0%Z ↔ (0 ≤ delta < day_us)%Z)
  ∧ ((0 < days delta)%Z ↔ (day_us ≤ delta)%Z)
  ∧ ((days delta < 0)%Z ↔ (delta < 0)%Z)
  ∧ ((0 ≤ delta < day_us)%Z → reason_of (days delta) = "Completed on time").
Proof.
  assert (day_us * days delta ≤ delta < day_us * (days delta + 1))%Z as Hb.
  { unfold days. split.
    - apply Z.mul_div_le. done.
    - rewrite Z.mul_add_distr_l, Z.mul_1_r.
      pose proof (Z.mod_pos_bound delta day_us eq_refl).
      pose proof (Z.div_mod delta day_us). lia. }
  unfold day_us in *.
  split; [done|]. split; [lia|]. split; [lia|]. split; [lia|].
  intros H. assert (days delta = 0%Z) as -> by lia. done.
Qed.

Section EstimatorExtras.

Variable fromisoformat : string -> Result datetime.

(** X14.  The estimator only reads: whatever its input, it returns an
    estimate, leaves the projects, the users, the clock and the broadcast
    log as they were, and makes at most one round trip to the database. *)
Theorem calculate_predictive_delay_reads_only
    (module : ModuleDoc) (user_id : IdVal) (w w' : World) (r : Result DelayEstimate) :
  calculate_predictive_delay fromisoformat module user_id w = (w', r) →
  (∃ est, r = Ok est)
  ∧ projects w' = projects w ∧ users w' = users w ∧ clock w' = clock w
  ∧ emitted w' = emitted w
  ∧ (w' = w ∨ w' = tick w).
Proof.
  intros H. pose proof H as Hw. apply calculate_predictive_delay_world in Hw.
  destruct Hw as (Hp & Hu & Hc & He). split; [|do 4 (split; [done|])].
  - destruct (calculate_predictive_delay_cases fromisoformat module user_id w)
      as [(w1 & est & _ & Hcalc)|(w1 & e & _ & Hcalc)];
      rewrite Hcalc in H; injection H as <- <-; eauto.
  - revert H.
    unfold calculate_predictive_delay, try_except, calculate_predictive_delay_body.
    destruct (negb _); [intros [= <- _]; by left|].
    unfold bind, utcnow, lift, ret, aggregate_history, bind.
    destruct (due_date_obj_of _ _) as [dd|e]; [|intros [= <- _]; by left].
    destruct (field_sub _ _) as [delta|e]; [|intros [= <- _]; by left].
    unfold store_call, tick.
    destruct (outage w) as [[|n]|]; simpl.
    + intros [= <- _]. by left.
    + destruct (completion_times _); intros [= <- _]; by right.
    + destruct (completion_times _); intros [= <- _]; by left.
Qed.

(** X15.  The defaults of the estimator, when its computation meets no
    other failure: an assignment without a [completedAt] key is measured at
    the current time, while one whose [completedAt] is a null gets the
    "Calculation error" record; the reported average is the mean of the
    completion spans of the usable data points, rounded to one decimal, and
    a user without usable history gets the average 7 with confidence
    "low". *)
Theorem calculate_predictive_delay_defaults
    (module : ModuleDoc) (user_id : IdVal) (w : World) (due : Z) :
  dueDate module = Some (DDate due) →
  outage w ≠ Some 0 →
  history_well_formed user_id (projects w) = true →
  (completedAt module = None →
   ∃ est,
     calculate_predictive_delay fromisoformat module user_id w = (tick w, Ok est)
     ∧ predictedDelay est = ((clock w - due) / day_us)%Z
     ∧ historicalDataPoints est = usable_points user_id (projects w)
     ∧ avgCompletionTime est
       = Some (round_1 (average (completion_spans user_id (projects w))))
     ∧ (usable_points user_id (projects w) = 0 →
        avgCompletionTime est = Some (QArith_base.Qmake 7 1)
        ∧ confidence est = "low"))
  ∧ (completedAt module = Some DNull →
     calculate_predictive_delay fromisoformat module user_id w
     = (w, Ok calculation_error_estimate)).
Proof.
  intros Hd Ho Hwf. split.
  - intros Hc.
    assert (field_sub (default (DDate (clock w)) (completedAt module)) (naive due)
            = Ok (clock w - due)%Z) as Hs by (by rewrite Hc).
    rewrite (calculate_predictive_delay_computes fromisoformat module user_id w
               (naive due) _ ltac:(by rewrite Hd) ltac:(by rewrite Hd) Hs Ho Hwf).
    eexists. split; [done|]. simpl. do 3 (split; [done|]).
    intros H0. rewrite H0. split; [|done].
    rewrite <- completion_spans_length in H0.
    by destruct (completion_spans user_id (projects w)).
  - intros Hc.
    unfold calculate_predictive_delay, try_except, calculate_predictive_delay_body.
    rewrite Hd, Hc. done.
Qed.

End EstimatorExtras.

(** ** The branch of a pushed ref *)

Lemma append_cons x (a b : string) : String x a +:+ b = String x (a +:+ b).
Proof. reflexivity. Qed.

Lemma append_nil_l (b : string) : "" +:+ b = b.
Proof. reflexivity. Qed.

Lemma occurs_app c (a b : string) : occurs c (a +:+ b) = occurs c a || occurs c b.
Proof.
  induction a as [|x a IH]; [done|].
  rewrite append_cons. simpl. by rewrite IH, orb_assoc.
Qed.

Lemma append_assoc' (a b c : string) : (a +:+ b) +:+ c = a +:+ (b +:+ c).
Proof.
  induction a as [|x a IH]; [done|]. rewrite !append_cons. by rewrite IH.
Qed.

Lemma append_empty_r (a : string) : a +:+ "" = a.
Proof. induction a as [|x a IH]; [done|]. rewrite append_cons. by rewrite IH. Qed.

Lemma after_last_slash_spec (s cur : string) :
  occurs "/" cur = false →
  occurs "/" (after_last_slash s cur) = false
  ∧ ∃ pre, cur +:+ s = pre +:+ after_last_slash s cur
           ∧ (pre = "" ∨ ∃ pre', pre = pre' +:+ "/").
Proof.
  revert cur. induction s as [|c s IH]; intros cur Hcur; simpl.
  - split; [done|]. exists "". split; [by rewrite append_empty_r|by left].
  - destruct (bool_decide (c = "/"%char)) eqn:E.
    + apply bool_decide_eq_true_1 in E. subst c.
      destruct (IH "" eq_refl) as (Hno & pre & Heq & Hpre). split; [done|].
      rewrite append_nil_l in Heq.
      exists ((cur +:+ "/") +:+ pre). split.
      * rewrite (append_assoc' (cur +:+ "/")), <- Heq. by rewrite append_assoc'.
      * right. destruct Hpre as [->|(pre' & ->)].
        -- exists cur. by rewrite append_empty_r.
        -- exists ((cur +:+ "/") +:+ pre'). by rewrite !append_assoc'.
    + apply bool_decide_eq_false_1 in E.
      destruct (IH (cur +:+ String c "")) as (Hno & pre & Heq & Hpre).
      { rewrite occurs_app, Hcur. simpl. by rewrite bool_decide_eq_false_2. }
      split; [done|]. exists pre. split; [|done].
      by rewrite append_assoc' in Heq.
Qed.

Lemma after_last_slash_no_slash (s cur : string) :
  occurs "/" s = false → after_last_slash s cur = cur +:+ s.
Proof.
  revert cur. induction s as [|c s IH]; intros cur; simpl.
  - by rewrite append_empty_r.
  - intros H. apply orb_false_iff in H as [Hc Hs]. rewrite Hc.
    rewrite (IH _ Hs). by rewrite append_assoc'.
Qed.

(** X17.  The branch reported for a push is what follows the last slash of
    the ref: it holds no slash, the ref is the branch behind a prefix that is
    empty or ends in a slash, and a ref without a slash is its own branch.
    There is no branch exactly when the ref is absent or empty. *)
Theorem branch_of_is_last_segment (ref : option string) :
  (branch_of ref = None ↔ ref = None ∨ ref = Some "")
  ∧ (∀ r b, ref = Some r → branch_of ref = Some b →
       occurs "/" b = false
       ∧ ∃ pre, r = pre +:+ b ∧ (pre = "" ∨ ∃ pre', pre = pre' +:+ "/"))
  ∧ (∀ r, ref = Some r → r ≠ "" → occurs "/" r = false → branch_of ref = Some r).
Proof.
  split; [|split].
  - unfold branch_of. destruct ref as [[|c r]|]; simpl.
    + split; [intros _; by right|done].
    + split; [done|]. intros [?|?]; done.
    + split; [intros _; by left|done].
  - intros r b -> Hb. unfold branch_of in Hb. simpl in Hb.
    destruct (str_truthy r); [|done]. injection Hb as <-.
    by apply (after_last_slash_spec r "").
  - intros r -> Hne Hno. unfold branch_of. simpl.
    rewrite (str_truthy_ne _ Hne). by rewrite (after_last_slash_no_slash _ _ Hno).
Qed.

(** ** Further properties of the orchestrator and the endpoints *)

Section OrchestratorExtras.

Variable fromisoformat : string -> Result datetime.

(** X1.  An event body without a usable pusher name or repository name
    (the key is absent, or its value is no object, or has no name or an
    empty one) is dropped before the store is touched: the validation
    returns [None] and the world is left exactly as it was, whatever the
    state of the store.  The endpoint then answers with its no-match body
    when the body is well-shaped, and with the framework's 500 when it is
    not: the no-match answer reads the body again, outside any [try]. *)
Theorem event_without_names_is_no_match (b : EventBody) (w : World) :
  opt_str_truthy (field_name (body_pusher b)) = false
  ∨ opt_str_truthy (field_name (body_repository b)) = false →
  validate_github_push fromisoformat (event_payload b) w = (w, Ok None)
  ∧ validate_github_push_json fromisoformat (ObjectJson b) w = (w, Ok None)
  ∧ github_webhook fromisoformat (Json (ObjectJson b)) w
    = (w, Ok (if well_shaped b
              then JsonReply (no_match_response (event_summary b))
              else ErrorReply 500)).
Proof.
  intros H.
  pose proof (validate_without_names fromisoformat (event_payload b) w H) as Hv.
  split; [done|].
  destruct (well_shaped b) eqn:Hs.
  - split; [by rewrite (validate_json_well_shaped fromisoformat b w Hs)|].
    by rewrite (github_webhook_well_shaped fromisoformat b w w None Hs Hv).
  - assert (validate_github_push_json fromisoformat (ObjectJson b) w = (w, Ok None)) as He.
    { unfold well_shaped in Hs.
      destruct (is_object_or_absent (body_pusher b)
                && is_object_or_absent (body_repository b)) eqn:Ho.
      - destruct (body_commits b) eqn:Hc; [done|].
        by rewrite (validate_json_unsized fromisoformat b w Ho Hc), Hv.
      - by apply validate_json_not_object. }
    split; [done|].
    by rewrite (github_webhook_ill_shaped fromisoformat b w Hs), He.
Qed.

(** X2.  An event whose pusher is the GitHub username of no stored user
    (the comparison is exact) never yields a result and never writes,
    whatever the state of the store. *)
Theorem unknown_pusher_changes_nothing (payload : Payload) (w w' : World)
    (r : Result (option CompletionResult)) :
  List.find (λ x, bool_decide (githubUsername x = Some (default "" (pusher_name payload))))
            (users w) = None →
  validate_github_push fromisoformat payload w = (w', r) →
  r = Ok None ∧ projects w' = projects w ∧ users w' = users w
  ∧ emitted w' = emitted w.
Proof.
  intros Hnone Hv. pose proof (silent_validate fromisoformat _ _ _ _ Hv) as He.
  apply validate_github_push_effect in Hv
    as (Hu & _ & o & -> & [[Hp ->]|(user & q & j & ps' & n & Hres & _)]).
  - done.
  - destruct Hres as (_ & _ & Hsome & _). by rewrite Hnone in Hsome.
Qed.

(** X3.  Processing an event never raises, never adds, removes or reorders
    projects, and never changes the users, the clock or the broadcast log:
    broadcasting is left to the endpoints. *)
Theorem validate_github_push_is_contained (payload : Payload) (w w' : World)
    (r : Result (option CompletionResult)) :
  validate_github_push fromisoformat payload w = (w', r) →
  (∃ o, r = Ok o)
  ∧ project_oid <$> projects w' = project_oid <$> projects w
  ∧ users w' = users w ∧ clock w' = clock w ∧ emitted w' = emitted w.
Proof.
  intros Hv. pose proof (silent_validate fromisoformat _ _ _ _ Hv) as He.
  apply validate_github_push_effect in Hv
    as (Hu & Hc & o & -> & [[Hp _]|(user & q & j & ps' & n & _ & Hw & Hp)]).
  - split; [eauto|]. by rewrite Hp.
  - split; [eauto|]. split; [|done]. rewrite Hp.
    exact (update_first_ids _ _ _ _ _ Hw).
Qed.

(** X21.  One event changes at most one assignment: either the stored
    projects are left as they were, or the event resolved to an assignment
    and every other assignment of the store is where it was.  Project ids
    are unique, as the store guarantees. *)
Theorem validate_github_push_changes_one_assignment (payload : Payload) (w w' : World)
    (r : Result (option CompletionResult)) :
  NoDup (project_oid <$> projects w) →
  validate_github_push fromisoformat payload w = (w', r) →
  projects w' = projects w
  ∨ ∃ user q j,
      resolves payload w user q j
      ∧ ∀ pid k, ¬ (pid = project_oid q ∧ k = j) →
                 slot_at pid k (projects w') = slot_at pid k (projects w).
Proof.
  intros Hnd Hv.
  apply validate_github_push_effect in Hv
    as (_ & _ & o & _ & [[Hp _]|(user & q & j & ps' & n & Hres & Hw & Hp)]).
  - by left.
  - right. exists user, q, j. split; [done|]. intros pid k Hne. rewrite Hp.
    destruct Hres as (_ & _ & _ & Hscan).
    eapply completion_write_elsewhere; [done|exact Hscan|exact Hw|].
    intros [<- <-]. by apply Hne.
Qed.


End OrchestratorExtras.

Section EndpointExtras.

Variable fromisoformat : string -> Result datetime.

(** X5.  The webhook endpoint always answers.  A request without JSON gets
    the framework's 415 and one whose JSON does not parse its 400; a falsy
    JSON value gets the endpoint's own 400; a JSON value that is no object,
    or an object that is not well-shaped, gets the framework's 500; a
    well-shaped object gets a 200.  When the answer carries a completed
    module the endpoint has broadcast exactly two events about that module,
    [task_updated] then [module_updated], stamped with the current time;
    in every other case it has broadcast nothing. *)
Theorem github_webhook_broadcasts_on_completion
    (j : RequestJson) (w w' : World) (r : Result (HttpReply Response)) :
  github_webhook fromisoformat j w = (w', r) →
  ∃ reply,
    r = Ok reply
    ∧ (j = NotJson → reply = ErrorReply 415)
    ∧ (j = BadJson → reply = ErrorReply 400)
    ∧ (j = Json FalsyJson → reply = JsonReply bad_request)
    ∧ (j = Json NonObjectJson → reply = ErrorReply 500)
    ∧ (∀ b, j = Json (ObjectJson b) →
         if well_shaped b
         then ∃ resp, reply = JsonReply resp ∧ http_status resp = 200
         else reply = ErrorReply 500)
    ∧ (∀ resp res, reply = JsonReply resp → body_module resp = Some res →
         emitted w' = emitted w ++ broadcasts false res (clock w))
    ∧ ((∀ resp, reply = JsonReply resp → body_module resp = None) →
       emitted w' = emitted w)
    ∧ users w' = users w ∧ clock w' = clock w.
Proof.
  destruct j as [| |[| |b]].
  - intros [= <- <-]. eexists. split; [done|].
    repeat split; try done; by intros resp res [= <-] [=].
  - intros [= <- <-]. eexists. split; [done|].
    repeat split; try done; by intros resp res [= <-] [=].
  - intros [= <- <-]. eexists. split; [done|].
    repeat split; try done; by intros resp res [= <-] [=].
  - intros [= <- <-]. eexists. split; [done|].
    repeat split; try done; by intros resp res [= <-] [=].
  - destruct (well_shaped b) eqn:Hs.
    + destruct (validate_github_push fromisoformat (event_payload b) w) as [w1 r1] eqn:Hv.
      pose proof (silent_validate fromisoformat _ _ _ _ Hv) as He.
      pose proof (validate_github_push_effect _ _ _ _ _ Hv) as (Hu & Hc & o & -> & _).
      rewrite (github_webhook_well_shaped fromisoformat b w w1 o Hs Hv).
      destruct o as [res|]; intros [= <- <-]; (eexists; split; [done|]).
      * do 4 (split; [done|]). split.
        { intros b' [= <-]. rewrite Hs. eexists. split; done. }
        split.
        { intros resp res' [= <-] [= <-]. simpl. rewrite He, Hc.
          by rewrite <- app_assoc. }
        split; [|done].
        intros H. by specialize (H _ eq_refl).
      * do 4 (split; [done|]). split.
        { intros b' [= <-]. rewrite Hs. eexists. split; done. }
        split; [by intros resp res' [= <-]|]. done.
    + rewrite (github_webhook_ill_shaped fromisoformat b w Hs).
      destruct (validate_github_push_json fromisoformat (ObjectJson b) w) as [w1 r1] eqn:Hv.
      apply validate_json_inv in Hv as (_ & Hu & Hc & He).
      intros [= <- <-]. eexists. split; [done|].
      do 4 (split; [done|]). split.
      { intros b' [= <-]. by rewrite Hs. }
      split; [done|]. done.
Qed.

(** X6.  The test endpoint validates what it is sent as the webhook
    endpoint does, with a payload of its own (pusher Fresh-MC, repository
    Tracker) in place of a falsy JSON value.  A request without JSON, or
    whose JSON does not parse, is answered by the framework with 415 or 400
    and nothing is processed.  A value that is no object, or whose pusher or
    repository is no object, makes the endpoint fail with a 500 at its first
    prints, before anything is processed, and the webhook endpoint answers
    500 for it too.  Otherwise the endpoint answers 200: with the completed
    module, after two broadcasts marked as tests, where the webhook endpoint
    answers with the same module after the same two broadcasts unmarked; or
    with the status "no_match" and the payload it validated, where the
    webhook endpoint says "success", or fails with a 500 when the commits
    have no length.  Both leave the same store behind. *)
Theorem test_webhook_mirrors_github_webhook (j : RequestJson) (w : World) :
  ∃ w1 t,
    test_webhook fromisoformat j w = (w1, Ok t)
    ∧ (j = NotJson → t = ErrorReply 415 ∧ w1 = w)
    ∧ (j = BadJson → t = ErrorReply 400 ∧ w1 = w)
    ∧ (∀ payload, j = Json payload →
         let tested := test_payload_of payload in
         (payload = FalsyJson → tested = ObjectJson default_test_payload)
         ∧ (payload ≠ FalsyJson → tested = payload)
         ∧ ((∃ e, printed_names tested = Raise e) →
            t = ErrorReply 500 ∧ w1 = w
            ∧ github_webhook fromisoformat (Json tested) w = (w, Ok (ErrorReply 500)))
         ∧ ((∃ names, printed_names tested = Ok names) →
            ∃ w2 o,
              validate_github_push_json fromisoformat tested w = (w2, Ok o)
              ∧ match o with
                | Some res =>
                    w1 = broadcast_all (broadcasts true res (clock w)) w2
                    ∧ t = JsonReply
                            {| test_http_status := 200; test_body_status := "success";
                               test_message := "Test completed successfully";
                               test_module := Some res;
                               test_events_emitted := ["task_updated"; "module_updated"];
                               test_flag := Some true; test_payload_echo := None |}
                    ∧ github_webhook fromisoformat (Json tested) w
                      = (broadcast_all (broadcasts false res (clock w)) w2,
                         Ok (JsonReply (completed_response res)))
                | None =>
                    w1 = w2
                    ∧ t = JsonReply
                            {| test_http_status := 200; test_body_status := "no_match";
                               test_message := "No matching module found";
                               test_module := None; test_events_emitted := [];
                               test_flag := None; test_payload_echo := Some tested |}
                    ∧ ∃ g, github_webhook fromisoformat (Json tested) w = (w2, Ok g)
                           ∧ ∀ b, tested = ObjectJson b →
                                  g = if has_length (body_commits b)
                                      then JsonReply (no_match_response (event_summary b))
                                      else ErrorReply 500
                end)).
Proof.
  destruct j as [| |payload].
  - exists w. eexists. split; [done|]. split; [done|]. split; [done|]. done.
  - exists w. eexists. split; [done|]. split; [done|]. split; [done|]. done.
  - assert (∀ tested, tested = test_payload_of payload →
              ∃ w1 t,
                test_webhook fromisoformat (Json payload) w = (w1, Ok t)
                ∧ ((∃ e, printed_names tested = Raise e) →
                   t = ErrorReply 500 ∧ w1 = w
                   ∧ github_webhook fromisoformat (Json tested) w
                     = (w, Ok (ErrorReply 500)))
                ∧ ((∃ names, printed_names tested = Ok names) →
                   ∃ w2 o,
                     validate_github_push_json fromisoformat tested w = (w2, Ok o)
                     ∧ match o with
                       | Some res =>
                           w1 = broadcast_all (broadcasts true res (clock w)) w2
                           ∧ t = JsonReply
                                   {| test_http_status := 200;
                                      test_body_status := "success";
                                      test_message := "Test completed successfully";
                                      test_module := Some res;
                                      test_events_emitted :=
                                        ["task_updated"; "module_updated"];
                                      test_flag := Some true;
                                      test_payload_echo := None |}
                           ∧ github_webhook fromisoformat (Json tested) w
                             = (broadcast_all (broadcasts false res (clock w)) w2,
                                Ok (JsonReply (completed_response res)))
                       | None =>
                           w1 = w2
                           ∧ t = JsonReply
                                   {| test_http_status := 200;
                                      test_body_status := "no_match";
                                      test_message := "No matching module found";
                                      test_module := None; test_events_emitted := [];
                                      test_flag := None;
                                      test_payload_echo := Some tested |}
                           ∧ ∃ g, github_webhook fromisoformat (Json tested) w
                                  = (w2, Ok g)
                                  ∧ ∀ b, tested = ObjectJson b →
                                         g = if has_length (body_commits b)
                                             then JsonReply
                                                    (no_match_response (event_summary b))
                                             else ErrorReply 500
                       end)) as Hmain.
    { intros tested Ht.
      unfold test_webhook, served, try_except, test_webhook_body.
      rewrite <- Ht. unfold bind at 1. unfold bind at 1. unfold lift at 1.
      destruct (printed_names tested) as [names|e] eqn:Hp.
      - destruct tested as [| |b]; [done..|].
        assert (is_object_or_absent (body_pusher b)
                && is_object_or_absent (body_repository b) = true) as Ho.
        { unfold printed_names in Hp.
          by destruct (body_pusher b), (body_repository b). }
        destruct (validate_github_push_json fromisoformat (ObjectJson b) w) as [w2 r2] eqn:Hv.
        pose proof (validate_json_inv _ _ _ _ _ Hv) as ([o ->] & _ & Hc & _).
        rewrite (bind_eq _ _ _ _ _ Hv).
        destruct o as [res|].
        + assert (well_shaped b = true) as Hs.
          { destruct (well_shaped b) eqn:Hs; [done|].
            destruct (validate_json_ill_shaped fromisoformat b w Hs) as (? & Hv').
            rewrite Hv in Hv'. done. }
          eexists _, _. split; [reflexivity|]. split; [by intros [? ?]|].
          intros _. exists w2, (Some res). split; [done|].
          split; [by rewrite <- Hc|]. split; [done|].
          rewrite (validate_json_well_shaped fromisoformat b w Hs) in Hv.
          rewrite (github_webhook_well_shaped fromisoformat b w w2 (Some res) Hs Hv).
          by apply validate_github_push_effect in Hv as (_ & -> & _).
        + eexists _, _. split; [reflexivity|]. split; [by intros [? ?]|].
          intros _. exists w2, None. split; [done|]. split; [done|]. split; [done|].
          destruct (has_length (body_commits b)) eqn:Hl.
          * assert (well_shaped b = true) as Hs by (unfold well_shaped; by rewrite Ho, Hl).
            rewrite (validate_json_well_shaped fromisoformat b w Hs) in Hv.
            rewrite (github_webhook_well_shaped fromisoformat b w w2 None Hs Hv).
            eexists. split; [done|]. intros b' [= <-]. by rewrite Hl.
          * assert (well_shaped b = false) as Hs by (unfold well_shaped; by rewrite Ho, Hl).
            rewrite (github_webhook_ill_shaped fromisoformat b w Hs), Hv.
            eexists. split; [done|]. intros b' [= <-]. by rewrite Hl.
      - eexists _, _. split; [reflexivity|]. split; [|by intros [? ?]].
        intros _. split; [done|]. split; [done|].
        destruct tested as [| |b]; [by destruct payload|done|].
        assert (well_shaped b = false) as Hs.
        { unfold well_shaped. unfold printed_names in Hp.
          by destruct (body_pusher b), (body_repository b). }
        rewrite (github_webhook_ill_shaped fromisoformat b w Hs).
        rewrite validate_json_not_object; [done|].
        unfold printed_names in Hp.
        by destruct (body_pusher b), (body_repository b). }
    destruct (Hmain _ eq_refl) as (w1 & t & Htest & Hraise & Hok).
    exists w1, t. split; [done|]. split; [done|]. split; [done|].
    intros payload' [= <-] tested.
    split; [by intros ->|]. split; [by destruct payload|]. done.
Qed.

End EndpointExtras.

(** ** The listings and the health check *)

Lemma createdAt_iso_ok m :
  (∃ c, createdAt_iso m = Ok c) ↔ ∀ t, createdAt m = Some (DText t) → t = "".
Proof.
  unfold createdAt_iso. destruct (createdAt m) as [[t|t|]|].
  - split; [done|eauto].
  - destruct t as [|c t]; simpl.
    + split; [by intros _ ? [= <-]|eauto].
    + split; [by intros [? ?]|]. intros H. by specialize (H _ eq_refl).
  - split; [done|eauto].
  - split; [done|eauto].
Qed.

Lemma module_data_ok b p m :
  (∃ d, module_data b p m = Ok d) ↔ renders b (Some m).
Proof.
  unfold module_data, renders. destruct b.
  - destruct (createdAt_iso_ok m) as [H1 H2]. split.
    + intros [d Hd]. exists m. split; [done|]. intros _. apply H1.
      destruct (createdAt_iso m); [eauto|done].
    + intros (m' & [= <-] & Hm). destruct (H2 (Hm eq_refl)) as [c ->]. eauto.
  - split; [|eauto]. intros _. exists m. split; [done|]. done.
Qed.

Lemma module_data_entry b p m d : module_data b p m = Ok d → entry_of (p, Some m) d.
Proof.
  unfold module_data. destruct (if b then _ else _); [|done].
  intros [= <-]. exists m. simpl. done.
Qed.

Lemma list_modules_entries b p ms l :
  list_modules b p ms = Ok l → Forall2 entry_of (List.map (pair p) ms) l.
Proof.
  revert l. induction ms as [|[m|] ms IH]; intros l; simpl.
  - intros [= <-]. constructor.
  - destruct (module_data b p m) as [d|] eqn:Hd; [|done].
    destruct (list_modules b p ms) as [ds|]; [|done].
    intros [= <-]. constructor; [by eapply module_data_entry|by apply IH].
  - done.
Qed.

Lemma list_modules_ok b p ms :
  (∃ l, list_modules b p ms = Ok l) ↔ Forall (renders b) ms.
Proof.
  induction ms as [|[m|] ms IH]; simpl.
  - split; [by constructor|eauto].
  - destruct (module_data_ok b p m) as [H1 H2]. split.
    + intros [l Hl]. destruct (module_data b p m) as [d|]; [|done].
      destruct (list_modules b p ms) as [ds|]; [|done].
      constructor; [apply H1; eauto|apply IH; eauto].
    + intros [Hm Hms]%Forall_cons. destruct (H2 Hm) as [d ->].
      apply IH in Hms as [ds ->]. eauto.
  - split; [by intros [? ?]|]. intros [(m & [=] & _) _]%Forall_cons.
Qed.

Lemma list_all_modules_entries b ps l :
  list_all_modules b ps = Ok l → Forall2 entry_of (array_elements ps) l.
Proof.
  revert l. induction ps as [|p ps IH]; intros l; simpl.
  - intros [= <-]. constructor.
  - unfold array_elements. simpl. fold (array_elements ps).
    destruct (modules p) as [|ms|d]; [by apply IH| |by apply IH].
    destruct (list_modules b p ms) as [ds|] eqn:Hds; [|done].
    destruct (list_all_modules b ps) as [ds'|]; [|done].
    intros [= <-]. apply Forall2_app; [by eapply list_modules_entries|by apply IH].
Qed.

Lemma list_all_modules_ok b ps :
  (∃ l, list_all_modules b ps = Ok l) ↔ Forall (λ x, renders b x.2) (array_elements ps).
Proof.
  induction ps as [|p ps IH]; simpl.
  - split; [by constructor|eauto].
  - unfold array_elements. simpl. fold (array_elements ps).
    destruct (modules p) as [|ms|d]; [done| |done].
    rewrite Forall_app, Forall_map. simpl.
    destruct (list_modules_ok b p ms) as [H1 H2]. split.
    + intros [l Hl]. destruct (list_modules b p ms) as [ds|]; [|done].
      destruct (list_all_modules b ps) as [ds'|]; [|done].
      split; [apply H1; eauto|apply IH; eauto].
    + intros [Hms Hps]. destruct (H2 Hms) as [ds ->].
      apply IH in Hps as [ds' ->]. eauto.
Qed.

Lemma module_data_drop p m d :
  module_data true p m = Ok d → module_data false p m = Ok (drop_createdAt d).
Proof.
  unfold module_data. destruct (createdAt_iso m); [|done]. by intros [= <-].
Qed.

Lemma list_modules_drop p ms l :
  list_modules true p ms = Ok l →
  list_modules false p ms = Ok (List.map drop_createdAt l).
Proof.
  revert l. induction ms as [|[m|] ms IH]; intros l; cbn [list_modules];
    [by intros [= <-]| |done].
  destruct (module_data true p m) as [d|] eqn:Hd; [|done].
  destruct (list_modules true p ms) as [ds|]; [|done].
  intros [= <-]. by rewrite (module_data_drop _ _ _ Hd), (IH ds eq_refl).
Qed.

Lemma list_all_modules_drop ps l :
  list_all_modules true ps = Ok l →
  list_all_modules false ps = Ok (List.map drop_createdAt l).
Proof.
  revert l. induction ps as [|p ps IH]; intros l; cbn [list_all_modules];
    [by intros [= <-]|].
  destruct (modules p) as [|ms|d]; [by apply IH| |by apply IH].
  destruct (list_modules true p ms) as [ds|] eqn:Hds; [|done].
  destruct (list_all_modules true ps) as [ds'|]; [|done].
  intros [= <-]. rewrite (list_modules_drop _ _ _ Hds), (IH ds' eq_refl).
  by rewrite List.map_app.
Qed.

(** X18.  [GET /api/modules] never raises and never writes.  It answers
    200 exactly when the store answers and every element of every stored
    [modules] array is a document whose [createdAt] is absent, a date or an
    empty text; its list then has one entry per element, in store order,
    showing that element's id, title, description and status and its
    project's id and name, and its count is the length of the list.
    Otherwise it answers 500 with the error and no list. *)
Theorem get_modules_lists_every_element (w : World) :
  ∃ w' resp,
    get_modules w = (w', Ok resp)
    ∧ projects w' = projects w ∧ users w' = users w ∧ emitted w' = emitted w
    ∧ (modules_http_status resp = 200
       ↔ outage w ≠ Some 0
         ∧ Forall (λ x, renders true x.2) (array_elements (projects w)))
    ∧ (modules_http_status resp ≠ 200 →
       modules_http_status resp = 500 ∧ listed_modules resp = None
       ∧ is_Some (listing_error resp))
    ∧ (∀ l, listed_modules resp = Some l →
         modules_http_status resp = 200
         ∧ listed_count resp = Some (length l)
         ∧ Forall2 entry_of (array_elements (projects w)) l).
Proof.
  unfold get_modules, try_except, find_projects, bind, store_call, lift, ret.
  destruct (outage w) as [[|n]|] eqn:Ho; simpl.
  - eexists _, _. split; [done|]. simpl. do 3 (split; [done|]).
    split; [split; [done|by intros [? _]]|]. split; [eauto|done].
  - destruct (list_all_modules true (projects w)) as [l|e] eqn:Hl; simpl.
    + eexists _, _. split; [done|]. simpl. do 3 (split; [done|]).
      split; [split; [|done]|].
      { intros _. split; [done|]. apply list_all_modules_ok. eauto. }
      split; [done|]. intros l' [= <-]. split; [done|]. split; [done|].
      exact (list_all_modules_entries true _ _ Hl).
    + eexists _, _. split; [done|]. simpl. do 3 (split; [done|]).
      split; [split; [done|]|].
      { intros [_ H]. apply list_all_modules_ok in H as [l Hl']. congruence. }
      split; [eauto|done].
  - destruct (list_all_modules true (projects w)) as [l|e] eqn:Hl; simpl.
    + eexists _, _. split; [done|]. simpl. do 3 (split; [done|]).
      split; [split; [|done]|].
      { intros _. split; [done|]. apply list_all_modules_ok. eauto. }
      split; [done|]. intros l' [= <-]. split; [done|]. split; [done|].
      exact (list_all_modules_entries true _ _ Hl).
    + eexists _, _. split; [done|]. simpl. do 3 (split; [done|]).
      split; [split; [done|]|].
      { intros [_ H]. apply list_all_modules_ok in H as [l Hl']. congruence. }
      split; [eauto|done].
Qed.

(** X19.  The [request_modules] handler never raises.  It emits the
    snapshot exactly when the store answers and no stored array holds a
    null, and the error event otherwise; and whenever [GET /api/modules]
    answers with a list, the handler, in the same world, emits the snapshot
    of the same entries without their [createdAt], stamped with the current
    time. *)
Theorem handle_request_modules_snapshot (w : World) :
  ∃ w' reply,
    handle_request_modules w = (w', Ok reply)
    ∧ projects w' = projects w
    ∧ ((∃ l t, reply = ModulesSnapshot l t)
       ↔ outage w ≠ Some 0
         ∧ Forall (λ x, is_Some x.2) (array_elements (projects w)))
    ∧ ((∀ l t, reply ≠ ModulesSnapshot l t) → reply = ErrorEvent "Failed to fetch modules")
    ∧ (∀ w1 resp l,
         get_modules w = (w1, Ok resp) → listed_modules resp = Some l →
         w1 = w' ∧ reply = ModulesSnapshot (List.map drop_createdAt l) (clock w)).
Proof.
  assert (∀ ps, Forall (λ x : Project * Slot, renders false x.2) (array_elements ps)
                ↔ Forall (λ x : Project * Slot, is_Some x.2) (array_elements ps)) as Hiff.
  { intros ps. apply Forall_proper; [|done]. intros [p s]. simpl. unfold renders.
    split.
    - intros (m & -> & _). eauto.
    - intros [m ->]. exists m. split; [done|]. done. }
  unfold handle_request_modules, get_modules, try_except, find_projects, bind,
    store_call, lift, ret, utcnow.
  destruct (outage w) as [[|n]|] eqn:Ho; simpl.
  - eexists _, _. split; [done|]. split; [done|].
    split; [split; [by intros (? & ? & ?)|by intros [? _]]|].
    split; [done|]. intros w1 resp l [= <- <-]. done.
  - destruct (list_all_modules false (projects w)) as [l|e] eqn:Hl; simpl.
    + eexists _, _. split; [done|]. split; [done|].
      split; [split; [|eauto]|].
      { intros _. split; [done|]. apply Hiff, list_all_modules_ok. eauto. }
      split; [intros H; by destruct (H l (clock w))|].
      intros w1 resp l'.
      destruct (list_all_modules true (projects w)) as [lt|] eqn:Hlt; simpl;
        intros [= <- <-]; [|done]. intros [= <-].
      apply list_all_modules_drop in Hlt. rewrite Hl in Hlt. by injection Hlt as ->.
    + eexists _, _. split; [done|]. split; [done|].
      split; [split; [by intros (? & ? & ?)|]|].
      { intros [_ H]. apply Hiff, list_all_modules_ok in H as [l Hl']. congruence. }
      split; [done|]. intros w1 resp l'.
      destruct (list_all_modules true (projects w)) as [lt|] eqn:Hlt; simpl;
        intros [= <- <-]; [|done]. intros [= <-].
      apply list_all_modules_drop in Hlt. congruence.
  - destruct (list_all_modules false (projects w)) as [l|e] eqn:Hl; simpl.
    + eexists _, _. split; [done|]. split; [done|].
      split; [split; [|eauto]|].
      { intros _. split; [done|]. apply Hiff, list_all_modules_ok. eauto. }
      split; [intros H; by destruct (H l (clock w))|].
      intros w1 resp l'.
      destruct (list_all_modules true (projects w)) as [lt|] eqn:Hlt; simpl;
        intros [= <- <-]; [|done]. intros [= <-].
      apply list_all_modules_drop in Hlt. rewrite Hl in Hlt. by injection Hlt as ->.
    + eexists _, _. split; [done|]. split; [done|].
      split; [split; [by intros (? & ? & ?)|]|].
      { intros [_ H]. apply Hiff, list_all_modules_ok in H as [l Hl']. congruence. }
      split; [done|]. intros w1 resp l'.
      destruct (list_all_modules true (projects w)) as [lt|] eqn:Hlt; simpl;
        intros [= <- <-]; [|done]. intros [= <-].
      apply list_all_modules_drop in Hlt. congruence.
Qed.

(** X20.  The health check never raises and always answers 200 with the
    status "healthy": a store that is down shows only in the [database]
    field, "connected" exactly when the ping is answered and
    "disconnected" otherwise. *)
Theorem health_check_always_healthy (w : World) :
  ∃ w' resp,
    health_check w = (w', Ok resp)
    ∧ health_http_status resp = 200
    ∧ health_status resp = "healthy"
    ∧ (health_database resp = "connected" ↔ outage w ≠ Some 0)
    ∧ (health_database resp = "disconnected" ↔ outage w = Some 0)
    ∧ projects w' = projects w ∧ users w' = users w.
Proof.
  unfold health_check, try_except, bind, store_call, ret, utcnow.
  destruct (outage w) as [[|n]|] eqn:Ho; simpl;
    eexists _, _; (split; [done|]); simpl; repeat split; done.
Qed.

(** ** The matcher on the sample data *)

(** C1, the claim as stated fails: alice has an in-progress assignment whose
    rule names the pushed repository and an in-progress assignment without a
    rule; the one without a rule comes first in the scan and is the one
    returned (position 0), not the rule-matching one (position 1). *)
Lemma fallback_first_is_returned :
  let w := world_of [Some without_rule; Some with_rule] oct22 None in
  let p := project_of [Some without_rule; Some with_rule] in
  assigned_with_status with_rule alice_id "in-progress"
  ∧ rule_repo with_rule "Tracker" ∧ lower "Tracker" = lower "tracker"
  ∧ assigned_with_status without_rule alice_id "in-progress"
  ∧ validationRule without_rule = None
  ∧ snd (find_module_in_projects alice_id "tracker" "in-progress" w) = Ok (Some (p, 0))
  ∧ snd (find_module_in_projects alice_id "tracker" "in-progress" w) ≠ Ok (Some (p, 1)).
Proof.
  repeat split; try reflexivity; try discriminate.
  exists tracker_rule. repeat split; try reflexivity; discriminate.
Qed.

Lemma find_module_returns_first_candidate_witness :
  snd (find_module_in_projects alice_id "tracker" "in-progress"
         (world_of [Some other_rule; Some with_rule; Some without_rule] oct22 None))
  = Ok (Some (project_of [Some other_rule; Some with_rule; Some without_rule], 1)).
Proof.
  apply (find_module_returns_first_candidate
           (world_of [Some other_rule; Some with_rule; Some without_rule] oct22 None)
           alice_id "tracker" [] []
           (project_of [Some other_rule; Some with_rule; Some without_rule])
           [Some other_rule] [Some without_rule] with_rule).
  - exact I.
  - reflexivity.
  - reflexivity.
  - constructor.
  - constructor; [|constructor]. exists other_rule. split; reflexivity.
  - split; reflexivity.
  - left. exists "Tracker". split; [|reflexivity].
    exists tracker_rule. repeat split; try reflexivity; discriminate.
Defined.

Lemma mismatching_rule_never_selected_witness :
  snd (find_module_in_projects alice_id "Tracker" "in-progress"
         (world_of [Some other_rule] oct22 None))
  ≠ Ok (Some (project_of [Some other_rule], 0)).
Proof.
  refine (proj1 (mismatching_rule_never_selected
           (world_of [Some other_rule] oct22 None) alice_id "Tracker"
           (project_of [Some other_rule]) 0 [Some other_rule] other_rule "Website"
           _ _ _ _ _)).
  - reflexivity.
  - reflexivity.
  - split; reflexivity.
  - exists {[ "githubRepo" := "Website" ]}. repeat split; try reflexivity; discriminate.
  - discriminate.
Defined.

Lemma rule_without_repo_is_fallback_witness :
  module_matches (in_progress "a5" (Some ∅)) alice_id "Tracker" "in-progress" = true
  ∧ module_matches (in_progress "a5" (Some ∅)) alice_id "Tracker" "in-progress"
    = module_matches (without_validationRule (in_progress "a5" (Some ∅)))
                     alice_id "Tracker" "in-progress"
  ∧ snd (find_module_in_projects alice_id "Tracker" "in-progress"
           (world_of [Some other_rule; Some (in_progress "a5" (Some ∅)); Some with_rule]
                     oct22 None))
    = Ok (Some (project_of [Some other_rule; Some (in_progress "a5" (Some ∅));
                            Some with_rule], 1)).
Proof.
  destruct (rule_without_repo_is_fallback
              (in_progress "a5" (Some ∅)) ∅ alice_id "Tracker") as [Hsame Hfallback].
  - reflexivity.
  - reflexivity.
  - destruct Hfallback as [Hm Hfind]; [split; reflexivity|].
    split; [exact Hm|]. split; [apply Hsame|].
    apply (Hfind
             (world_of [Some other_rule; Some (in_progress "a5" (Some ∅)); Some with_rule]
                       oct22 None)
             []
             (project_of [Some other_rule; Some (in_progress "a5" (Some ∅));
                          Some with_rule])
             [] [Some other_rule] [Some with_rule]).
    + exact I.
    + reflexivity.
    + reflexivity.
    + constructor.
    + constructor; [|constructor]. exists other_rule. split; reflexivity.
Defined.

(** ** The store update on the sample data *)

(** C2, the claim as stated fails: an assignment that is already completed
    (on 20 October) is written again on 22 October; its [completedAt] is
    overwritten and the call returns the module instead of reporting
    failure. *)
Lemma completed_assignment_is_overwritten :
  let w := world_of [Some done_on_oct20] oct22 None in
  let r := update_module_status demo_id 0 "completed" w in
  status done_on_oct20 ≠ Some "in-progress"
  ∧ completedAt done_on_oct20 = Some (DDate oct20)
  ∧ snd r = Ok (Some (set_status_fields "completed" oct22 done_on_oct20))
  ∧ completedAt (set_status_fields "completed" oct22 done_on_oct20) = Some (DDate oct22)
  ∧ projects (fst r)
    = [project_of [Some (set_status_fields "completed" oct22 done_on_oct20)]]
  ∧ projects (fst r) ≠ projects w.
Proof.
  repeat split; try discriminate; vm_compute; try reflexivity; discriminate.
Qed.

Lemma update_module_status_unconditional_witness :
  ∃ w', update_module_status demo_id 0 "completed"
          (world_of [Some done_on_oct20] oct22 (Some 2))
        = (w', Ok (Some (set_status_fields "completed" oct22 done_on_oct20)))
        ∧ projects w'
          = [] ++ set_modules
                    (MArray (<[0 := Some (set_status_fields "completed" oct22 done_on_oct20)]>
                               [Some done_on_oct20]))
                    (project_of [Some done_on_oct20]) :: [].
Proof.
  refine (proj1 (update_module_status_unconditional
                   (world_of [Some done_on_oct20] oct22 (Some 2)) demo_id 0 "completed"
                   [] [] (project_of [Some done_on_oct20]) [Some done_on_oct20]
                   done_on_oct20 _ _ _ _ _ _) _).
  - unfold serves. simpl. lia.
  - reflexivity.
  - constructor.
  - reflexivity.
  - reflexivity.
  - reflexivity.
  - vm_compute. discriminate.
Defined.

(** What the positional write does off the stored array: past its end the
    array is padded with nulls, a null element refuses the write, and a
    project without an array gets an embedded document, which the read-back
    cannot index. *)
Example update_off_the_array :
  let w := world_of [Some with_rule] oct22 None in
  (∀ ps, projects (fst (update_module_status demo_id 2 "completed" w)) = ps →
         slot_at demo_id 1 ps = Some None
         ∧ status_at demo_id 2 ps = Some "completed")
  ∧ snd (update_module_status demo_id 0 "completed" (world_of [None] oct22 None))
    = Raise StoreError
  ∧ snd (update_module_status demo_id 0 "completed"
           {| users := []; projects := [set_modules MAbsent (project_of [])];
              clock := oct22; outage := None; emitted := [] |})
    = Raise KeyError.
Proof. repeat split; by subst. Qed.

(** ** The estimator on the sample data *)

(** Whole days are counted downwards: two and a half days early is
    reported as three days early, two and a half days late as two. *)
Example days_round_down :
  days (- (5 * day_us / 2)) = (-3)%Z ∧ days (5 * day_us / 2) = 2%Z
  ∧ reason_of (days (- (5 * day_us / 2))) = "Completed 3 days early".
Proof. repeat split. Qed.

(** C6, the claim as stated fails: an assignment of alice due on 20 October
    and completed on the 22nd, two days late, gets the delay 0 and the
    reason "Calculation error" when the store is down at the history read,
    and also when an entry of her history has a creation date stored as
    text. *)
Lemma late_completion_reported_as_error :
  let down := world_of [Some done_on_oct22] oct22 (Some 0) in
  let malformed := world_of [Some done_with_text_created] oct22 None in
  dueDate done_on_oct22 = Some (DDate oct20)
  ∧ completedAt done_on_oct22 = Some (DDate oct22)
  ∧ field_sub (DDate oct22) (naive oct20) = Ok (2 * day_us)%Z
  ∧ calculate_predictive_delay no_iso done_on_oct22 alice_id down
    = (down, Ok calculation_error_estimate)
  ∧ snd (calculate_predictive_delay no_iso done_on_oct22 alice_id malformed)
    = Ok calculation_error_estimate
  ∧ predictedDelay calculation_error_estimate = 0%Z
  ∧ predictedDelay calculation_error_estimate ≠ 2%Z
  ∧ delayReason calculation_error_estimate = "Calculation error".
Proof. repeat split; done. Qed.

Lemma delay_is_signed_whole_days_witness :
  let w := world_of [Some done_on_oct22] oct22 None in
  dueDate done_on_oct22 = Some (DDate oct20)
  ∧ date_truthy (Some (DDate oct20)) = true
  ∧ completedAt done_on_oct22 = Some (DDate oct22)
  ∧ ∃ w' est,
      calculate_predictive_delay no_iso done_on_oct22 alice_id w = (w', Ok est)
      ∧ predictedDelay est = 2%Z
      ∧ delayReason est = "Completed 2 days late".
Proof.
  intros w. do 3 (split; [reflexivity|]).
  destruct (delay_is_signed_whole_days no_iso done_on_oct22 alice_id w
              (DDate oct20) (DDate oct22) eq_refl eq_refl eq_refl)
    as (w' & est & Hcalc & Hok & _).
  destruct (Hok (naive oct20) (2 * day_us)%Z eq_refl eq_refl) as (_ & _ & _ & _ & Hlate & _).
  - discriminate.
  - reflexivity.
  - exists w', est. split; [exact Hcalc|]. apply Hlate. reflexivity.
Defined.


(** C8, the claim as stated fails: alice has ten usable data points, yet
    the confidence is "low", not "high", when the store is down at the
    history read, and also, with the store up, when the due date of the
    assignment is a text that does not parse. *)
Lemma ten_points_reported_as_low :
  let down := world_of ten_points oct22 (Some 0) in
  let up := world_of ten_points oct22 None in
  usable_points alice_id (projects down) = 10
  ∧ usable_points alice_id (projects up) = 10
  ∧ date_truthy (dueDate done_on_oct22) = true
  ∧ date_truthy (dueDate done_with_text_due) = true
  ∧ snd (calculate_predictive_delay no_iso done_on_oct22 alice_id down)
    = Ok calculation_error_estimate
  ∧ snd (calculate_predictive_delay no_iso done_with_text_due alice_id up)
    = Ok calculation_error_estimate
  ∧ confidence calculation_error_estimate = "low"
  ∧ confidence calculation_error_estimate ≠ "high".
Proof. repeat split; done. Qed.

Lemma confidence_follows_history_count_witness :
  let w := world_of (replicate 5 (Some done_on_oct22)) oct22 None in
  date_truthy (dueDate done_on_oct22) = true
  ∧ usable_points alice_id (projects w) = 5
  ∧ ∃ w' est,
      calculate_predictive_delay no_iso done_on_oct22 alice_id w = (w', Ok est)
      ∧ historicalDataPoints est = 5
      ∧ confidence est = "high".
Proof.
  intros w. do 2 (split; [reflexivity|]).
  destruct (confidence_follows_history_count no_iso done_on_oct22 alice_id w eq_refl)
    as (w' & est & Hcalc & Hok & _).
  assert (estimator_computes no_iso done_on_oct22 alice_id w) as Hc.
  { split; [|split; [discriminate|reflexivity]].
    exists (naive oct20), (2 * day_us)%Z. split; reflexivity. }
  destruct (Hok Hc) as (Hn & _ & Hhigh & _).
  exists w', est. split; [exact Hcalc|]. split; [exact Hn|].
  apply Hhigh. apply Nat.leb_le. reflexivity.
Defined.

(** The reported average is the double nearest to the mean, rounded to one
    decimal on its exact value: 0.25 goes to the even 0.2, while 0.15 and
    0.45, which no double holds exactly, go to 0.1 and 0.5. *)
Example average_is_rounded :
  round_1 (average []) = QArith_base.Qmake 7 1
  ∧ round_1 (average [1; 2]%Z) = QArith_base.Qmake 15 10
  ∧ round_1 (average [1; 1; 2]%Z) = QArith_base.Qmake 13 10
  ∧ round_1 (average [0; 0; 0; 1]%Z) = QArith_base.Qmake 2 10
  ∧ round_1 (average (3%Z :: replicate 19 0%Z)) = QArith_base.Qmake 1 10
  ∧ round_1 (average (9%Z :: replicate 19 0%Z)) = QArith_base.Qmake 5 10
  ∧ round_1 (average [-1; -2]%Z) = QArith_base.Qmake (-15) 10.
Proof. repeat split. Qed.

(** Five usable data points give "high", four give "medium", one gives
    "low". *)
Example confidence_on_samples :
  confidence_of 5 = "high" ∧ confidence_of 4 = "medium" ∧ confidence_of 2 = "medium"
  ∧ confidence_of 1 = "low" ∧ confidence_of 0 = "low"
  ∧ (∀ n, snd (calculate_predictive_delay no_iso done_on_oct22 alice_id
                 (world_of (replicate 5 (Some done_on_oct22)) oct22 None))
          = Ok n → confidence n = "high" ∧ historicalDataPoints n = 5).
Proof. repeat split; vm_compute in H; by injection H as <-. Qed.

(** Inputs on which the computation fails internally: the store is down
    when the history is read; the due date is text that does not parse; a
    history entry has a creation date that is text. *)
Example calculation_error_on_samples :
  snd (calculate_predictive_delay_body no_iso done_on_oct22 alice_id
         (world_of [Some done_on_oct22] oct22 (Some 0))) = Raise StoreError
  ∧ snd (calculate_predictive_delay no_iso done_on_oct22 alice_id
           (world_of [Some done_on_oct22] oct22 (Some 0)))
    = Ok calculation_error_estimate
  ∧ snd (calculate_predictive_delay_body no_iso done_with_text_due alice_id
           (world_of [Some done_with_text_due] oct22 None)) = Raise ValueError
  ∧ snd (calculate_predictive_delay no_iso done_with_text_due alice_id
           (world_of [Some done_with_text_due] oct22 None))
    = Ok calculation_error_estimate.
Proof. repeat split. Qed.

Lemma calculate_predictive_delay_never_raises_witness :
  snd (calculate_predictive_delay no_iso done_on_oct22 alice_id
         (world_of [Some done_on_oct22] oct22 (Some 0)))
  = Ok {| predictedDelay := 0; delayReason := "Calculation error";
          confidence := "low"; avgCompletionTime := None;
          historicalDataPoints := 0 |}.
Proof.
  destruct (calculate_predictive_delay_never_raises no_iso done_on_oct22 alice_id
              (world_of [Some done_on_oct22] oct22 (Some 0)))
    as (w' & est & Hcalc & Herr).
  rewrite Hcalc. simpl. f_equal.
  apply (Herr (world_of [Some done_on_oct22] oct22 (Some 0)) StoreError).
  reflexivity.
Defined.

(** ** The orchestrator and the endpoint on the sample data *)

(** The end-to-end scenario of the specification: alice pushes to Tracker
    on 22 October; her assignment, due on the 20th, is completed, two days
    late, and the two broadcasts are emitted. *)
Example end_to_end :
  let w := world_of [Some with_rule] oct22 None in
  let r := github_webhook no_iso (Json (ObjectJson push_tracker_body)) w in
  (∃ res, snd r = Ok (JsonReply (completed_response res))
          ∧ predictedDelay (delay res) = 2%Z
          ∧ delayReason (delay res) = "Completed 2 days late"
          ∧ result_assignedToUserId res = str_id (Some alice_id)
          ∧ emitted (fst r) = broadcasts false res oct22)
  ∧ status_at demo_id 0 (projects (fst r)) = Some "completed"
  ∧ List.map event (emitted (fst r)) = ["task_updated"; "module_updated"].
Proof. split; [eexists|]; repeat split. Qed.

(** Bodies that are not well-shaped: a null under [pusher] is answered with
    a 500 and nothing is written; a number under [commits] is answered with
    a 500 after the assignment has been written as completed. *)
Example ill_shaped_bodies :
  let w := world_of [Some with_rule] oct22 None in
  let null_pusher := github_webhook no_iso (Json (ObjectJson body_with_null_pusher)) w in
  let unsized := github_webhook no_iso (Json (ObjectJson body_with_unsized_commits)) w in
  null_pusher = (w, Ok (ErrorReply 500))
  ∧ snd unsized = Ok (ErrorReply 500)
  ∧ status_at demo_id 0 (projects (fst unsized)) = Some "completed"
  ∧ emitted (fst unsized) = []
  ∧ snd (github_webhook no_iso NotJson w) = Ok (ErrorReply 415)
  ∧ snd (github_webhook no_iso (Json FalsyJson) w) = Ok (JsonReply bad_request).
Proof. repeat split. Qed.

(** C3, the claim as stated fails: with the store down, the processing
    meets a store error, yet [validate_github_push] returns [None] and the
    endpoint gives the very response it gives, with the store up, for a
    pusher that is no known user. *)
Lemma store_outage_is_answered_as_no_match :
  let down := world_of [Some with_rule] oct22 (Some 0) in
  let request := Json (ObjectJson push_tracker_body) in
  event_payload push_tracker_body = push_tracker
  ∧ snd (validate_github_push_body no_iso push_tracker down) = Raise StoreError
  ∧ snd (validate_github_push no_iso push_tracker down) = Ok None
  ∧ snd (validate_github_push no_iso push_tracker world_without_users) = Ok None
  ∧ snd (github_webhook no_iso request down)
    = Ok (JsonReply (no_match_response (Some "alice", Some "Tracker", 1)))
  ∧ snd (github_webhook no_iso request down)
    = snd (github_webhook no_iso request world_without_users).
Proof. repeat split. Qed.

Lemma store_failure_is_not_surfaced_witness :
  let at_reread := world_of [Some with_rule] oct22 (Some 3) in
  let at_history := world_of [Some with_rule] oct22 (Some 5) in
  let request := Json (ObjectJson push_tracker_body) in
  well_shaped push_tracker_body = true
  ∧ (∃ w', validate_github_push no_iso (event_payload push_tracker_body) at_reread
            = (w', Ok None)
           ∧ github_webhook no_iso request at_reread
             = (w', Ok (JsonReply (no_match_response (event_summary push_tracker_body))))
           ∧ status_at demo_id 0 (projects w') = Some "completed")
  ∧ (∃ w' res, validate_github_push no_iso (event_payload push_tracker_body) at_history
               = (w', Ok (Some res))
              ∧ delay res = calculation_error_estimate
              ∧ github_webhook no_iso request at_history
                = (broadcast_all (broadcasts false res oct22) w',
                   Ok (JsonReply (completed_response res)))).
Proof.
  intros at_reread at_history request. split; [reflexivity|].
  assert (∀ o, resolves (event_payload push_tracker_body)
                 (world_of [Some with_rule] oct22 o) alice (project_of [Some with_rule]) 0)
    as Hres by (intros o; repeat split).
  split.
  - destruct (store_failure_is_not_surfaced no_iso push_tracker_body at_reread
                eq_refl eq_refl eq_refl) as (_ & _ & Hresolved & _).
    destruct (Hresolved alice (project_of [Some with_rule]) 0 with_rule
                (NoDup_singleton _) (Hres _) eq_refl) as (_ & Hwritten & _).
    destruct (Hwritten (or_introl eq_refl)) as (w' & Hv & Hg & Hslot).
    exists w'. split; [exact Hv|]. split; [exact Hg|].
    unfold status_at. change demo_id with (project_oid (project_of [Some with_rule])).
    rewrite Hslot. reflexivity.
  - destruct (store_failure_is_not_surfaced no_iso push_tracker_body at_history
                eq_refl eq_refl eq_refl) as (_ & _ & Hresolved & _).
    destruct (Hresolved alice (project_of [Some with_rule]) 0 with_rule
                (NoDup_singleton _) (Hres _) eq_refl) as (_ & _ & Habsorbed).
    destruct (Habsorbed eq_refl eq_refl) as (w' & res & Hv & Hd & Hg & _).
    exists w', res. split; [exact Hv|]. split; [exact Hd|exact Hg].
Defined.

(** C5, the claim as stated fails: alice has two in-progress assignments
    whose rule names the pushed repository.  The event completes the first;
    the same event, replayed against the resulting store, does not return
    [None]: it completes the second. *)
Lemma replay_completes_next_assignment :
  let w0 := world_of [Some with_rule; Some with_rule_too] oct22 None in
  let first := validate_github_push no_iso push_tracker w0 in
  let again := validate_github_push no_iso push_tracker (fst first) in
  completed_oid (snd first) = Some "a1"
  ∧ status_at demo_id 0 (projects w0) = Some "in-progress"
  ∧ status_at demo_id 0 (projects (fst first)) = Some "completed"
  ∧ completed_oid (snd again) = Some "a7"
  ∧ snd again ≠ Ok None
  ∧ status_at demo_id 1 (projects (fst first)) = Some "in-progress"
  ∧ status_at demo_id 1 (projects (fst again)) = Some "completed"
  ∧ projects (fst again) ≠ projects (fst first).
Proof. repeat split; vm_compute; discriminate. Qed.

Lemma replay_spares_completed_assignment_witness :
  let w0 := world_of [Some with_rule] oct22 (Some 3) in
  let first := validate_github_push no_iso push_tracker w0 in
  let w1 := set_outage None (fst first) in
  snd first = Ok None
  ∧ projects w1 ≠ projects w0
  ∧ ∃ user q j m,
      resolves push_tracker w0 user q j
      ∧ status m = Some "in-progress"
      ∧ slot_at (project_oid q) j (projects w1)
        = Some (Some (set_status_fields "completed" (clock w0) m))
      ∧ ∀ w3 r, validate_github_push no_iso push_tracker w1 = (w3, r) →
                slot_at (project_oid q) j (projects w3)
                = slot_at (project_oid q) j (projects w1).
Proof.
  intros w0 first w1.
  split; [reflexivity|]. split; [vm_compute; discriminate|].
  destruct (replay_spares_completed_assignment no_iso push_tracker w0 (fst first)
              (snd first))
    as (user & q & j & m & Hres & _ & Hst & Hm1 & Hreplay).
  - simpl. apply NoDup_singleton.
  - unfold first. by destruct (validate_github_push no_iso push_tracker w0).
  - vm_compute. discriminate.
  - exists user, q, j, m.
    split; [exact Hres|]. split; [exact Hst|]. split; [exact Hm1|].
    apply (Hreplay w1 eq_refl eq_refl).
Defined.

(** After the only eligible assignment is completed, the replay finds no
    match and leaves the store as it is. *)
Example replay_without_other_assignment :
  let w0 := world_of [Some with_rule; Some other_rule] oct22 None in
  let first := validate_github_push no_iso push_tracker w0 in
  let again := validate_github_push no_iso push_tracker (fst first) in
  completed_oid (snd first) = Some "a1"
  ∧ snd again = Ok None
  ∧ projects (fst again) = projects (fst first).
Proof. repeat split. Qed.

(** ** The further properties on the sample data *)

Lemma event_without_names_is_no_match_witness :
  let down := world_of [Some with_rule] oct22 (Some 0) in
  opt_str_truthy (field_name (body_pusher body_with_null_pusher)) = false
  ∧ validate_github_push_json no_iso (ObjectJson body_with_null_pusher) down = (down, Ok None)
  ∧ github_webhook no_iso (Json (ObjectJson body_with_null_pusher)) down
    = (down, Ok (ErrorReply 500)).
Proof.
  intros down. split; [reflexivity|].
  destruct (event_without_names_is_no_match no_iso body_with_null_pusher down
              (or_introl eq_refl)) as (_ & Hv & Hg).
  split; [exact Hv|exact Hg].
Defined.

Lemma unknown_pusher_changes_nothing_witness :
  snd (validate_github_push no_iso push_by_stranger (world_of [Some with_rule] oct22 None))
  = Ok None.
Proof.
  destruct (validate_github_push no_iso push_by_stranger
              (world_of [Some with_rule] oct22 None)) as [w' r] eqn:E.
  destruct (unknown_pusher_changes_nothing no_iso push_by_stranger
              (world_of [Some with_rule] oct22 None) w' r) as [Hr _].
  - reflexivity.
  - exact E.
  - exact Hr.
Defined.

Lemma validate_github_push_is_contained_witness :
  emitted (fst (validate_github_push no_iso push_tracker
                  (world_of [Some with_rule] oct22 None))) = [].
Proof.
  destruct (validate_github_push no_iso push_tracker
              (world_of [Some with_rule] oct22 None)) as [w' r] eqn:E.
  destruct (validate_github_push_is_contained no_iso push_tracker
              (world_of [Some with_rule] oct22 None) w' r E) as (_ & _ & _ & _ & He).
  exact He.
Defined.


Lemma validate_github_push_changes_one_assignment_witness :
  let w := world_of [Some with_rule; Some with_rule_too] oct22 None in
  let w' := fst (validate_github_push no_iso push_tracker w) in
  projects w' = projects w
  ∨ ∃ user q j,
      resolves push_tracker w user q j
      ∧ ∀ pid k, ¬ (pid = project_oid q ∧ k = j) →
                 slot_at pid k (projects w') = slot_at pid k (projects w).
Proof.
  intros w w'. unfold w'.
  destruct (validate_github_push no_iso push_tracker w) as [w1 r] eqn:E.
  apply (validate_github_push_changes_one_assignment no_iso push_tracker w w1 r).
  - simpl. apply NoDup_singleton.
  - exact E.
Defined.

Lemma github_webhook_broadcasts_on_completion_witness :
  let w := world_of [Some with_rule] oct22 None in
  let request := Json (ObjectJson push_tracker_body) in
  ∃ reply resp res,
    snd (github_webhook no_iso request w) = Ok reply
    ∧ reply = JsonReply resp ∧ http_status resp = 200
    ∧ body_module resp = Some res
    ∧ emitted (fst (github_webhook no_iso request w)) = broadcasts false res oct22.
Proof.
  intros w request.
  destruct (github_webhook no_iso request w) as [w' r] eqn:E.
  destruct (github_webhook_broadcasts_on_completion no_iso request w w' r E)
    as (reply & Hr & _ & _ & _ & _ & Hobj & Hsome & _).
  destruct (Hobj push_tracker_body eq_refl) as (resp & Hreply & H200).
  assert (∃ res, body_module resp = Some res) as [res Hres].
  { rewrite Hr, Hreply in E. vm_compute in E. injection E as _ <-. eexists. reflexivity. }
  exists reply, resp, res. split; [exact Hr|]. split; [exact Hreply|].
  split; [exact H200|]. split; [exact Hres|].
  exact (Hsome resp res Hreply Hres).
Defined.

Lemma find_module_in_projects_failures_witness :
  projects (fst (find_module_in_projects alice_id "Tracker" "in-progress"
                   (world_of [None] oct22 None)))
  = projects (world_of [None] oct22 None).
Proof.
  refine (proj1 (find_module_in_projects_failures
                   (world_of [None] oct22 None)
                   (fst (find_module_in_projects alice_id "Tracker" "in-progress"
                           (world_of [None] oct22 None)))
                   alice_id "Tracker" "in-progress" AttributeError _)).
  reflexivity.
Defined.

Lemma find_module_in_projects_ignores_case_witness :
  find_module_in_projects alice_id "TRACKER" "in-progress"
    (world_of [Some with_rule] oct22 None)
  = find_module_in_projects alice_id "tracker" "in-progress"
      (world_of [Some with_rule] oct22 None).
Proof.
  refine (proj1 (find_module_in_projects_ignores_case
                   (world_of [Some with_rule] oct22 None) alice_id
                   "TRACKER" "tracker" "in-progress" _)).
  reflexivity.
Defined.

Lemma text_assignee_matched_but_not_counted_witness :
  history_match alice_id (Some legacy_assignee) = false
  ∧ module_matches legacy_assignee alice_id "Tracker" "completed" = true.
Proof.
  destruct (text_assignee_matched_but_not_counted legacy_assignee
              "64b000000000000000000001" "Tracker" "completed")
    as (Hsame & Hnot & _).
  - reflexivity.
  - split; [exact Hnot|]. refine (eq_trans Hsame _). reflexivity.
Defined.

Lemma update_module_status_unknown_project_witness :
  ∃ w' r,
    update_module_status (ObjectId "64b0000000000000000000p9") 0 "completed"
      (world_of [Some with_rule] oct22 None) = (w', r)
    ∧ projects w' = projects (world_of [Some with_rule] oct22 None).
Proof.
  destruct (update_module_status_unknown_project
              (world_of [Some with_rule] oct22 None)
              (ObjectId "64b0000000000000000000p9") 0 "completed")
    as (w' & r & Hu & Hp & _).
  - constructor; [discriminate|constructor].
  - exists w', r. split; [exact Hu|exact Hp].
Defined.

Lemma update_module_status_touches_one_slot_witness :
  let w := world_of [Some with_rule; Some with_rule_too] oct22 None in
  slot_at demo_id 1 (projects (fst (update_module_status demo_id 0 "completed" w)))
  = Some (Some with_rule_too).
Proof.
  intros w.
  destruct (update_module_status demo_id 0 "completed" w) as [w' r] eqn:E.
  destruct (update_module_status_touches_one_slot w w' demo_id 0 "completed" r E)
    as (_ & _ & _ & Hkeep).
  apply Hkeep; [discriminate|reflexivity].
Defined.

Lemma calculate_predictive_delay_reads_only_witness :
  projects (fst (calculate_predictive_delay no_iso done_on_oct22 alice_id
                   (world_of [Some done_on_oct22] oct22 None)))
  = [project_of [Some done_on_oct22]].
Proof.
  destruct (calculate_predictive_delay no_iso done_on_oct22 alice_id
              (world_of [Some done_on_oct22] oct22 None)) as [w' r] eqn:E.
  destruct (calculate_predictive_delay_reads_only no_iso done_on_oct22 alice_id
              (world_of [Some done_on_oct22] oct22 None) w' r E) as (_ & Hp & _).
  exact Hp.
Defined.

Lemma calculate_predictive_delay_defaults_witness :
  let w := world_of [Some with_rule] oct22 None in
  dueDate with_rule = Some (DDate oct20)
  ∧ completedAt with_rule = None
  ∧ ∃ est,
      calculate_predictive_delay no_iso with_rule alice_id w = (tick w, Ok est)
      ∧ predictedDelay est = 2%Z
      ∧ avgCompletionTime est = Some (QArith_base.Qmake 7 1)
      ∧ confidence est = "low".
Proof.
  intros w. do 2 (split; [reflexivity|]).
  destruct (calculate_predictive_delay_defaults no_iso with_rule alice_id w oct20)
    as [Habsent _].
  - reflexivity.
  - discriminate.
  - reflexivity.
  - destruct (Habsent eq_refl) as (est & Hcalc & Hdelay & _ & _ & Hnone).
    exists est. split; [exact Hcalc|]. split; [rewrite Hdelay; reflexivity|].
    exact (Hnone eq_refl).
Defined.

(** The listings on a store with one text [createdAt]: the REST listing
    answers 500 while the snapshot is emitted. *)
Example listings_on_text_createdAt :
  let m := with_rule in
  let legacy :=
    {| module_oid := module_oid m; module_id := module_id m; title := title m;
       description := description m; assignedToUserId := assignedToUserId m;
       status := status m; validationRule := validationRule m; dueDate := dueDate m;
       createdAt := Some (DText "2025-10-15"); completedAt := completedAt m |} in
  let w := world_of [Some with_rule; Some legacy] oct22 None in
  (modules_http_status <$> match snd (get_modules w) with Ok r => Some r | _ => None end)
  = Some 500
  ∧ (∃ l, snd (handle_request_modules w) = Ok (ModulesSnapshot l oct22) ∧ length l = 2).
Proof. split; [reflexivity|]. eexists. split; reflexivity. Qed.
